(** * Observational memory: the memory lifecycle engine of [src/index.ts]

    A shallow embedding of the extension's pure helpers and of its
    state-mutating operations, followed by the properties proved about them.

    Conventions of the embedding.
    - A JavaScript string is the list of its UTF-16 code units ([jsstring]).
      String literals of the source are written [js "..."].
    - A JavaScript number that carries a count (tokens, runs, caps, epoch
      milliseconds) is an integer of [Z]; non-finite numbers only occur in
      untyped data and are the values [VNaN] and [VInf] there.
    - An [async] function is cut at its suspension point: [xxx_begin] is the
      code that runs before the external call is awaited, [xxx_finish] the
      code that runs when the call settles, on whatever the shared state is
      at that moment.  Local constants captured across the [await] travel in
      a task record.
    - Notifications and status-bar updates do not touch the state and are
      left out. *)

From Stdlib Require Import String Ascii List ZArith NArith Lia Bool Arith DecimalString.
From Stdlib Require Import DecimalPos Permutation Sorted.
Import ListNotations.

Set Implicit Arguments.
Set Warnings "-register-all".

(* ================================================================== *)
(** ** JavaScript strings *)

Module JsString.

Definition jschar := N.
Definition jsstring := list jschar.

(** The code units of an ASCII literal. *)
Definition js (s : string) : jsstring :=
  map N_of_ascii (list_ascii_of_string s).

Definition NL : jschar := 10%N.

(** [a === b] on strings. *)
Fixpoint jseq (a b : jsstring) : bool :=
  match a, b with
  | [], [] => true
  | c :: a', d :: b' => (c =? d)%N && jseq a' b'
  | _, _ => false
  end.

(** [WhiteSpace] and [LineTerminator] code points: what [trim] strips and
    what [\s] matches. *)
Definition isJsSpace (c : jschar) : bool :=
  ((9 <=? c) && (c <=? 13) || (c =? 32) || (c =? 160) || (c =? 5760)
   || (8192 <=? c) && (c <=? 8202) || (c =? 8232) || (c =? 8233)
   || (c =? 8239) || (c =? 8287) || (c =? 12288) || (c =? 65279))%N.

Fixpoint dropWhile (p : jschar -> bool) (s : jsstring) : jsstring :=
  match s with
  | [] => []
  | c :: r => if p c then dropWhile p r else s
  end.

Definition trimStart (s : jsstring) : jsstring := dropWhile isJsSpace s.
Definition trimEnd (s : jsstring) : jsstring := rev (dropWhile isJsSpace (rev s)).
(** [String.prototype.trim] *)
Definition trim (s : jsstring) : jsstring := trimEnd (trimStart s).

(** [s.split(sep)] for a one-character separator. *)
Fixpoint split (sep : jschar) (s : jsstring) : list jsstring :=
  match s with
  | [] => [[]]
  | c :: r =>
      if (c =? sep)%N then [] :: split sep r
      else match split sep r with
           | h :: t => (c :: h) :: t
           | [] => [[c]]
           end
  end.

(** [parts.join(sep)] *)
Fixpoint join (sep : jsstring) (parts : list jsstring) : jsstring :=
  match parts with
  | [] => []
  | [x] => x
  | x :: r => x ++ sep ++ join sep r
  end.

(** [Boolean(s)] for a string: the empty string is the only falsy one. *)
Definition truthy (s : jsstring) : bool :=
  match s with [] => false | _ => true end.

(** [xs.slice(start)] for an integer [start]. *)
Definition sliceFrom (A : Type) (start : Z) (xs : list A) : list A :=
  let len := Z.of_nat (length xs) in
  if (start <? 0)%Z then skipn (Z.to_nat (Z.max (len + start) 0)) xs
  else skipn (Z.to_nat (Z.min start len)) xs.

(** [xs.slice(0, n)] for a non-negative literal [n]. *)
Definition sliceTo (A : Type) (n : nat) (xs : list A) : list A := firstn n xs.

(** The last [n] elements of a list. *)
Definition lastn (A : Type) (n : nat) (xs : list A) : list A :=
  skipn (length xs - n) xs.

(** [String(n)] for an integer. *)
Definition numToString (z : Z) : jsstring :=
  js (NilZero.string_of_int (Z.to_int z)).

(** [s.startsWith(p)], and the rest of [s] after [p]. *)
Fixpoint stripPrefix (p s : jsstring) : option jsstring :=
  match p, s with
  | [], _ => Some s
  | a :: p', b :: s' => if (a =? b)%N then stripPrefix p' s' else None
  | _ :: _, [] => None
  end.

(** [s.indexOf(p)]: the first index at which [p] occurs. *)
Fixpoint indexOfFrom (p s : jsstring) (i : nat) : option nat :=
  match stripPrefix p s with
  | Some _ => Some i
  | None => match s with
            | [] => None
            | _ :: r => indexOfFrom p r (S i)
            end
  end.

Definition indexOf (p s : jsstring) : option nat := indexOfFrom p s 0.

(** [s.includes(p)] *)
Definition includes (p s : jsstring) : bool :=
  match indexOf p s with Some _ => true | None => false end.

(** [s.lastIndexOf(c, from) + 1] for a one-character [c] and [from >= 0]:
    one past the last occurrence of [c] at an index [<= from], or [0]. *)
Fixpoint afterLastIndexOf (c : jschar) (s : jsstring) (from : nat) (i : nat) : nat :=
  match s with
  | [] => 0
  | d :: r =>
      let here := if (d =? c)%N then S i else 0 in
      match from with
      | 0 => here
      | S from' => match afterLastIndexOf c r from' (S i) with
                   | 0 => here
                   | k => k
                   end
      end
  end.

(** [s.substring(a, b)] for [0 <= a <= b]. *)
Definition substring (a b : nat) (s : jsstring) : jsstring :=
  firstn (b - a) (skipn a s).

End JsString.
Import JsString.

(* ================================================================== *)
(** ** Regular expressions

    The backtracking matcher of the ECMAScript specification (matchers
    taking a state and a continuation), for the constructs the source's
    patterns use.  Flags are resolved when a pattern is written down: the
    [m] flag is the argument of [Bol] and [Eol]; under the [i] flag literals
    and classes are built with the case-folding helpers below.  No pattern
    of the source has a capturing group under a quantifier, so the step
    that resets such captures at each iteration is not represented. *)

Module Regex.

Inductive re :=
| Eps
| Cls (p : jschar -> bool)                 (* one character of a class *)
| ClsU (p : N -> bool)                     (* the same under the [u] flag:
                                              one code point of a class *)
| Seq (a b : re)
| Alt (a b : re)                           (* a|b *)
| Rep (greedy : bool) (min : nat) (max : option nat) (a : re)
| Grp (i : nat) (a : re)                   (* capturing group number i *)
| Bol (multiline : bool)                   (* ^ *)
| Eol (multiline : bool)                   (* $ *)
| WordB                                    (* \b *)
| Ahead (a : re).                          (* (?=a) *)

(** A match state: the input split at the current index, and the captures
    so far. *)
Record mstate := {
  before : list jschar;    (* the characters before the index, nearest first *)
  after : list jschar;
  pos : nat;
  caps : list (nat * jsstring)
}.

Definition isLineTerminator (c : jschar) : bool :=
  ((c =? 10) || (c =? 13) || (c =? 8232) || (c =? 8233))%N.

Definition isDigit (c : jschar) : bool := ((48 <=? c) && (c <=? 57))%N.
Definition isUpper (c : jschar) : bool := ((65 <=? c) && (c <=? 90))%N.
Definition isLower (c : jschar) : bool := ((97 <=? c) && (c <=? 122))%N.
(** [\w] *)
Definition isWordChar (c : jschar) : bool :=
  isUpper c || isLower c || isDigit c || (c =? 95)%N.

(** [Canonicalize] without the [u] flag, on the characters that can equal
    the canonical form of an ASCII character: ASCII letters fold to upper
    case, and no character outside ASCII folds into ASCII. *)
Definition canonicalize (c : jschar) : jschar :=
  if isLower c then (c - 32)%N else c.

Definition isHighSurrogate (c : jschar) : bool := ((55296 <=? c) && (c <=? 56319))%N.
Definition isLowSurrogate (c : jschar) : bool := ((56320 <=? c) && (c <=? 57343))%N.

(** The code point at the head of the input and the number of code units
    it takes: a surrogate pair counts as one character under the [u] flag. *)
Definition codePointAt (s : jsstring) : option (N * nat) :=
  match s with
  | [] => None
  | c :: d :: _ =>
      if isHighSurrogate c && isLowSurrogate d
      then Some (((c - 55296) * 1024 + (d - 56320) + 65536)%N, 2)
      else Some (c, 1)
  | [c] => Some (c, 1)
  end.

(** The state [n] code units further. *)
Fixpoint advance (n : nat) (x : mstate) : mstate :=
  match n with
  | 0 => x
  | S n' =>
      match after x with
      | [] => x
      | c :: rest =>
          advance n' {| before := c :: before x; after := rest;
                        pos := S (pos x); caps := caps x |}
      end
  end.

Definition setCap (i : nat) (s : jsstring) (x : mstate) : mstate :=
  {| before := before x; after := after x; pos := pos x;
     caps := (i, s) :: caps x |}.

Fixpoint getCap (i : nat) (cs : list (nat * jsstring)) : option jsstring :=
  match cs with
  | [] => None
  | (j, s) :: r => if Nat.eqb i j then Some s else getCap i r
  end.

Definition orElse (A : Type) (a b : option A) : option A :=
  match a with Some _ => a | None => b end.

Fixpoint matcher (r : re) : mstate -> (mstate -> option mstate) -> option mstate :=
  match r with
  | Eps => fun x k => k x
  | Cls p => fun x k =>
      match after x with
      | c :: rest =>
          if p c then k {| before := c :: before x; after := rest;
                           pos := S (pos x); caps := caps x |}
          else None
      | [] => None
      end
  | ClsU p => fun x k =>
      match codePointAt (after x) with
      | Some (cp, n) => if p cp then k (advance n x) else None
      | None => None
      end
  | Seq a b => fun x k => matcher a x (fun y => matcher b y k)
  | Alt a b => fun x k => orElse (matcher a x k) (matcher b x k)
  | Rep greedy min max a =>
      let m := matcher a in
      fun x k =>
        (fix repeat (fuel min : nat) (max : option nat) (x : mstate)
             {struct fuel} : option mstate :=
           match fuel with
           | 0 => None
           | S fuel' =>
               match max with
               | Some 0 => k x
               | _ =>
                   let d := fun y =>
                     if Nat.eqb min 0 && Nat.eqb (pos y) (pos x) then None
                     else repeat fuel' (Nat.pred min) (option_map Nat.pred max) y in
                   if negb (Nat.eqb min 0) then m x d
                   else if greedy then orElse (m x d) (k x)
                   else orElse (k x) (m x d)
               end
           end) (min + length (after x) + 1) min max x
  | Grp i a => fun x k =>
      matcher a x (fun y => k (setCap i (firstn (pos y - pos x) (after x)) y))
  | Bol multiline => fun x k =>
      match before x with
      | [] => k x
      | c :: _ => if multiline && isLineTerminator c then k x else None
      end
  | Eol multiline => fun x k =>
      match after x with
      | [] => k x
      | c :: _ => if multiline && isLineTerminator c then k x else None
      end
  | WordB => fun x k =>
      let a := match before x with c :: _ => isWordChar c | [] => false end in
      let b := match after x with c :: _ => isWordChar c | [] => false end in
      if xorb a b then k x else None
  | Ahead a => fun x k =>
      match matcher a x Some with
      | Some y => k {| before := before x; after := after x; pos := pos x;
                       caps := caps y |}
      | None => None
      end
  end.

(** The leftmost match at or after the given index: the state where it
    starts and the state where it ends. *)
Fixpoint search (r : re) (bef : list jschar) (p : nat) (aft : list jschar)
  : option (mstate * mstate) :=
  let x := {| before := bef; after := aft; pos := p; caps := [] |} in
  match matcher r x Some with
  | Some y => Some (x, y)
  | None => match aft with
            | [] => None
            | c :: rest => search r (c :: bef) (S p) rest
            end
  end.

(** [text.match(re)] for a pattern without the [g] flag. *)
Definition exec (r : re) (text : jsstring) : option (mstate * mstate) :=
  search r [] 0 text.

(** [re.test(text)] *)
Definition test (r : re) (text : jsstring) : bool :=
  match exec r text with Some _ => true | None => false end.

Definition matched (m : mstate * mstate) : jsstring :=
  firstn (pos (snd m) - pos (fst m)) (after (fst m)).

Definition group (i : nat) (m : mstate * mstate) : option jsstring :=
  getCap i (caps (snd m)).

(** The successive matches of a pattern with the [g] flag, as the
    [exec]/[lastIndex] loop and [replace] find them; after an empty match
    the search resumes one character further. *)
Fixpoint matchAllFrom (r : re) (fuel : nat) (bef : list jschar) (p : nat)
         (aft : list jschar) : list (mstate * mstate) :=
  match fuel with
  | 0 => []
  | S fuel' =>
      match search r bef p aft with
      | None => []
      | Some (x, y) =>
          (x, y) ::
          (if Nat.eqb (pos y) (pos x) then
             match after y with
             | [] => []
             | c :: rest => matchAllFrom r fuel' (c :: before y) (S (pos y)) rest
             end
           else matchAllFrom r fuel' (before y) (pos y) (after y))
      end
  end.

Definition matchAll (r : re) (text : jsstring) : list (mstate * mstate) :=
  matchAllFrom r (S (length text)) [] 0 text.

(** [text.replace(re, f)] for a pattern with the [g] flag and a callback. *)
Fixpoint spliceMatches (f : mstate * mstate -> jsstring) (cur : nat)
         (text : jsstring) (ms : list (mstate * mstate)) : jsstring :=
  match ms with
  | [] => skipn cur text
  | m :: rest =>
      substring cur (pos (fst m)) text ++ f m
        ++ spliceMatches f (pos (snd m)) text rest
  end.

Definition replaceAll (r : re) (f : mstate * mstate -> jsstring)
           (text : jsstring) : jsstring :=
  spliceMatches f 0 text (matchAll r text).

(** [text.split(re)] for a pattern with the [u] flag and no capturing
    group: [p] is where the current piece starts, [x] the state at the
    index [q] being tried, [piece] the characters from [p] to [q], last
    first. *)
Fixpoint splitLoop (r : re) (fuel : nat) (p : nat) (x : mstate)
         (piece : jsstring) : list jsstring :=
  match fuel with
  | 0 => [rev piece]
  | S fuel' =>
      match codePointAt (after x) with
      | None => [rev piece]
      | Some (_, n) =>
          let step := splitLoop r fuel' p (advance n x)
                                (rev (firstn n (after x)) ++ piece) in
          match matcher r x Some with
          | None => step
          | Some y =>
              if Nat.eqb (pos y) p then step
              else rev piece :: splitLoop r fuel' (pos y) y []
          end
      end
  end.

Definition splitU (r : re) (text : jsstring) : list jsstring :=
  let x := {| before := []; after := text; pos := 0; caps := [] |} in
  match text with
  | [] => match matcher r x Some with Some _ => [] | None => [text] end
  | _ => splitLoop r (2 * length text + 2) 0 x []
  end.

(** *** Pattern combinators *)

Definition cat (rs : list re) : re := fold_right Seq Eps rs.
Definition chr (c : jschar) : re := Cls (N.eqb c).
Definition lit (s : string) : re := cat (map chr (js s)).
(** A literal under the [i] flag. *)
Definition chr_i (c : jschar) : re :=
  Cls (fun d => (canonicalize d =? canonicalize c)%N).
Definition lit_i (s : string) : re := cat (map chr_i (js s)).
(** A class under the [i] flag: some member has the same canonical form. *)
Definition letter_i : re := Cls (fun d => isUpper (canonicalize d)).
Definition star (a : re) : re := Rep true 0 None a.
Definition plus (a : re) : re := Rep true 1 None a.
Definition opt (a : re) : re := Rep true 0 (Some 1) a.
Definition lazyStar (a : re) : re := Rep false 0 None a.
Definition times (lo hi : nat) (a : re) : re := Rep true lo (Some hi) a.
Definition ws : re := Cls isJsSpace.                 (* \s *)
Definition digit : re := Cls isDigit.                (* \d *)
Definition word : re := Cls isWordChar.              (* \w *)
Definition upper : re := Cls isUpper.                (* [A-Z] *)
Definition lower : re := Cls isLower.                (* [a-z] *)
Definition anyChar : re := Cls (fun _ => true).      (* [\s\S] *)

End Regex.
Import Regex.

(* ================================================================== *)
(** ** Untyped values: parsed JSON, [raw: any] *)

Inductive JsVal :=
| VUndef
| VNull
| VBool (b : bool)
| VNum (z : Z)
| VNaN
| VInf (negative : bool)     (* Infinity, -Infinity *)
| VStr (s : jsstring)
| VArr (items : list JsVal)
| VObj (fields : list (jsstring * JsVal)).

(** [v?.name] / [v.name]: own data properties only.  The property list of
    an object has one entry per key. *)
Fixpoint lookupField (name : jsstring) (fields : list (jsstring * JsVal)) : JsVal :=
  match fields with
  | [] => VUndef
  | (k, v) :: r => if jseq k name then v else lookupField name r
  end.

Definition getField (v : JsVal) (name : string) : JsVal :=
  match v with
  | VObj fields => lookupField (js name) fields
  | _ => VUndef
  end.

(** [Boolean(v)] *)
Definition truthyVal (v : JsVal) : bool :=
  match v with
  | VUndef | VNull | VNaN => false
  | VBool b => b
  | VNum z => negb (z =? 0)%Z
  | VInf _ => true
  | VStr s => truthy s
  | VArr _ | VObj _ => true
  end.

(** [String(v)], as [join] applies it to the elements of an array; plain
    data objects print as [[object Object]]. *)
Fixpoint toStringVal (v : JsVal) : jsstring :=
  match v with
  | VUndef => js "undefined"
  | VNull => js "null"
  | VBool b => if b then js "true" else js "false"
  | VNum z => numToString z
  | VNaN => js "NaN"
  | VInf negative => if negative then js "-Infinity" else js "Infinity"
  | VStr s => s
  | VArr items =>
      join (js ",")
           (map (fun x => match x with
                          | VUndef | VNull => js ""
                          | _ => toStringVal x
                          end) items)
  | VObj _ => js "[object Object]"
  end.

(** The string an array element contributes to [join]. *)
Definition joinItem (v : JsVal) : jsstring :=
  match v with
  | VUndef | VNull => js ""
  | _ => toStringVal v
  end.

(* ================================================================== *)
(** ** Configuration *)

Inductive OmMemoryInjectionMode := ModeAll | ModeCoreRelevant.

(** [OmConfig], without [geminiCliModel] (a string handed to the
    command-line backend). *)
Record OmConfig := {
  recentTurnBudgetTokens : Z;
  maxObservationItems : Z;
  maxObserverTranscriptChars : Z;
  maxReflectorObservationsChars : Z;
  forceObserveAutoCompact : bool;
  memoryInjectionMode : OmMemoryInjectionMode;
  coreMemoryMaxTokens : Z;
  relevantObservationMaxItems : Z;
  relevantObservationMaxTokens : Z;
  enableReflection : bool;
  reflectEveryNObservations : Z;
  reflectWhenObservationTokensOver : Z;
  reflectBeforeCompaction : bool;
  autoObservePendingTokenThreshold : Z
}.

Definition DEFAULT_OM_CONFIG : OmConfig := {|
  recentTurnBudgetTokens := 12000;
  maxObservationItems := 1200;
  maxObserverTranscriptChars := 200000;
  maxReflectorObservationsChars := 240000;
  forceObserveAutoCompact := true;
  memoryInjectionMode := ModeAll;
  coreMemoryMaxTokens := 500;
  relevantObservationMaxItems := 20;
  relevantObservationMaxTokens := 1400;
  enableReflection := true;
  reflectEveryNObservations := 3;
  reflectWhenObservationTokensOver := 3000;
  reflectBeforeCompaction := true;
  autoObservePendingTokenThreshold := 8000
|}.

(** [coerceNumber(value, fallback, min = 1)] *)
Definition coerceNumber (value : JsVal) (fallback : Z) (min : Z) : Z :=
  match value with
  | VNum z => Z.max min z
  | _ => fallback
  end.

Definition coerceBool (value : JsVal) (fallback : bool) : bool :=
  match value with
  | VBool b => b
  | _ => fallback
  end.

Definition normalizeOmConfig (raw : JsVal) : OmConfig :=
  let mode := match getField raw "memoryInjectionMode" with
              | VStr s => if jseq s (js "core_relevant") then ModeCoreRelevant else ModeAll
              | _ => ModeAll
              end in
  let d := DEFAULT_OM_CONFIG in
  {| recentTurnBudgetTokens := coerceNumber (getField raw "recentTurnBudgetTokens") (recentTurnBudgetTokens d) 1;
     maxObservationItems := coerceNumber (getField raw "maxObservationItems") (maxObservationItems d) 1;
     maxObserverTranscriptChars := coerceNumber (getField raw "maxObserverTranscriptChars") (maxObserverTranscriptChars d) 1;
     maxReflectorObservationsChars := coerceNumber (getField raw "maxReflectorObservationsChars") (maxReflectorObservationsChars d) 1;
     forceObserveAutoCompact := coerceBool (getField raw "forceObserveAutoCompact") (forceObserveAutoCompact d);
     memoryInjectionMode := mode;
     coreMemoryMaxTokens := coerceNumber (getField raw "coreMemoryMaxTokens") (coreMemoryMaxTokens d) 1;
     relevantObservationMaxItems := coerceNumber (getField raw "relevantObservationMaxItems") (relevantObservationMaxItems d) 1;
     relevantObservationMaxTokens := coerceNumber (getField raw "relevantObservationMaxTokens") (relevantObservationMaxTokens d) 1;
     enableReflection := coerceBool (getField raw "enableReflection") (enableReflection d);
     reflectEveryNObservations := coerceNumber (getField raw "reflectEveryNObservations") (reflectEveryNObservations d) 1;
     reflectWhenObservationTokensOver := coerceNumber (getField raw "reflectWhenObservationTokensOver") (reflectWhenObservationTokensOver d) 1;
     reflectBeforeCompaction := coerceBool (getField raw "reflectBeforeCompaction") (reflectBeforeCompaction d);
     autoObservePendingTokenThreshold := coerceNumber (getField raw "autoObservePendingTokenThreshold") (autoObservePendingTokenThreshold d) 0
  |}.

(* ================================================================== *)
(** ** Observation lines and the merge *)

(** [text.split("\n").map(l => l.trim()).filter(Boolean)] *)
Definition observationLines (text : jsstring) : list jsstring :=
  filter truthy (map trim (split NL text)).

Definition mergeObservationItems (omConfig : OmConfig)
           (existingText incomingText : jsstring) : jsstring :=
  let existing := observationLines existingText in
  let incoming := observationLines incomingText in
  let merged := existing ++ incoming in
  join [NL] (sliceFrom (- maxObservationItems omConfig) merged).

(* ================================================================== *)
(** ** Relative time annotations *)

Section Temporal.
Local Open Scope Z_scope.

(** [new Date(text).getTime()] of the host: the epoch milliseconds the
    runtime's date parser assigns to [text], [None] when it yields an
    invalid date.  A [Date] is represented by its time value. *)
Variable dateParse : jsstring -> option Z.

Definition msPerDay : Z := 1000 * 60 * 60 * 24.

Definition formatRelativeTime (date currentDate : Z) : jsstring :=
  let diffMs := currentDate - date in
  let diffDays := diffMs / msPerDay in
  if diffDays <? 0 then
    let futureDays := Z.abs diffDays in
    if futureDays =? 0 then js "today"
    else if futureDays =? 1 then js "tomorrow"
    else if futureDays <? 7 then js "in " ++ numToString futureDays ++ js " days"
    else if futureDays <? 14 then js "in 1 week"
    else if futureDays <? 30 then js "in " ++ numToString (futureDays / 7) ++ js " weeks"
    else js "in " ++ numToString (futureDays / 30) ++ js " month"
           ++ (if 1 <? futureDays / 30 then js "s" else js "")
  else if diffDays =? 0 then js "today"
  else if diffDays =? 1 then js "yesterday"
  else if diffDays <? 7 then numToString diffDays ++ js " days ago"
  else if diffDays <? 14 then js "1 week ago"
  else if diffDays <? 30 then numToString (diffDays / 7) ++ js " weeks ago"
  else if diffDays <? 60 then js "1 month ago"
  else if diffDays <? 365 then numToString (diffDays / 30) ++ js " months ago"
  else numToString (diffDays / 365) ++ js " year"
         ++ (if 1 <? diffDays / 365 then js "s" else js "") ++ js " ago".

Definition formatGapBetweenDates (prevDate currDate : Z) : option jsstring :=
  let diffMs := currDate - prevDate in
  let diffDays := diffMs / msPerDay in
  if diffDays <=? 1 then None
  else if diffDays <? 7 then Some (js "[" ++ numToString diffDays ++ js " days later]")
  else if diffDays <? 14 then Some (js "[1 week later]")
  else if diffDays <? 30 then Some (js "[" ++ numToString (diffDays / 7) ++ js " weeks later]")
  else if diffDays <? 60 then Some (js "[1 month later]")
  else Some (js "[" ++ numToString (diffDays / 30) ++ js " months later]").

(** [/([A-Z][a-z]+)\s+(\d{1,2}),?\s+(\d{4})/] *)
Definition simpleDateRegex : re :=
  cat [Grp 1 (cat [upper; plus lower]); plus ws; Grp 2 (times 1 2 digit);
       opt (lit ","); plus ws; Grp 3 (times 4 4 digit)].

(** [/([A-Z][a-z]+)\s+(\d{1,2})-\d{1,2},?\s+(\d{4})/] *)
Definition rangeDateRegex : re :=
  cat [Grp 1 (cat [upper; plus lower]); plus ws; Grp 2 (times 1 2 digit);
       lit "-"; times 1 2 digit; opt (lit ","); plus ws; Grp 3 (times 4 4 digit)].

(** [/(late|early|mid)[- ]?(?:to[- ]?(?:late|early|mid)[- ]?)?([A-Z][a-z]+)\s+(\d{4})/i] *)
Definition vagueDateRegex : re :=
  let modifier := Alt (lit_i "late") (Alt (lit_i "early") (lit_i "mid")) in
  let dashOrSpace := Cls (fun c => (c =? 45) || (c =? 32))%N in
  cat [Grp 1 modifier; opt dashOrSpace;
       opt (cat [lit_i "to"; opt dashOrSpace; modifier; opt dashOrSpace]);
       Grp 2 (cat [letter_i; plus letter_i]); plus ws; Grp 3 (times 4 4 digit)].

Definition capture (i : nat) (m : mstate * mstate) : jsstring :=
  match group i m with Some s => s | None => js "undefined" end.

(** [s.toLowerCase()] on a string of ASCII letters. *)
Definition asciiLower (s : jsstring) : jsstring :=
  map (fun c => if isUpper c then (c + 32)%N else c) s.

Definition parseDateFromContent (dateContent : jsstring) : option Z :=
  let simple :=
    match exec simpleDateRegex dateContent with
    | Some m => dateParse (capture 1 m ++ js " " ++ capture 2 m ++ js ", " ++ capture 3 m)
    | None => None
    end in
  let range :=
    match exec rangeDateRegex dateContent with
    | Some m => dateParse (capture 1 m ++ js " " ++ capture 2 m ++ js ", " ++ capture 3 m)
    | None => None
    end in
  let vague :=
    match exec vagueDateRegex dateContent with
    | Some m =>
        let modifier := asciiLower (capture 1 m) in
        let day := if jseq modifier (js "late") then 23
                   else if jseq modifier (js "early") then 7
                   else 15 in
        dateParse (capture 2 m ++ js " " ++ numToString day ++ js ", " ++ capture 3 m)
    | None => None
    end in
  orElse simple (orElse range vague).

Definition futureIntentPatterns : list re :=
  [ (* /\bwill\s+(?:be\s+)?(?:\w+ing|\w+)\b/i *)
    cat [WordB; lit_i "will"; plus ws; opt (cat [lit_i "be"; plus ws]);
         Alt (cat [plus word; lit_i "ing"]) (plus word); WordB];
    (* /\bplans?\s+to\b/i *)
    cat [WordB; lit_i "plan"; opt (lit_i "s"); plus ws; lit_i "to"; WordB];
    (* /\bplanning\s+to\b/i *)
    cat [WordB; lit_i "planning"; plus ws; lit_i "to"; WordB];
    (* /\bgoing\s+to\b/i *)
    cat [WordB; lit_i "going"; plus ws; lit_i "to"; WordB];
    (* /\bintends?\s+to\b/i *)
    cat [WordB; lit_i "intend"; opt (lit_i "s"); plus ws; lit_i "to"; WordB];
    (* /\bwants?\s+to\b/i *)
    cat [WordB; lit_i "want"; opt (lit_i "s"); plus ws; lit_i "to"; WordB];
    (* /\bneeds?\s+to\b/i *)
    cat [WordB; lit_i "need"; opt (lit_i "s"); plus ws; lit_i "to"; WordB];
    (* /\babout\s+to\b/i *)
    cat [WordB; lit_i "about"; plus ws; lit_i "to"; WordB] ].

Definition isFutureIntentObservation (line : jsstring) : bool :=
  existsb (fun pattern => test pattern line) futureIntentPatterns.

(** [/\((estimated|meaning)\s+([^)]+\d{4})\)/gi] *)
Definition inlineDateRegex : re :=
  cat [lit "("; Grp 1 (Alt (lit_i "estimated") (lit_i "meaning")); plus ws;
       Grp 2 (cat [plus (Cls (fun c => negb (c =? 41)%N)); times 4 4 digit]);
       lit ")"].

Definition expandInlineEstimatedDates (observations : jsstring) (currentDate : Z)
  : jsstring :=
  replaceAll inlineDateRegex (fun m =>
    let match_ := matched m in
    let prefix := capture 1 m in
    let dateContent := capture 2 m in
    match parseDateFromContent dateContent with
    | None => match_
    | Some targetDate =>
        let relative := formatRelativeTime targetDate currentDate in
        let matchIndex := match indexOf match_ observations with
                          | Some i => i | None => 0%nat end in
        let lineStart := afterLastIndexOf NL observations matchIndex 0%nat in
        let lineBeforeDate := substring lineStart matchIndex observations in
        let isPastDate := targetDate <? currentDate in
        let isFuture := isFutureIntentObservation lineBeforeDate in
        if isPastDate && isFuture then
          js "(" ++ prefix ++ js " " ++ dateContent ++ js " - " ++ relative
            ++ js ", likely already happened)"
        else
          js "(" ++ prefix ++ js " " ++ dateContent ++ js " - " ++ relative ++ js ")"
    end) observations.

(** [/^(Date:\s* )([A-Z][a-z]+ \d{1,2}, \d{4})$/gm] (a blank is put
    between the star and the parenthesis, which would otherwise end the
    comment). *)
Definition dateHeaderRegex : re :=
  cat [Bol true; Grp 1 (cat [lit "Date:"; star ws]);
       Grp 2 (cat [upper; plus lower; lit " "; times 1 2 digit; lit ", ";
                   times 4 4 digit]);
       Eol true].

Record DateHeader := {
  dh_index : nat;
  dh_date : Z;
  dh_match : jsstring;
  dh_prefix : jsstring;
  dh_dateStr : jsstring
}.

(** The [while (... exec ...)] loop collecting the headers with a valid
    date. *)
Definition collectDateHeaders (text : jsstring) : list DateHeader :=
  flat_map (fun m =>
    match dateParse (capture 2 m) with
    | Some parsed =>
        [ {| dh_index := pos (fst m); dh_date := parsed; dh_match := matched m;
             dh_prefix := capture 1 m; dh_dateStr := capture 2 m |} ]
    | None => []
    end) (matchAll dateHeaderRegex text).

(** The body of [for (let i = dates.length - 1; i >= 0; i--)], run on the
    headers [dates[0..i]] given last first, with [dates[i - 1]] next in the
    list. *)
Fixpoint annotateHeaders (currentDate : Z) (revDates : list DateHeader)
         (result : jsstring) : jsstring :=
  match revDates with
  | [] => result
  | d :: earlier =>
      let relative := formatRelativeTime (dh_date d) currentDate in
      let replacement := dh_prefix d ++ dh_dateStr d ++ js " (" ++ relative ++ js ")" in
      let replacement :=
        match earlier with
        | prev :: _ =>
            match formatGapBetweenDates (dh_date prev) (dh_date d) with
            | Some gap => [NL] ++ gap ++ [NL] ++ replacement
            | None => replacement
            end
        | [] => replacement
        end in
      let result := firstn (dh_index d) result ++ replacement
                      ++ skipn (dh_index d + length (dh_match d))%nat result in
      annotateHeaders currentDate earlier result
  end.

Definition addRelativeTimeToObservations (observations : jsstring) (currentDate : Z)
  : jsstring :=
  let withInlineDates := expandInlineEstimatedDates observations currentDate in
  let dates := collectDateHeaders withInlineDates in
  match dates with
  | [] => withInlineDates
  | _ => annotateHeaders currentDate (rev dates) withInlineDates
  end.

End Temporal.

(* ================================================================== *)
(** ** Section parser *)

Record OmSections := {
  parsed_observations : jsstring;
  parsed_currentTask : option jsstring;
  parsed_suggestedResponse : option jsstring
}.

(** [x ?? fallback] on an optional capture. *)
Definition orDefault (x : option jsstring) (fallback : jsstring) : jsstring :=
  match x with Some s => s | None => fallback end.

(** [s || undefined] *)
Definition nonEmpty (s : jsstring) : option jsstring :=
  if truthy s then Some s else None.

(** [/^```[a-zA-Z0-9_-]*\n([\s\S]*?)\n```$/] *)
Definition codeFenceRegex : re :=
  cat [Bol false; lit "```";
       star (Cls (fun c => isWordChar c || (c =? 45)%N));
       chr NL; Grp 1 (lazyStar anyChar); chr NL; lit "```"; Eol false].

Definition stripSingleCodeFence (text : jsstring) : jsstring :=
  let trimmed := trim text in
  let m := exec codeFenceRegex trimmed in
  trim (orDefault (match m with Some m => group 1 m | None => None end) text).

(** [new RegExp(`<${tag}>([\\s\\S]*?)<\/${tag}>`, "i")] *)
Definition xmlTagRegex (tag : string) : re :=
  cat [lit_i "<"; lit_i tag; lit_i ">"; Grp 1 (lazyStar anyChar);
       lit_i "</"; lit_i tag; lit_i ">"].

Definition extractXmlTag (text : jsstring) (tag : string) : jsstring :=
  trim (orDefault (match exec (xmlTagRegex tag) text with
                   | Some m => group 1 m
                   | None => None
                   end) (js "")).

(** The pattern built by [extractHeadingSection], flag [i]:
    [(?:^|\n)\s*#{1,6}\s*HEADING\s*\n([\s\S]*?)(?=\n\s*#{1,6}\s*(?:observations|current\s*task|suggested\s*response)\b|$)].
    The three headings it is called with contain no character that the
    escaping step rewrites. *)
Definition headingRegex (heading : string) : re :=
  let hashes := times 1 6 (lit "#") in
  cat [Alt (Bol false) (chr NL); star ws; hashes; star ws; lit_i heading;
       star ws; chr NL; Grp 1 (lazyStar anyChar);
       Ahead (Alt (cat [chr NL; star ws; hashes; star ws;
                        Alt (lit_i "observations")
                            (Alt (cat [lit_i "current"; star ws; lit_i "task"])
                                 (cat [lit_i "suggested"; star ws; lit_i "response"]));
                        WordB])
                  (Eol false))].

Definition extractHeadingSection (text : jsstring) (heading : string) : jsstring :=
  trim (orDefault (match exec (headingRegex heading) text with
                   | Some m => group 1 m
                   | None => None
                   end) (js "")).

Definition parseOmSections (raw : jsstring) : OmSections :=
  let text := stripSingleCodeFence raw in
  let observations := extractXmlTag text "observations" in
  let currentTask := extractXmlTag text "current-task" in
  let suggestedResponse := extractXmlTag text "suggested-response" in
  let observations :=
    if truthy observations then observations
    else extractHeadingSection text "observations" in
  let currentTask :=
    if truthy currentTask then currentTask
    else extractHeadingSection text "current task" in
  let suggestedResponse :=
    if truthy suggestedResponse then suggestedResponse
    else extractHeadingSection text "suggested response" in
  {| parsed_observations := trim observations;
     parsed_currentTask := nonEmpty (trim currentTask);
     parsed_suggestedResponse := nonEmpty (trim suggestedResponse) |}.

(* ================================================================== *)
(** ** The memory document *)

Inductive StorageScope := ScopeThread | ScopeResource.

Record PendingSegment := {
  id : jsstring;
  createdAt : jsstring;
  text : jsstring;
  tokens : Z
}.

(** [OmState].  The constant [version: 2] and the floating-point diagnostic
    [lastCompressionRatio], which no operation reads, are not carried.
    [reflections] holds untyped values because [coerceState] keeps whatever
    array elements the persisted data has. *)
Record OmState := {
  storageScope : StorageScope;
  observations : jsstring;
  observationTokens : Z;
  currentTask : option jsstring;
  suggestedResponse : option jsstring;
  observationRuns : Z;
  reflectionRuns : Z;
  lastObservedAt : option jsstring;
  reflections : list JsVal;
  pendingSegments : list PendingSegment;
  pendingTokens : Z;
  isBufferingObservation : bool;
  isBufferingReflection : bool
}.

(** Assignments [state.field = v]. *)
Definition set_storageScope (v : StorageScope) (s : OmState) : OmState :=
  {| storageScope := v;
     observations := observations s;
     observationTokens := observationTokens s;
     currentTask := currentTask s;
     suggestedResponse := suggestedResponse s;
     observationRuns := observationRuns s;
     reflectionRuns := reflectionRuns s;
     lastObservedAt := lastObservedAt s;
     reflections := reflections s;
     pendingSegments := pendingSegments s;
     pendingTokens := pendingTokens s;
     isBufferingObservation := isBufferingObservation s;
     isBufferingReflection := isBufferingReflection s |}.

Definition set_observations (v : jsstring) (s : OmState) : OmState :=
  {| storageScope := storageScope s;
     observations := v;
     observationTokens := observationTokens s;
     currentTask := currentTask s;
     suggestedResponse := suggestedResponse s;
     observationRuns := observationRuns s;
     reflectionRuns := reflectionRuns s;
     lastObservedAt := lastObservedAt s;
     reflections := reflections s;
     pendingSegments := pendingSegments s;
     pendingTokens := pendingTokens s;
     isBufferingObservation := isBufferingObservation s;
     isBufferingReflection := isBufferingReflection s |}.

Definition set_observationTokens (v : Z) (s : OmState) : OmState :=
  {| storageScope := storageScope s;
     observations := observations s;
     observationTokens := v;
     currentTask := currentTask s;
     suggestedResponse := suggestedResponse s;
     observationRuns := observationRuns s;
     reflectionRuns := reflectionRuns s;
     lastObservedAt := lastObservedAt s;
     reflections := reflections s;
     pendingSegments := pendingSegments s;
     pendingTokens := pendingTokens s;
     isBufferingObservation := isBufferingObservation s;
     isBufferingReflection := isBufferingReflection s |}.

Definition set_currentTask (v : option jsstring) (s : OmState) : OmState :=
  {| storageScope := storageScope s;
     observations := observations s;
     observationTokens := observationTokens s;
     currentTask := v;
     suggestedResponse := suggestedResponse s;
     observationRuns := observationRuns s;
     reflectionRuns := reflectionRuns s;
     lastObservedAt := lastObservedAt s;
     reflections := reflections s;
     pendingSegments := pendingSegments s;
     pendingTokens := pendingTokens s;
     isBufferingObservation := isBufferingObservation s;
     isBufferingReflection := isBufferingReflection s |}.

Definition set_suggestedResponse (v : option jsstring) (s : OmState) : OmState :=
  {| storageScope := storageScope s;
     observations := observations s;
     observationTokens := observationTokens s;
     currentTask := currentTask s;
     suggestedResponse := v;
     observationRuns := observationRuns s;
     reflectionRuns := reflectionRuns s;
     lastObservedAt := lastObservedAt s;
     reflections := reflections s;
     pendingSegments := pendingSegments s;
     pendingTokens := pendingTokens s;
     isBufferingObservation := isBufferingObservation s;
     isBufferingReflection := isBufferingReflection s |}.

Definition set_observationRuns (v : Z) (s : OmState) : OmState :=
  {| storageScope := storageScope s;
     observations := observations s;
     observationTokens := observationTokens s;
     currentTask := currentTask s;
     suggestedResponse := suggestedResponse s;
     observationRuns := v;
     reflectionRuns := reflectionRuns s;
     lastObservedAt := lastObservedAt s;
     reflections := reflections s;
     pendingSegments := pendingSegments s;
     pendingTokens := pendingTokens s;
     isBufferingObservation := isBufferingObservation s;
     isBufferingReflection := isBufferingReflection s |}.

Definition set_reflectionRuns (v : Z) (s : OmState) : OmState :=
  {| storageScope := storageScope s;
     observations := observations s;
     observationTokens := observationTokens s;
     currentTask := currentTask s;
     suggestedResponse := suggestedResponse s;
     observationRuns := observationRuns s;
     reflectionRuns := v;
     lastObservedAt := lastObservedAt s;
     reflections := reflections s;
     pendingSegments := pendingSegments s;
     pendingTokens := pendingTokens s;
     isBufferingObservation := isBufferingObservation s;
     isBufferingReflection := isBufferingReflection s |}.

Definition set_lastObservedAt (v : option jsstring) (s : OmState) : OmState :=
  {| storageScope := storageScope s;
     observations := observations s;
     observationTokens := observationTokens s;
     currentTask := currentTask s;
     suggestedResponse := suggestedResponse s;
     observationRuns := observationRuns s;
     reflectionRuns := reflectionRuns s;
     lastObservedAt := v;
     reflections := reflections s;
     pendingSegments := pendingSegments s;
     pendingTokens := pendingTokens s;
     isBufferingObservation := isBufferingObservation s;
     isBufferingReflection := isBufferingReflection s |}.

Definition set_reflections (v : list JsVal) (s : OmState) : OmState :=
  {| storageScope := storageScope s;
     observations := observations s;
     observationTokens := observationTokens s;
     currentTask := currentTask s;
     suggestedResponse := suggestedResponse s;
     observationRuns := observationRuns s;
     reflectionRuns := reflectionRuns s;
     lastObservedAt := lastObservedAt s;
     reflections := v;
     pendingSegments := pendingSegments s;
     pendingTokens := pendingTokens s;
     isBufferingObservation := isBufferingObservation s;
     isBufferingReflection := isBufferingReflection s |}.

Definition set_pendingSegments (v : list PendingSegment) (s : OmState) : OmState :=
  {| storageScope := storageScope s;
     observations := observations s;
     observationTokens := observationTokens s;
     currentTask := currentTask s;
     suggestedResponse := suggestedResponse s;
     observationRuns := observationRuns s;
     reflectionRuns := reflectionRuns s;
     lastObservedAt := lastObservedAt s;
     reflections := reflections s;
     pendingSegments := v;
     pendingTokens := pendingTokens s;
     isBufferingObservation := isBufferingObservation s;
     isBufferingReflection := isBufferingReflection s |}.

Definition set_pendingTokens (v : Z) (s : OmState) : OmState :=
  {| storageScope := storageScope s;
     observations := observations s;
     observationTokens := observationTokens s;
     currentTask := currentTask s;
     suggestedResponse := suggestedResponse s;
     observationRuns := observationRuns s;
     reflectionRuns := reflectionRuns s;
     lastObservedAt := lastObservedAt s;
     reflections := reflections s;
     pendingSegments := pendingSegments s;
     pendingTokens := v;
     isBufferingObservation := isBufferingObservation s;
     isBufferingReflection := isBufferingReflection s |}.

Definition set_isBufferingObservation (v : bool) (s : OmState) : OmState :=
  {| storageScope := storageScope s;
     observations := observations s;
     observationTokens := observationTokens s;
     currentTask := currentTask s;
     suggestedResponse := suggestedResponse s;
     observationRuns := observationRuns s;
     reflectionRuns := reflectionRuns s;
     lastObservedAt := lastObservedAt s;
     reflections := reflections s;
     pendingSegments := pendingSegments s;
     pendingTokens := pendingTokens s;
     isBufferingObservation := v;
     isBufferingReflection := isBufferingReflection s |}.

Definition set_isBufferingReflection (v : bool) (s : OmState) : OmState :=
  {| storageScope := storageScope s;
     observations := observations s;
     observationTokens := observationTokens s;
     currentTask := currentTask s;
     suggestedResponse := suggestedResponse s;
     observationRuns := observationRuns s;
     reflectionRuns := reflectionRuns s;
     lastObservedAt := lastObservedAt s;
     reflections := reflections s;
     pendingSegments := pendingSegments s;
     pendingTokens := pendingTokens s;
     isBufferingObservation := isBufferingObservation s;
     isBufferingReflection := v |}.

Definition createInitialState (scope : StorageScope) : OmState :=
  {| storageScope := scope;
     observations := js "";
     observationTokens := 0;
     currentTask := None;
     suggestedResponse := None;
     observationRuns := 0;
     reflectionRuns := 0;
     lastObservedAt := None;
     reflections := [];
     pendingSegments := [];
     pendingTokens := 0;
     isBufferingObservation := false;
     isBufferingReflection := false |}.

(** [text.replace(/\s+/g, " ").trim()], then the first [maxChars]
    characters and an ellipsis when longer. *)
Definition trimPreview (text : jsstring) (maxChars : nat) : jsstring :=
  let normalized := trim (replaceAll (plus ws) (fun _ => js " ") text) in
  if length normalized <=? maxChars then normalized
  else sliceTo maxChars normalized ++ [8230%N].

Definition recomputePendingCounters (state : OmState) : OmState :=
  set_pendingTokens
    (fold_left (fun sum s => (sum + tokens s)%Z) (pendingSegments state) 0%Z)
    state.

Definition buildTranscriptFromSegments (segments : list PendingSegment) : jsstring :=
  join ([NL; NL] ++ js "---" ++ [NL; NL]) (map text segments).

(* ================================================================== *)
(** ** The engine: pending buffer, Observer and Reflector runs *)

(** What the two summarization channels answer during one run. *)
Inductive CliAnswer :=
| CliThrows                       (* [callGeminiCli] rejects *)
| CliReturns (out : jsstring).    (* it resolves with the trimmed output *)

Inductive ApiAnswer :=
| ApiUnavailable                  (* [resolveCompressionModel] finds no model *)
| ApiThrows                       (* the request rejects *)
| ApiReturns (out : jsstring).    (* [extractCompletionText(response)] *)

Record Backend := {
  geminiCliAvailable : bool;
  cliAnswer : CliAnswer;
  apiAnswer : ApiAnswer
}.

(** How an awaited call settles: with a value, or by throwing. *)
Inductive CallResult :=
| CallThrew
| CallUndefined
| CallParsed (parsed : OmSections).

Inductive Outcome :=
| Returned (b : bool)
| Threw.

(** The synchronous head of an [async] operation either returns [false]
    at once, leaving the state as it is, or sets up the run and suspends. *)
Inductive Begin (T : Type) :=
| Skipped
| Started (st : OmState) (task : T).
Arguments Skipped {T}.

Record ReflectTask := {
  beforeObservations : jsstring;
  beforeTokens : Z;
  aggressive : bool;
  reason : jsstring;
  silentIfSkipped : bool
}.

Record ObserveTask := {
  transcript : jsstring;
  inputTokens : Z;              (* the local [tokens] *)
  triggerAutoReflect : bool     (* [opts.triggerAutoReflect !== false] *)
}.

(** Where [observeNow] stands after its external call settled: it has
    returned or thrown; or it awaits the nested [reflectNow], which is
    itself suspended on its external call; or it awaits a nested
    [reflectNow] that has returned at once. *)
Inductive ObserveStep :=
| ObserveDone (st : OmState) (o : Outcome)
| ObserveAwaitsReflect (st : OmState) (task : ReflectTask)
| ObserveResumes (st : OmState) (reflected : Outcome).

Section Engine.
Local Open Scope Z_scope.

(** [roughTextTokenizer(text)] without a model hint: a floating-point
    estimate over Unicode classes, taken as given. *)
Variable roughTextTokenizer : jsstring -> Z.
(** The module constant read from the environment at start-up. *)
Variable STORAGE_SCOPE : StorageScope.

(** The state changes of [persistState]; the snapshot it hands to the
    session log and the store is [stateToJson] of the result. *)
Definition persistState (state : OmState) : OmState :=
  let state := set_storageScope STORAGE_SCOPE state in
  let state := recomputePendingCounters state in
  set_observationTokens (roughTextTokenizer (observations state)) state.

(** [pushPendingSegment(segment)]; [rid] is the identifier [randomId] draws
    and [now] the current time, used when the caller gives none. *)
Definition pushPendingSegment (state : OmState)
           (segId segCreatedAt : option jsstring) (segText : jsstring)
           (segTokens : Z) (rid now : jsstring) : OmState :=
  let orElseStr (given : option jsstring) (fallback : jsstring) :=
    match given with
    | Some s => if truthy s then s else fallback
    | None => fallback
    end in
  let segment := {| id := orElseStr segId rid;
                    createdAt := orElseStr segCreatedAt now;
                    text := segText;
                    tokens := Z.max 1 segTokens |} in
  recomputePendingCounters
    (set_pendingSegments (pendingSegments state ++ [segment]) state).

(** The text the two channels of [runObserverCall] deliver: the
    command-line tool first, the hosted model when that gave nothing. *)
Inductive ChannelResult :=
| ChannelThrew                    (* the hosted-model request rejected *)
| ChannelNone                     (* no channel usable: [return undefined] *)
| ChannelText (out : jsstring).

Definition observerChannels (backend : Backend) : ChannelResult :=
  let '(text, usedGeminiCli) :=
    if geminiCliAvailable backend then
      match cliAnswer backend with
      | CliReturns out => (out, true)
      | CliThrows => (js "", false)
      end
    else (js "", false) in
  if negb (truthy text) then
    match apiAnswer backend with
    | ApiReturns out => ChannelText out
    | ApiThrows => ChannelThrew
    | ApiUnavailable => if negb usedGeminiCli then ChannelNone else ChannelText text
    end
  else ChannelText text.

(** [runObserverCall]: the channels in order, then the parse.  The
    closure variable [warnedMissingModel] only gates a notification. *)
Definition runObserverCall (state : OmState) (backend : Backend) (now : jsstring)
  : CallResult * OmState :=
  match observerChannels backend with
  | ChannelThrew => (CallThrew, state)
  | ChannelNone => (CallUndefined, state)
  | ChannelText text =>
      let parsed := parseOmSections text in
      if negb (truthy (trim (parsed_observations parsed))) then (CallUndefined, state)
      else (CallParsed parsed, set_lastObservedAt (Some now) state)
  end.

(** In [runReflectorCall] a missing hosted model leaves the text empty. *)
Definition reflectorChannels (backend : Backend) : ChannelResult :=
  let text :=
    if geminiCliAvailable backend then
      match cliAnswer backend with
      | CliReturns out => out
      | CliThrows => js ""
      end
    else js "" in
  if negb (truthy text) then
    match apiAnswer backend with
    | ApiReturns out => ChannelText out
    | ApiThrows => ChannelThrew
    | ApiUnavailable => ChannelText text
    end
  else ChannelText text.

Definition runReflectorCall (backend : Backend) : CallResult :=
  match reflectorChannels backend with
  | ChannelThrew => CallThrew
  | ChannelNone => CallUndefined
  | ChannelText text =>
      let parsed := parseOmSections text in
      if negb (truthy (trim (parsed_observations parsed))) then CallUndefined
      else CallParsed parsed
  end.

Definition shouldRunPeriodicReflection (omConfig : OmConfig) (state : OmState) : bool :=
  if negb (enableReflection omConfig) then false
  else if negb (truthy (trim (observations state))) then false
  else
    let orOne (n : Z) := if n =? 0 then 1 else n in
    let everyN := Z.max 1 (orOne (reflectEveryNObservations omConfig)) in
    let tokenThreshold := Z.max 1 (orOne (reflectWhenObservationTokensOver omConfig)) in
    let byObservationRuns :=
      (0 <? observationRuns state) && (Z.rem (observationRuns state) everyN =? 0) in
    let byTokenThreshold := tokenThreshold <=? observationTokens state in
    byObservationRuns || byTokenThreshold.

(** [reflectNow] up to [await runReflectorCall(...)]. *)
Definition reflectNow_begin (omConfig : OmConfig) (state : OmState)
           (optAggressive : bool) (optReason : jsstring) (optSilent : bool)
  : Begin ReflectTask :=
  if negb (enableReflection omConfig) then Skipped
  else if negb (truthy (trim (observations state))) then Skipped
  else if isBufferingReflection state then Skipped
  else
    let state := set_isBufferingReflection true state in
    Started state
      {| beforeObservations := observations state;
         beforeTokens := observationTokens state;
         aggressive := optAggressive;
         reason := if truthy optReason then optReason else js "manual";
         silentIfSkipped := optSilent |}.

Definition reflectionSnapshot (task : ReflectTask) (state : OmState) (now : jsstring)
  : JsVal :=
  VObj [ (js "at", VStr now);
         (js "beforeTokens", VNum (beforeTokens task));
         (js "afterTokens", VNum (observationTokens state));
         (js "preview",
          VStr (trimPreview
                  (reason task ++ (if aggressive task then js " (aggressive)" else js "")
                     ++ js ": " ++ observations state) 320)) ].

Definition updateTaskAndResponse (parsed : OmSections) (state : OmState) : OmState :=
  let state := match parsed_currentTask parsed with
               | Some t => set_currentTask (Some t) state
               | None => state
               end in
  match parsed_suggestedResponse parsed with
  | Some r => set_suggestedResponse (Some r) state
  | None => state
  end.

(** The [try] block of [reflectNow] from the point where
    [runReflectorCall] settles, on the state as it is then.  On success the
    state returned is the one [persistState] has just written out. *)
Definition reflectNow_try (omConfig : OmConfig) (state : OmState)
           (task : ReflectTask) (result : CallResult) (now : jsstring)
  : OmState * Outcome :=
  match result with
  | CallThrew => (state, Threw)
  | CallUndefined => (state, Returned false)
  | CallParsed parsed =>
      if negb (truthy (trim (parsed_observations parsed))) then
        (state, Returned false)
      else
        let state := set_observations
                       (mergeObservationItems omConfig (js "") (parsed_observations parsed))
                       state in
        let state := set_observationTokens (roughTextTokenizer (observations state)) state in
        let state := updateTaskAndResponse parsed state in
        let state := set_reflectionRuns (reflectionRuns state + 1) state in
        let state := set_reflections
                       (sliceTo 15 (reflectionSnapshot task state now :: reflections state))
                       state in
        let state := persistState state in
        (state, Returned true)
  end.

(** [reflectNow] after the [await]: the [try] block, then [finally]. *)
Definition reflectNow_finish (omConfig : OmConfig) (state : OmState)
           (task : ReflectTask) (result : CallResult) (now : jsstring)
  : OmState * Outcome :=
  let '(state, outcome) := reflectNow_try omConfig state task result now in
  (set_isBufferingReflection false state, outcome).

(** [observeNow] up to [await runObserverCall(...)]. *)
Definition observeNow_begin (state : OmState) (optTriggerAutoReflect : bool)
  : Begin ObserveTask :=
  if (length (pendingSegments state) =? 0)%nat then Skipped
  else if isBufferingObservation state then Skipped
  else
    let state := set_isBufferingObservation true state in
    Started state
      {| transcript := buildTranscriptFromSegments (pendingSegments state);
         inputTokens := pendingTokens state;
         triggerAutoReflect := optTriggerAutoReflect |}.

(** [observeNow] from the point where the channels have answered: the tail
    of [runObserverCall], the merge, the clearing of the buffer and the
    periodic reflection trigger. *)
Definition observeNow_finish (omConfig : OmConfig) (state : OmState)
           (task : ObserveTask) (backend : Backend) (now : jsstring)
  : ObserveStep :=
  let finally (state : OmState) := set_isBufferingObservation false state in
  match runObserverCall state backend now with
  | (CallThrew, state) => ObserveDone (finally state) Threw
  | (CallUndefined, state) => ObserveDone (finally state) (Returned false)
  | (CallParsed parsed, state) =>
      let state := set_observations
                     (mergeObservationItems omConfig (observations state)
                                            (parsed_observations parsed))
                     state in
      let state := set_observationTokens (roughTextTokenizer (observations state)) state in
      let state := updateTaskAndResponse parsed state in
      let state := set_observationRuns (observationRuns state + 1) state in
      let state := set_pendingSegments [] state in
      let state := recomputePendingCounters state in
      if triggerAutoReflect task && shouldRunPeriodicReflection omConfig state then
        match reflectNow_begin omConfig state false (js "auto-periodic") true with
        | Skipped => ObserveResumes state (Returned false)
        | Started state rtask => ObserveAwaitsReflect state rtask
        end
      else ObserveDone (finally state) (Returned true)
  end.

(** [observeNow] from the point where it resumes after the nested
    [reflectNow] has settled. *)
Definition observeNow_afterReflect (state : OmState) (reflected : Outcome)
  : OmState * Outcome :=
  let finally (state : OmState) := set_isBufferingObservation false state in
  match reflected with
  | Returned _ => (finally state, Returned true)
  | Threw => (finally state, Threw)
  end.

(** The [turn_end] handler up to its first suspension: the segment of the
    turn is appended and the auto-observe policy decides.  [None]: no run
    was started and the handler ran to its end. *)
Definition turn_end_begin (omConfig : OmConfig) (state : OmState)
           (segText : jsstring) (turnTokenEstimate : Z) (rid now : jsstring)
  : OmState * option ObserveTask :=
  let state := pushPendingSegment state None None segText turnTokenEstimate rid now in
  let threshold := autoObservePendingTokenThreshold omConfig in
  if (0 <? threshold) && (threshold <=? pendingTokens state)
     && (0 <? length (pendingSegments state))%nat then
    match observeNow_begin state true with
    | Started state task => (state, Some task)
    | Skipped => (persistState state, None)
    end
  else (persistState state, None).

(** The rest of the [turn_end] handler, once [observeNow] has returned. *)
Definition turn_end_finish (state : OmState) : OmState := persistState state.

(** The [session_before_compact] handler up to its first suspension, for
    a non-empty batch of messages serialized as [batch]. *)
Definition before_compact_begin (state : OmState) (batch : jsstring)
           (rid now : jsstring) : OmState * option ObserveTask :=
  let state := pushPendingSegment state (Some rid) None
                 (js "[Compaction Event]" ++ [NL] ++ batch)
                 (roughTextTokenizer batch) rid now in
  match observeNow_begin state false with
  | Started state task => (state, Some task)
  | Skipped => (state, None)
  end.

End Engine.

(* ================================================================== *)
(** ** Retrieval: core and relevant observations *)

Definition STOPWORDS : list jsstring :=
  map js [ "the"; "a"; "an"; "to"; "for"; "of"; "and"; "or"; "in"; "on"; "with"; "by";
           "is"; "are"; "was"; "were"; "be"; "been"; "it"; "that"; "this"; "as"; "from"; "at";
           "user"; "assistant"; "agent"; "tool"; "task" ]%string.

(** [set.has(x)] on a set of strings kept as the list of its elements in
    insertion order. *)
Definition has (set : list jsstring) (x : jsstring) : bool :=
  existsb (jseq x) set.

(** [new Set(words)] *)
Definition newSet (words : list jsstring) : list jsstring :=
  fold_left (fun set w => if has set w then set else set ++ [w]) words [].

(** [items.sort(compare)]: the sort is stable, an item goes after the
    items it does not have to precede. *)
Fixpoint insertSorted (A : Type) (compare : A -> A -> Z) (x : A) (sorted : list A) : list A :=
  match sorted with
  | [] => [x]
  | y :: r => if (compare x y <? 0)%Z then x :: sorted
              else y :: insertSorted compare x r
  end.

Definition sortBy (A : Type) (compare : A -> A -> Z) (items : list A) : list A :=
  fold_left (fun sorted x => insertSorted compare x sorted) items [].

Fixpoint mapIndexed (A B : Type) (f : A -> nat -> B) (i : nat) (xs : list A) : list B :=
  match xs with
  | [] => []
  | x :: r => f x i :: mapIndexed f (S i) r
  end.

Definition messageTextForRelevance (msg : JsVal) : jsstring :=
  if negb (truthyVal msg) then js ""
  else
    match getField msg "content" with
    | VStr content => content
    | VArr content =>
        trim (join [NL]
                (map (fun c =>
                        match getField c "type" with
                        | VStr t =>
                            if jseq t (js "text") then
                              (if truthyVal (getField c "text")
                               then joinItem (getField c "text") else js "")
                            else js ""
                        | _ => js ""
                        end) content))
    | _ => js ""
    end.

Record Ranked := {
  line : jsstring;
  index : nat;
  score : Z
}.

Section Retrieval.
Local Open Scope Z_scope.

Variable roughTextTokenizer : jsstring -> Z.
(** [s.toLowerCase()] and the Unicode classes [\p{L}], [\p{N}] of the
    runtime. *)
Variable toLowerCase : jsstring -> jsstring.
Variable isLetterOrNumber : N -> bool.

(** [/[^\p{L}\p{N}_-]+/u] *)
Definition keywordSeparator : re :=
  plus (ClsU (fun cp => negb (isLetterOrNumber cp || (cp =? 95)%N || (cp =? 45)%N))).

Definition keywordSet (text : jsstring) : list jsstring :=
  let words :=
    filter (fun w => (3 <=? length w)%nat && negb (has STOPWORDS w))
           (map trim (splitU keywordSeparator (toLowerCase text))) in
  newSet words.

(** The loop of [trimLinesToTokenBudget], with [out] and [used] as they
    stand before the remaining [lines]. *)
Fixpoint trimLinesLoop (maxTokens : Z) (lines out : list jsstring) (used : Z)
  : list jsstring :=
  match lines with
  | [] => out
  | l :: rest =>
      let t := roughTextTokenizer l in
      if (0 <? length out)%nat && (maxTokens <? used + t) then out
      else trimLinesLoop maxTokens rest (out ++ [l]) (used + t)
  end.

Definition trimLinesToTokenBudget (lines : list jsstring) (maxTokens : Z)
  : list jsstring :=
  trimLinesLoop maxTokens lines [] 0.

(** The loop that fills [relevantRaw], skipping lines already selected. *)
Fixpoint pickRelevant (maxItems : Z) (ranked : list Ranked)
         (unique relevantRaw : list jsstring) : list jsstring :=
  match ranked with
  | [] => relevantRaw
  | item :: rest =>
      if has unique (line item) then pickRelevant maxItems rest unique relevantRaw
      else
        let relevantRaw := relevantRaw ++ [line item] in
        let unique := unique ++ [line item] in
        if maxItems <=? Z.of_nat (length relevantRaw) then relevantRaw
        else pickRelevant maxItems rest unique relevantRaw
  end.

Definition queryKeys (recentMessages : list JsVal) : list jsstring :=
  let queryText :=
    join [NL] (filter truthy (map messageTextForRelevance (sliceFrom (-6) recentMessages))) in
  keywordSet queryText.

Definition rankLines (keys : list jsstring) (allLines : list jsstring) : list Ranked :=
  let ranked :=
    mapIndexed (fun l i =>
      let score :=
        if (0 <? length keys)%nat then
          fold_left (fun score key =>
                       if includes key (toLowerCase l) then score + 1 else score)
                    keys 0
        else 0 in
      {| line := l; index := i; score := score |}) 0%nat allLines in
  if (0 <? length keys)%nat then
    sortBy (fun a b =>
              if score b - score a =? 0
              then Z.of_nat (index b) - Z.of_nat (index a)
              else score b - score a)
           (filter (fun r => 0 <? score r) ranked)
  else
    sortBy (fun a b => Z.of_nat (index b) - Z.of_nat (index a)) ranked.

(** The [relevantRaw] list of [buildCoreAndRelevantObservations]. *)
Definition relevantCandidates (omConfig : OmConfig) (core allLines : list jsstring)
           (recentMessages : list JsVal) : list jsstring :=
  pickRelevant (relevantObservationMaxItems omConfig)
               (rankLines (queryKeys recentMessages) allLines)
               (newSet core) [].

Definition buildCoreAndRelevantObservations (omConfig : OmConfig) (state : OmState)
           (recentMessages : list JsVal) : list jsstring * list jsstring :=
  let allLines := observationLines (observations state) in
  match allLines with
  | [] => ([], [])
  | _ =>
      let reversed := rev allLines in
      let coreReversed := trimLinesToTokenBudget reversed (coreMemoryMaxTokens omConfig) in
      let core := rev coreReversed in
      let relevantRaw := relevantCandidates omConfig core allLines recentMessages in
      let relevant := trimLinesToTokenBudget relevantRaw
                                             (relevantObservationMaxTokens omConfig) in
      (core, relevant)
  end.

End Retrieval.

(* ================================================================== *)
(** ** State store: snapshots and recovery *)

Definition scopeName (scope : StorageScope) : jsstring :=
  match scope with
  | ScopeThread => js "thread"
  | ScopeResource => js "resource"
  end.

Definition segmentToJson (s : PendingSegment) : JsVal :=
  VObj [ (js "id", VStr (id s));
         (js "createdAt", VStr (createdAt s));
         (js "text", VStr (text s));
         (js "tokens", VNum (tokens s)) ].

Definition optionalField (name : string) (v : option jsstring)
  : list (jsstring * JsVal) :=
  match v with
  | Some s => [(js name, VStr s)]
  | None => []
  end.

(** The value that reading back a persisted state yields
    ([JSON.parse(JSON.stringify(state))]): absent optional fields are not
    written. *)
Definition stateToJson (state : OmState) : JsVal :=
  VObj ([ (js "version", VNum 2);
          (js "storageScope", VStr (scopeName (storageScope state)));
          (js "observations", VStr (observations state));
          (js "observationTokens", VNum (observationTokens state)) ]
        ++ optionalField "currentTask" (currentTask state)
        ++ optionalField "suggestedResponse" (suggestedResponse state)
        ++ [ (js "observationRuns", VNum (observationRuns state));
             (js "reflectionRuns", VNum (reflectionRuns state)) ]
        ++ optionalField "lastObservedAt" (lastObservedAt state)
        ++ [ (js "reflections", VArr (reflections state));
             (js "pendingSegments", VArr (map segmentToJson (pendingSegments state)));
             (js "pendingTokens", VNum (pendingTokens state));
             (js "isBufferingObservation", VBool (isBufferingObservation state));
             (js "isBufferingReflection", VBool (isBufferingReflection state)) ]).

Section Store.

Variable STORAGE_SCOPE : StorageScope.
(** The identifier [randomId("seg")] draws and the time [new Date()] reads
    while the segment at a given index is rebuilt. *)
Variable randomIdAt : nat -> jsstring.
Variable nowAt : nat -> jsstring.

Definition stringOr (v : JsVal) (fallback : jsstring) : jsstring :=
  match v with VStr s => s | _ => fallback end.

Definition stringOrUndefined (v : JsVal) : option jsstring :=
  match v with VStr s => Some s | _ => None end.

(** [Number.isFinite(v) ? Number(v) : 0] *)
Definition finiteOrZero (v : JsVal) : Z :=
  match v with VNum z => z | _ => 0%Z end.

Definition coerceSegment (s : JsVal) (i : nat) : PendingSegment :=
  {| id := stringOr (getField s "id") (randomIdAt i);
     createdAt := stringOr (getField s "createdAt") (nowAt i);
     text := stringOr (getField s "text") (js "");
     tokens := finiteOrZero (getField s "tokens") |}.

Definition coerceState (raw : JsVal) : OmState :=
  match raw with
  | VArr _ | VObj _ =>
      {| storageScope :=
           match getField raw "storageScope" with
           | VStr s => if jseq s (js "resource") then ScopeResource else ScopeThread
           | _ => ScopeThread
           end;
         observations := stringOr (getField raw "observations") (js "");
         observationTokens := finiteOrZero (getField raw "observationTokens");
         currentTask := stringOrUndefined (getField raw "currentTask");
         suggestedResponse := stringOrUndefined (getField raw "suggestedResponse");
         observationRuns := finiteOrZero (getField raw "observationRuns");
         reflectionRuns := finiteOrZero (getField raw "reflectionRuns");
         lastObservedAt := stringOrUndefined (getField raw "lastObservedAt");
         reflections :=
           match getField raw "reflections" with
           | VArr items => sliceTo 15 items
           | _ => []
           end;
         pendingSegments :=
           match getField raw "pendingSegments" with
           | VArr items => mapIndexed coerceSegment 0 items
           | _ => []
           end;
         pendingTokens := 0;
         isBufferingObservation := false;
         isBufferingReflection := false |}
  | _ => createInitialState STORAGE_SCOPE
  end.

(** [loadState]: [sqliteRow] is the parsed [state_json] of the active
    scope when the store is enabled and has a readable row; [branch] lists
    the payloads of the state entries of the session branch, oldest first. *)
Definition loadState (sqliteRow : option JsVal) (branch : list JsVal) : OmState :=
  let loaded := option_map coerceState sqliteRow in
  let loaded :=
    match loaded with
    | Some _ => loaded
    | None => fold_left (fun _ data => Some (coerceState data)) branch None
    end in
  let state :=
    match loaded with
    | Some s => s
    | None => createInitialState STORAGE_SCOPE
    end in
  recomputePendingCounters state.

End Store.

(* ================================================================== *)
(** ** The engine as a transition system

    The handlers are sequences of the operations above with suspension
    points in between, and the host may deliver another event at every
    suspension point.  A system state therefore holds, next to the shared
    document and configuration, the runs that are suspended at an [await]
    and every snapshot that has been written out.  The steps are the
    operations themselves, in any order: every schedule of the handlers is
    a sequence of these steps. *)

Record System := {
  sys_state : OmState;
  sys_config : OmConfig;
  observing : list ObserveTask;        (* [observeNow] awaiting its channels *)
  observingReflect : list ReflectTask; (* [reflectNow] awaited inside [observeNow] *)
  observingResume : list Outcome;      (* [observeNow] about to resume after it *)
  reflecting : list ReflectTask;       (* [reflectNow] called by a handler *)
  snapshots : list JsVal               (* what [persistState] has written *)
}.



Section Transitions.

Variable roughTextTokenizer : jsstring -> Z.
Variable STORAGE_SCOPE : StorageScope.

Definition initialSystem : System :=
  {| sys_state := createInitialState STORAGE_SCOPE;
     sys_config := DEFAULT_OM_CONFIG;
     observing := []; observingReflect := []; observingResume := [];
     reflecting := []; snapshots := [] |}.

(** The snapshot a finished [reflectNow] has written, if it got that far. *)
Definition reflectSnapshot (written : OmState * Outcome) : list JsVal :=
  match written with
  | (state, Returned true) => [stateToJson state]
  | _ => []
  end.

(** Steps of the runs and of the pending buffer on one document. *)
Inductive run_step : System -> System -> Prop :=
| step_push : forall s segId segCreatedAt segText segTokens rid now,
    run_step s
      {| sys_state := pushPendingSegment (sys_state s) segId segCreatedAt segText
                                         segTokens rid now;
         sys_config := sys_config s;
         observing := observing s; observingReflect := observingReflect s;
         observingResume := observingResume s;
         reflecting := reflecting s; snapshots := snapshots s |}
| step_persist : forall s,
    let state := persistState roughTextTokenizer STORAGE_SCOPE (sys_state s) in
    run_step s
      {| sys_state := state;
         sys_config := sys_config s;
         observing := observing s; observingReflect := observingReflect s;
         observingResume := observingResume s;
         reflecting := reflecting s; snapshots := stateToJson state :: snapshots s |}
| step_config : forall s raw,
    run_step s
      {| sys_state := sys_state s;
         sys_config := normalizeOmConfig raw;
         observing := observing s; observingReflect := observingReflect s;
         observingResume := observingResume s;
         reflecting := reflecting s; snapshots := snapshots s |}
| step_observe_begin : forall s opt state task,
    observeNow_begin (sys_state s) opt = Started state task ->
    run_step s
      {| sys_state := state;
         sys_config := sys_config s;
         observing := task :: observing s; observingReflect := observingReflect s;
         observingResume := observingResume s;
         reflecting := reflecting s; snapshots := snapshots s |}
| step_observe_done : forall s before task after backend now state outcome,
    observing s = before ++ task :: after ->
    observeNow_finish roughTextTokenizer (sys_config s) (sys_state s) task backend now
      = ObserveDone state outcome ->
    run_step s
      {| sys_state := state;
         sys_config := sys_config s;
         observing := before ++ after; observingReflect := observingReflect s;
         observingResume := observingResume s;
         reflecting := reflecting s; snapshots := snapshots s |}
| step_observe_reflects : forall s before task after backend now state rtask,
    observing s = before ++ task :: after ->
    observeNow_finish roughTextTokenizer (sys_config s) (sys_state s) task backend now
      = ObserveAwaitsReflect state rtask ->
    run_step s
      {| sys_state := state;
         sys_config := sys_config s;
         observing := before ++ after; observingReflect := rtask :: observingReflect s;
         observingResume := observingResume s;
         reflecting := reflecting s; snapshots := snapshots s |}
| step_observe_resumes : forall s before task after backend now state reflected,
    observing s = before ++ task :: after ->
    observeNow_finish roughTextTokenizer (sys_config s) (sys_state s) task backend now
      = ObserveResumes state reflected ->
    run_step s
      {| sys_state := state;
         sys_config := sys_config s;
         observing := before ++ after; observingReflect := observingReflect s;
         observingResume := reflected :: observingResume s;
         reflecting := reflecting s; snapshots := snapshots s |}
| step_observe_reflected : forall s before rtask after result now,
    observingReflect s = before ++ rtask :: after ->
    let written := reflectNow_try roughTextTokenizer STORAGE_SCOPE (sys_config s)
                                  (sys_state s) rtask result now in
    let reflected := reflectNow_finish roughTextTokenizer STORAGE_SCOPE (sys_config s)
                                       (sys_state s) rtask result now in
    run_step s
      {| sys_state := fst reflected;
         sys_config := sys_config s;
         observing := observing s; observingReflect := before ++ after;
         observingResume := snd reflected :: observingResume s;
         reflecting := reflecting s;
         snapshots := reflectSnapshot written ++ snapshots s |}
| step_observe_resumed : forall s before reflected after,
    observingResume s = before ++ reflected :: after ->
    run_step s
      {| sys_state := fst (observeNow_afterReflect (sys_state s) reflected);
         sys_config := sys_config s;
         observing := observing s; observingReflect := observingReflect s;
         observingResume := before ++ after;
         reflecting := reflecting s; snapshots := snapshots s |}
| step_reflect_begin : forall s optAggressive optReason optSilent state rtask,
    reflectNow_begin (sys_config s) (sys_state s) optAggressive optReason optSilent
      = Started state rtask ->
    run_step s
      {| sys_state := state;
         sys_config := sys_config s;
         observing := observing s; observingReflect := observingReflect s;
         observingResume := observingResume s;
         reflecting := rtask :: reflecting s; snapshots := snapshots s |}
| step_reflect_done : forall s before rtask after result now,
    reflecting s = before ++ rtask :: after ->
    let written := reflectNow_try roughTextTokenizer STORAGE_SCOPE (sys_config s)
                                  (sys_state s) rtask result now in
    run_step s
      {| sys_state := fst (reflectNow_finish roughTextTokenizer STORAGE_SCOPE
                             (sys_config s) (sys_state s) rtask result now);
         sys_config := sys_config s;
         observing := observing s; observingReflect := observingReflect s;
         observingResume := observingResume s;
         reflecting := before ++ after;
         snapshots := reflectSnapshot written ++ snapshots s |}.

(** Steps that replace the document: a session (re)load from what has been
    written out, and the reset command. *)
Inductive store_step : System -> System -> Prop :=
| step_load : forall s randomIdAt nowAt sqliteRow branch,
    (forall v, sqliteRow = Some v -> In v (snapshots s)) ->
    (forall v, In v branch -> In v (snapshots s)) ->
    store_step s
      {| sys_state := loadState STORAGE_SCOPE randomIdAt nowAt sqliteRow branch;
         sys_config := sys_config s;
         observing := observing s; observingReflect := observingReflect s;
         observingResume := observingResume s;
         reflecting := reflecting s; snapshots := snapshots s |}
| step_clear : forall s,
    let state := persistState roughTextTokenizer STORAGE_SCOPE
                              (createInitialState STORAGE_SCOPE) in
    store_step s
      {| sys_state := state;
         sys_config := sys_config s;
         observing := observing s; observingReflect := observingReflect s;
         observingResume := observingResume s;
         reflecting := reflecting s; snapshots := stateToJson state :: snapshots s |}.

(** The states one document goes through while runs and appends
    interleave. *)
Inductive runs_to : System -> System -> Prop :=
| runs_refl : forall s, runs_to s s
| runs_step : forall s s' s'', runs_to s s' -> run_step s' s'' -> runs_to s s''.

(** Every state of the extension: runs, appends, reloads and resets from
    the initial state. *)
Inductive reachable : System -> Prop :=
| reach_init : reachable initialSystem
| reach_run : forall s s', reachable s -> run_step s s' -> reachable s'
| reach_store : forall s s', reachable s -> store_step s s' -> reachable s'.

End Transitions.

(* ================================================================== *)
(** ** Patterns given by their matcher

    The search, the [g]-flag loop and [replace] for a pattern that is
    given as the function from a start state to the end state of its
    match.  For a pattern [r] of the syntax above that function is
    [fun x => matcher r x Some]; the pattern of
    [optimizeObservationsForContext] with a negative lookahead is written
    as such a function. *)

Fixpoint searchBy (m : mstate -> option mstate) (bef : list jschar) (p : nat)
         (aft : list jschar) : option (mstate * mstate) :=
  let x := {| before := bef; after := aft; pos := p; caps := [] |} in
  match m x with
  | Some y => Some (x, y)
  | None => match aft with
            | [] => None
            | c :: rest => searchBy m (c :: bef) (S p) rest
            end
  end.

Fixpoint matchAllFromBy (m : mstate -> option mstate) (fuel : nat)
         (bef : list jschar) (p : nat) (aft : list jschar)
  : list (mstate * mstate) :=
  match fuel with
  | 0 => []
  | S fuel' =>
      match searchBy m bef p aft with
      | None => []
      | Some (x, y) =>
          (x, y) ::
          (if Nat.eqb (pos y) (pos x) then
             match after y with
             | [] => []
             | c :: rest => matchAllFromBy m fuel' (c :: before y) (S (pos y)) rest
             end
           else matchAllFromBy m fuel' (before y) (pos y) (after y))
      end
  end.

Definition replaceAllBy (m : mstate -> option mstate)
           (f : mstate * mstate -> jsstring) (text : jsstring) : jsstring :=
  spliceMatches f 0 text (matchAllFromBy m (S (length text)) [] 0 text).

(* ================================================================== *)
(** ** Configuration files and scope keys *)



(** What [loadOmConfig] finds at one of its candidate paths: no file; a
    file that cannot be read or is not JSON; or a file with a JSON value. *)
Inductive ConfigFile :=
| FileAbsent
| FileUnreadable
| FileJson (raw : JsVal).

Inductive ConfigPath := ProjectConfigPath | GlobalConfigPath.

(** The loop of [loadOmConfig] over its candidates. *)
Fixpoint loadOmConfigFrom (candidates : list (ConfigPath * ConfigFile))
  : OmConfig * option ConfigPath :=
  match candidates with
  | [] => (DEFAULT_OM_CONFIG, None)
  | (path, file) :: rest =>
      match file with
      | FileAbsent => loadOmConfigFrom rest
      | FileJson raw => (normalizeOmConfig raw, Some path)
      | FileUnreadable => (DEFAULT_OM_CONFIG, Some path)
      end
  end.

Definition loadOmConfig (projectFile globalFile : ConfigFile)
  : OmConfig * option ConfigPath :=
  loadOmConfigFrom [(ProjectConfigPath, projectFile); (GlobalConfigPath, globalFile)].

(** [resolveScopeKey]: [cwd] is [ctx.cwd], [sessionFile] and [sessionId]
    what the session manager returns. *)
Definition resolveScopeKey (STORAGE_SCOPE : StorageScope) (cwd : jsstring)
           (sessionFile sessionId : option jsstring) : jsstring :=
  let given (v : option jsstring) :=
    match v with Some s => nonEmpty s | None => None end in
  match STORAGE_SCOPE with
  | ScopeResource => js "resource:" ++ cwd
  | ScopeThread =>
      match given sessionFile with
      | Some file => js "thread:" ++ file
      | None =>
          match given sessionId with
          | Some sid => js "thread:" ++ sid
          | None => js "thread:" ++ cwd
          end
      end
  end.

(* ================================================================== *)
(** ** Rendering the memory for the model *)

Definition OM_MARKER : jsstring := js "<pi-observational-memory>".


(** The sentence that introduces the observations block. *)
Definition OBSERVATION_CONTEXT_PROMPT : jsstring :=
  join [NL]
    [ (js "The following observations block contains your memory of "
       ++ js "past conversations in this coding session.") ].

(** The instructions that follow the observations block. *)
Definition OBSERVATION_CONTEXT_INSTRUCTIONS : jsstring :=
  join [NL]
    [ (js "IMPORTANT: When responding, reference specific details from "
       ++ js "these observations. Do not give generic advice - "
       ++ js "personalize your response based on what you know about the "
       ++ js "user's project, decisions, and progress. If the user asks "
       ++ js "about prior work, connect it to specific observations above.");
      [];
      (js "KNOWLEDGE UPDATES: When asked about current state (e.g., "
       ++ [34%N]
       ++ js "where did we leave off?"
       ++ [34%N]
       ++ js ", "
       ++ [34%N]
       ++ js "what's the current status?"
       ++ [34%N]
       ++ js "), always prefer the MOST RECENT information. Observations "
       ++ js "include dates - if you see conflicting information, the "
       ++ js "newer observation supersedes the older one. Look for "
       ++ js "phrases like "
       ++ [34%N]
       ++ js "will start"
       ++ [34%N]
       ++ js ", "
       ++ [34%N]
       ++ js "is switching"
       ++ [34%N]
       ++ js ", "
       ++ [34%N]
       ++ js "changed to"
       ++ [34%N]
       ++ js ", "
       ++ [34%N]
       ++ js "moved to"
       ++ [34%N]
       ++ js " as indicators that previous information has been updated.");
      [];
      (js "PLANNED ACTIONS: If the user or agent stated they planned "
       ++ js "to do something (e.g., "
       ++ [34%N]
       ++ js "will implement..."
       ++ [34%N]
       ++ js ", "
       ++ [34%N]
       ++ js "next step is..."
       ++ [34%N]
       ++ js ") and the date they planned to do it is now in the past, "
       ++ js "assume they completed the action unless there's evidence "
       ++ js "they didn't.") ].

(** [/\[(?![\d\s]*items collapsed)[^\]]+\]/]: the negative lookahead is
    tried where the opening bracket has just been matched; when the text
    there reads as a collapsed-items marker the match fails, otherwise it
    goes on from the same place. *)
Definition semanticTagMatcher (x : mstate) : option mstate :=
  matcher (lit "[") x (fun y =>
    match matcher (cat [star (Cls (fun c => isDigit c || isJsSpace c));
                        lit "items collapsed"]) y Some with
    | Some _ => None
    | None => matcher (cat [plus (Cls (fun c => negb (c =? 93)%N)); lit "]"]) y Some
    end).

(** The two emoji are the surrogate pairs D83D DFE1 and D83D DFE2. *)
Definition optimizeObservationsForContext (observations : jsstring) : jsstring :=
  let optimized := observations in
  let optimized := replaceAll (cat [chr 55357%N; chr 57313%N; star ws])
                              (fun _ => js "") optimized in
  let optimized := replaceAll (cat [chr 55357%N; chr 57314%N; star ws])
                              (fun _ => js "") optimized in
  let optimized := replaceAllBy semanticTagMatcher (fun _ => js "") optimized in
  let optimized := replaceAll (cat [chr 32%N; plus (chr 32%N)]) (fun _ => js " ") optimized in
  let optimized := replaceAll (Rep true 3 None (chr NL)) (fun _ => [NL; NL]) optimized in
  trim optimized.

(** [if (value?.trim()) blocks.push(open, value.trim(), close, "")] *)
Definition pushOptionalBlock (blocks : list jsstring) (opening closing : string)
           (value : option jsstring) : list jsstring :=
  match value with
  | Some v => if truthy (trim v)
              then blocks ++ [js opening; trim v; js closing; js ""]
              else blocks
  | None => blocks
  end.

Section Rendering.
Local Open Scope Z_scope.

Variable dateParse : jsstring -> option Z.
Variable roughTextTokenizer : jsstring -> Z.
Variable toLowerCase : jsstring -> jsstring.
Variable isLetterOrNumber : N -> bool.

(** [currentDate] is the time [new Date()] reads. *)
Definition formatObservationalMemoryMessage (state : OmState) (currentDate : Z)
  : jsstring :=
  let optimized := optimizeObservationsForContext (trim (observations state)) in
  let optimized :=
    if truthy optimized
    then addRelativeTimeToObservations dateParse optimized currentDate
    else optimized in
  let blocks := [OM_MARKER; js ""] in
  let blocks :=
    if truthy optimized then
      blocks ++ [OBSERVATION_CONTEXT_PROMPT; js ""; js "<observations>"; optimized;
                 js "</observations>"; js ""; OBSERVATION_CONTEXT_INSTRUCTIONS; js ""]
    else blocks in
  let blocks := pushOptionalBlock blocks "<current-task>" "</current-task>"
                                  (currentTask state) in
  let blocks := pushOptionalBlock blocks "<suggested-response>" "</suggested-response>"
                                  (suggestedResponse state) in
  join [NL] blocks.


End Rendering.

(* ================================================================== *)
(** ** The context hook: recent turns and the injected memory *)

(** [v === "literal"] *)
Definition isString (v : JsVal) (literal : jsstring) : bool :=
  match v with
  | VStr s => jseq s literal
  | _ => false
  end.

Definition isTurnBoundary (msg : JsVal) : bool :=
  let role := getField msg "role" in
  isString role (js "user") || isString role (js "custom")
  || isString role (js "branchSummary") || isString role (js "compactionSummary")
  || isString role (js "bashExecution").

(** [while (start > 0 && !isTurnBoundary(messages[start])) start -= 1] *)
Fixpoint turnBoundaryLoop (messages : list JsVal) (start : nat) : nat :=
  match start with
  | 0 => 0
  | S start' =>
      if isTurnBoundary (nth start messages VUndef) then start
      else turnBoundaryLoop messages start'
  end.

Section ContextHook.
Local Open Scope Z_scope.

Variable dateParse : jsstring -> option Z.
Variable roughTextTokenizer : jsstring -> Z.
(** [roughTextTokenizer(text, modelHint)], the hint first. *)
Variable roughTextTokenizerWith : jsstring -> jsstring -> Z.
Variable toLowerCase : jsstring -> jsstring.
Variable isLetterOrNumber : N -> bool.
(** [JSON.stringify] of the host, on values other than [undefined]. *)
Variable jsonStringify : JsVal -> jsstring.

(** The estimate the budget loop takes for one message.
    [JSON.stringify(undefined)] is [undefined], which [roughTextTokenizer]
    counts as 0. *)
Definition messageTokens (modelHint : jsstring) (msg : JsVal) : Z :=
  match getField msg "content" with
  | VStr content => roughTextTokenizerWith modelHint content
  | VUndef => 0
  | content => roughTextTokenizerWith modelHint (jsonStringify content)
  end.

(** The [for] loop of [selectRecentTurnsByTokenBudget] at index [i], with
    [revMessages] the messages [messages[0..i]], last first, and [len] the
    number of all messages. *)
Fixpoint budgetLoop (modelHint : jsstring) (budgetTokens : Z) (len : nat)
         (revMessages : list JsVal) (start : nat) (used : Z) : nat :=
  match revMessages with
  | [] => start
  | msg :: earlier =>
      let i := length earlier in
      let tokens := messageTokens modelHint msg in
      if (budgetTokens <? used + tokens) && (start <? len)%nat then start
      else budgetLoop modelHint budgetTokens len earlier i (used + tokens)
  end.

Definition selectRecentTurnsByTokenBudget (messages : list JsVal) (budgetTokens : Z)
           (modelHint : jsstring) : list JsVal :=
  match messages with
  | [] => []
  | _ =>
      let start := budgetLoop modelHint budgetTokens (length messages) (rev messages)
                              (length messages) 0 in
      let start := turnBoundaryLoop messages start in
      skipn start messages
  end.






End ContextHook.

(* ================================================================== *)
(** ** Vocabulary of the statements *)

(** A string is trimmed when neither end is white space. *)
Definition trimmed (s : jsstring) : Prop :=
  match s with [] => True | c :: _ => isJsSpace c = false end
  /\ match rev s with [] => True | c :: _ => isJsSpace c = false end.

(** A line as [observationLines] delivers it. *)
Definition cleanLine (l : jsstring) : Prop :=
  l <> [] /\ trimmed l /\ ~ In NL l.

(** The sum [recomputePendingCounters] stores. *)
Definition totalTokens (segments : list PendingSegment) : Z :=
  fold_left (fun sum s => (sum + tokens s)%Z) segments 0%Z.



(** *** Concrete inputs *)

(** A configuration file that sets only [maxObservationItems]. *)
Definition capConfig (n : Z) : JsVal := VObj [(js "maxObservationItems", VNum n)].

(** The character estimate alone, as a tokenizer for concrete cases. *)
Definition sampleTokenizer (s : jsstring) : Z :=
  ((Z.of_nat (length s) + 3) / 4)%Z.

(** A backend whose command-line channel answers [out]. *)
Definition cliBackend (out : jsstring) : Backend :=
  {| geminiCliAvailable := true; cliAnswer := CliReturns out;
     apiAnswer := ApiUnavailable |}.

(** A document with one pending segment of the given text and tokens. *)
Definition oneSegmentState (segText : jsstring) (segTokens : Z) : OmState :=
  pushPendingSegment (createInitialState ScopeThread) None None segText segTokens
                     (js "seg_1") (js "t0").

(** A model answer with one observation. *)
Definition observedOutput : jsstring :=
  js "<observations>" ++ [NL] ++ js "* saw turn 1" ++ [NL] ++ js "</observations>".

(** Every pending segment counts at least one token and the cached total
    is the sum over the segments. *)
Definition bufferOk (state : OmState) : Prop :=
  Forall (fun seg => (1 <= tokens seg)%Z) (pendingSegments state)
  /\ pendingTokens state = totalTokens (pendingSegments state).

(** A snapshot of a state whose segments each count at least one token. *)
Definition goodSnapshot (v : JsVal) : Prop :=
  exists state, v = stateToJson state
                /\ Forall (fun seg => (1 <= tokens seg)%Z) (pendingSegments state).

Definition systemOk (s : System) : Prop :=
  bufferOk (sys_state s) /\ Forall goodSnapshot (snapshots s).

(** The cumulative estimate [used] over a list of lines. *)
Definition tokenSum (roughTextTokenizer : jsstring -> Z) (lines : list jsstring) : Z :=
  fold_right (fun l used => (roughTextTokenizer l + used)%Z) 0%Z lines.

(** ASCII stand-ins for the Unicode tables of the runtime. *)
Definition asciiLetterOrNumber (cp : N) : bool := isUpper cp || isLower cp || isDigit cp.

(** *** A sample host date parser: [Mon D, YYYY] read as midnight UTC *)

Definition decimalValue (digits : jsstring) : Z :=
  fold_left (fun acc c => (acc * 10 + (Z.of_N c - 48))%Z) digits 0%Z.

Definition monthNumber (name : jsstring) : option Z :=
  let key := asciiLower (firstn 3 name) in
  let fix find (names : list string) (n : Z) : option Z :=
    match names with
    | [] => None
    | m :: rest => if jseq key (js m) then Some n else find rest (n + 1)%Z
    end in
  find ["jan"; "feb"; "mar"; "apr"; "may"; "jun";
        "jul"; "aug"; "sep"; "oct"; "nov"; "dec"]%string 1%Z.

(** Days from 1970-01-01 to the given day of the proleptic Gregorian
    calendar. *)
Definition daysFromCivil (y m d : Z) : Z :=
  (let y' := if m <=? 2 then y - 1 else y in
   let era := y' / 400 in
   let yoe := y' - era * 400 in
   let mp := (m + 9) mod 12 in
   let doy := (153 * mp + 2) / 5 + d - 1 in
   let doe := yoe * 365 + yoe / 4 - yoe / 100 + doy in
   era * 146097 + doe - 719468)%Z.

Definition utcDateParse (text : jsstring) : option Z :=
  match exec (cat [Bol false; Grp 1 (cat [upper; plus lower]); lit " ";
                   Grp 2 (times 1 2 digit); lit ", "; Grp 3 (times 4 4 digit);
                   Eol false]) text with
  | Some m =>
      match monthNumber (capture 1 m) with
      | Some month =>
          Some (daysFromCivil (decimalValue (capture 3 m)) month
                              (decimalValue (capture 2 m)) * msPerDay)%Z
      | None => None
      end
  | None => None
  end.

(** The two header texts of the temporal cases. *)
Definition header12 : jsstring := js "Date: Feb 12, 2026".
Definition header2then12 : jsstring :=
  js "Date: Feb 2, 2026" ++ [NL] ++ js "Date: Feb 12, 2026".

(** *** Matches as parts of the input *)

(** State [y] is state [x] moved forward over the characters [s]. *)
Definition ext (x y : mstate) : Prop :=
  exists s, after x = s ++ after y /\ before y = rev s ++ before x
            /\ pos y = pos x + length s.

(** A matcher that only moves forward, over at least [n] characters. *)
Definition forward (n : nat) (m : mstate -> option mstate) : Prop :=
  forall x y, m x = Some y -> ext x y /\ pos x + n <= pos y.

(** A state that splits [text] at its index. *)
Definition placed (text : jsstring) (x : mstate) : Prop :=
  rev (before x) ++ after x = text /\ pos x = length (before x).

(** Successive matches in [text] from index [cur] on, each at least [n]
    characters long. *)
Inductive chain (text : jsstring) (n : nat) : nat -> list (mstate * mstate) -> Prop :=
| chain_nil : forall cur, chain text n cur []
| chain_cons : forall cur x y rest,
    placed text x -> placed text y -> cur <= pos x -> pos x + n <= pos y ->
    chain text n (pos y) rest -> chain text n cur ((x, y) :: rest).

(** The least number of characters a match of a pattern takes. *)
Fixpoint minLen (r : re) : nat :=
  match r with
  | Eps => 0
  | Cls _ => 1
  | ClsU _ => 1
  | Seq a b => minLen a + minLen b
  | Alt a b => Nat.min (minLen a) (minLen b)
  | Rep _ min max a =>
      match max with Some hi => Nat.min min hi | None => min end * minLen a
  | Grp _ a => minLen a
  | Bol _ | Eol _ | WordB | Ahead _ => 0
  end.

(** The number of leading characters of a class. *)
Fixpoint run (p : jschar -> bool) (s : jsstring) : nat :=
  match s with
  | c :: rest => if p c then S (run p rest) else 0
  | [] => 0
  end.

(** The bounds [normalizeOmConfig] enforces. *)
Definition configOk (config : OmConfig) : Prop :=
  (1 <= recentTurnBudgetTokens config /\ 1 <= maxObservationItems config
   /\ 1 <= maxObserverTranscriptChars config
   /\ 1 <= maxReflectorObservationsChars config
   /\ 1 <= coreMemoryMaxTokens config /\ 1 <= relevantObservationMaxItems config
   /\ 1 <= relevantObservationMaxTokens config
   /\ 1 <= reflectEveryNObservations config
   /\ 1 <= reflectWhenObservationTokensOver config
   /\ 0 <= autoObservePendingTokenThreshold config)%Z.

(** A state as a reload delivers it: no run in flight. *)
Definition clearFlags (state : OmState) : OmState :=
  set_isBufferingReflection false (set_isBufferingObservation false state).

(** The document [observeNow] holds once a successful Observer call has
    been merged and the buffer cleared, before the reflection trigger. *)
Definition observedState (roughTextTokenizer : jsstring -> Z) (omConfig : OmConfig)
           (state : OmState) (parsed : OmSections) (now : jsstring) : OmState :=
  let state := set_lastObservedAt (Some now) state in
  let state := set_observations
                 (mergeObservationItems omConfig (observations state)
                                        (parsed_observations parsed))
                 state in
  let state := set_observationTokens (roughTextTokenizer (observations state)) state in
  let state := updateTaskAndResponse parsed state in
  let state := set_observationRuns (observationRuns state + 1)%Z state in
  let state := set_pendingSegments [] state in
  recomputePendingCounters state.

(** A text with a character that is not white space. *)
Definition nonBlank (s : jsstring) : Prop :=
  exists c, In c s /\ isJsSpace c = false.

(** The document [reflectNow] has written out after a successful
    Reflector call. *)
Definition reflectedState (roughTextTokenizer : jsstring -> Z)
           (STORAGE_SCOPE : StorageScope) (omConfig : OmConfig) (state : OmState)
           (task : ReflectTask) (parsed : OmSections) (now : jsstring) : OmState :=
  let state := set_observations
                 (mergeObservationItems omConfig (js "") (parsed_observations parsed))
                 state in
  let state := set_observationTokens (roughTextTokenizer (observations state)) state in
  let state := updateTaskAndResponse parsed state in
  let state := set_reflectionRuns (reflectionRuns state + 1)%Z state in
  let state := set_reflections
                 (sliceTo 15 (reflectionSnapshot task state now :: reflections state))
                 state in
  persistState roughTextTokenizer STORAGE_SCOPE state.

(** The order of the ranking: a higher score first, the later line first
    among equal scores. *)
Definition rankedBefore (a b : Ranked) : Prop :=
  (score b < score a)%Z \/ (score a = score b /\ (index b < index a)%nat).

(** The number of query keywords a line contains. *)
Definition keywordHits (toLowerCase : jsstring -> jsstring) (keys : list jsstring)
           (l : jsstring) : Z :=
  Z.of_nat (length (filter (fun key => includes key (toLowerCase l)) keys)).

(** The estimates of a list of messages, added up. *)
Definition messagesTokens (tokensOf : JsVal -> Z) (messages : list JsVal) : Z :=
  fold_right (fun m sum => (tokensOf m + sum)%Z) 0%Z messages.


(** A text on which the token-saving pass has nothing to do: no medium or
    low priority emoji, no bracket, no run of blanks or of three line
    breaks, no white space at either end. *)
Definition plainObservations (text : jsstring) : Prop :=
  includes [55357; 57313]%N text = false
  /\ includes [55357; 57314]%N text = false
  /\ includes (js "[") text = false
  /\ includes (js "  ") text = false
  /\ includes [NL; NL; NL] text = false
  /\ trimmed text.

(** A text without a date header and without a parenthesis. *)
Definition undated (text : jsstring) : Prop :=
  includes (js "(") text = false /\ includes (js "Date:") text = false.

(** *** A sample run *)

(** A system with the given document and nothing in flight. *)
Definition idleSystem (state : OmState) : System :=
  {| sys_state := state; sys_config := DEFAULT_OM_CONFIG;
     observing := []; observingReflect := []; observingResume := [];
     reflecting := []; snapshots := [] |}.

(** One pending segment and a current task. *)
Definition taskState : OmState :=
  set_currentTask (Some (js "fix the build")) (oneSegmentState (js "turn 1") 10).

(** The same document after an Observer run that answered
    [observedOutput]. *)
Definition observedTaskState : OmState :=
  set_isBufferingObservation false
    (observedState sampleTokenizer DEFAULT_OM_CONFIG
                   (set_isBufferingObservation true taskState)
                   (parseOmSections observedOutput) (js "t2")).

(** *** Captures and answers *)

(** A state whose remaining input and captures are made of characters of
    [text]. *)
Definition within (text : jsstring) (x : mstate) : Prop :=
  incl (after x) text /\ Forall (fun e => incl (snd e) text) (caps x).

(** An answer without markup: no tag and no heading can occur in it. *)
Definition unmarked (text : jsstring) : Prop :=
  includes (js "<") text = false /\ includes (js "#") text = false.

(** The index of the first suffix of [s] that [ok] accepts. *)
Fixpoint firstIndex (ok : jsstring -> bool) (s : jsstring) : option nat :=
  if ok s then Some 0
  else match s with
       | [] => None
       | _ :: s' => option_map S (firstIndex ok s')
       end.

(** [s] starts with [p], letter case apart. *)
Fixpoint startsWith_i (p s : jsstring) : bool :=
  match p with
  | [] => true
  | c :: p' =>
      match s with
      | d :: s' => (canonicalize d =? canonicalize c)%N && startsWith_i p' s'
      | [] => false
      end
  end.

(** The index of the first occurrence of [p] in [s], letter case apart. *)
Definition indexOf_i (p s : jsstring) : option nat := firstIndex (startsWith_i p) s.

(** The text between the first [opening] in [text] and the first [closing]
    after it. *)
Definition between_i (opening closing text : jsstring) : option jsstring :=
  match indexOf_i opening text with
  | None => None
  | Some i =>
      let rest := skipn (i + length opening) text in
      match indexOf_i closing rest with
      | None => None
      | Some j => Some (firstn j rest)
      end
  end.

(** The tags [parseOmSections] asks [extractXmlTag] for. *)
Definition sectionTags : list string :=
  ["observations"; "current-task"; "suggested-response"]%string.

Definition openingTag (tag : string) : jsstring := js "<" ++ js tag ++ js ">".
Definition closingTag (tag : string) : jsstring := js "</" ++ js tag ++ js ">".

(** [p] differs from the input within [blk], letter case apart. *)
Fixpoint clash (p blk : jsstring) : bool :=
  match p, blk with
  | c :: p', d :: blk' => negb (canonicalize d =? canonicalize c)%N || clash p' blk'
  | _, _ => false
  end.

(** [p] starts nowhere in [blk], whatever follows [blk]. *)
Fixpoint clashes (p blk : jsstring) : bool :=
  match blk with
  | [] => true
  | _ :: blk' => clash p blk && clashes p blk'
  end.

(** A text that holds none of the section tags, letter case apart. *)
Definition holdsNoTag (s : jsstring) : Prop :=
  Forall (fun tag => indexOf_i (openingTag tag) s = None
                     /\ indexOf_i (closingTag tag) s = None) sectionTags.

(* ================================================================== *)
(** * Properties *)

(** [updateTaskAndResponse] writes at most the two optional fields: a fact
    about any other field follows by cases on the parsed sections. *)
Ltac update_cases parsed :=
  unfold updateTaskAndResponse;
  destruct (parsed_currentTask parsed), (parsed_suggestedResponse parsed).

(** The cases of a step of the runs, with the names used below. *)
Ltac run_step_cases Hstep :=
  destruct Hstep as
    [ s a b c d e f | s state | s raw
    | s opt state task Hbegin
    | s before task after backend now state outcome Hin Hfinish
    | s before task after backend now state rtask Hin Hfinish
    | s before task after backend now state reflected Hin Hfinish
    | s before rtask after result now Hin written reflected
    | s before reflected after Hin
    | s a r sl state rtask Hbegin
    | s before rtask after result now Hin written ].

(** ** The embedding on concrete inputs *)

Section Examples.
Local Open Scope Z_scope.

Example parse_tagged_blocks :
  parseOmSections
    (js "<observations>" ++ [NL] ++ js "* a" ++ [NL] ++ js "* b" ++ [NL]
       ++ js "</observations>" ++ [NL] ++ js "<Current-Task>do x</current-task>")
  = {| parsed_observations := js "* a" ++ [NL] ++ js "* b";
       parsed_currentTask := Some (js "do x");
       parsed_suggestedResponse := None |}.
Proof. vm_compute. reflexivity. Qed.

Example parse_fenced_headings :
  parseOmSections
    (js "```md" ++ [NL] ++ js "## Observations" ++ [NL] ++ js "* a" ++ [NL]
       ++ js "## Current Task" ++ [NL] ++ js "do it" ++ [NL] ++ js "```")
  = {| parsed_observations := js "* a";
       parsed_currentTask := Some (js "do it");
       parsed_suggestedResponse := None |}.
Proof. vm_compute. reflexivity. Qed.

Example parse_without_sections :
  parsed_observations (parseOmSections (js "nothing to report")) = js "".
Proof. vm_compute. reflexivity. Qed.

Example relative_time_buckets :
  map (fun days => formatRelativeTime 0 (days * msPerDay)) [0; 1; 3; 10; 21; 45; 100; 800]
  = map js ["today"; "yesterday"; "3 days ago"; "1 week ago"; "3 weeks ago";
            "1 month ago"; "3 months ago"; "2 years ago"]%string
  /\ map (fun days => formatRelativeTime (days * msPerDay) 0) [1; 3; 10; 21; 100]
     = map js ["tomorrow"; "in 3 days"; "in 1 week"; "in 3 weeks"; "in 3 months"]%string.
Proof. split; vm_compute; reflexivity. Qed.

Example inline_date_expanded :
  expandInlineEstimatedDates utcDateParse
    (js "* user will travel (estimated Feb 2, 2026)") 1770944400000
  = js "* user will travel (estimated Feb 2, 2026 - 1 week ago, likely already happened)".
Proof. vm_compute. reflexivity. Qed.

Example keywords_of_query :
  keywordSet asciiLower asciiLetterOrNumber (js "Which tabs does the build-tool use, the user asks?")
  = map js ["which"; "tabs"; "does"; "build-tool"; "use"; "asks"]%string.
Proof. vm_compute. reflexivity. Qed.

(** With reflection due after every run, a successful Observer run goes on
    into the nested Reflector run, holding both flags. *)
Example observe_then_periodic_reflect :
  match observeNow_finish sampleTokenizer
          (normalizeOmConfig (VObj [(js "reflectEveryNObservations", VNum 1)]))
          (set_isBufferingObservation true (oneSegmentState (js "turn 1") 10))
          {| transcript := js "turn 1"; inputTokens := 10; triggerAutoReflect := true |}
          (cliBackend observedOutput) (js "t2") with
  | ObserveAwaitsReflect state rtask =>
      observations state = js "* saw turn 1"
      /\ isBufferingObservation state = true
      /\ isBufferingReflection state = true
      /\ reason rtask = js "auto-periodic"
  | _ => False
  end.
Proof. vm_compute. repeat split. Qed.

End Examples.

(** ** Strings and lines *)

Section StringFacts.

Lemma split_nonempty sep s : split sep s <> [].
Proof.
  destruct s as [|c r]; simpl; [discriminate|].
  destruct (c =? sep)%N; [discriminate|].
  destruct (split sep r); discriminate.
Qed.

Lemma split_free sep s : Forall (fun l => ~ In sep l) (split sep s).
Proof.
  induction s as [|c r IH]; simpl.
  - constructor; [intros []|constructor].
  - destruct (N.eqb_spec c sep) as [->|Hne].
    + constructor; [intros []|exact IH].
    + destruct (split sep r) as [|h t]; inversion IH; subst.
      * constructor; [|constructor]. intros [H|[]]; congruence.
      * constructor; [|assumption]. intros [H|H]; [congruence|contradiction].
Qed.

Lemma split_app_free sep a s :
  ~ In sep a ->
  split sep (a ++ sep :: s) = a :: split sep s.
Proof.
  induction a as [|c a IH]; simpl; intros Hfree.
  - now rewrite N.eqb_refl.
  - destruct (N.eqb_spec c sep) as [->|Hne]; [exfalso; apply Hfree; now left|].
    rewrite IH; [reflexivity|]. intros H; apply Hfree; now right.
Qed.

Lemma split_free_id sep a : ~ In sep a -> split sep a = [a].
Proof.
  induction a as [|c a IH]; simpl; intros Hfree; [reflexivity|].
  destruct (N.eqb_spec c sep) as [->|Hne]; [exfalso; apply Hfree; now left|].
  rewrite IH; [reflexivity|]. intros H; apply Hfree; now right.
Qed.

Lemma split_join sep ls :
  ls <> [] -> Forall (fun l => ~ In sep l) ls ->
  split sep (join [sep] ls) = ls.
Proof.
  induction ls as [|x r IH]; intros Hne Hall; [congruence|].
  inversion Hall as [|? ? Hx Hr]; subst.
  destruct r as [|y r'].
  - simpl. now apply split_free_id.
  - change (join [sep] (x :: y :: r')) with (x ++ sep :: join [sep] (y :: r')).
    rewrite split_app_free by assumption.
    rewrite IH; [reflexivity|discriminate|assumption].
Qed.

Lemma dropWhile_incl p s c : In c (dropWhile p s) -> In c s.
Proof.
  induction s as [|d r IH]; simpl; [tauto|].
  destruct (p d); simpl; tauto.
Qed.

Lemma trim_incl s c : In c (trim s) -> In c s.
Proof.
  unfold trim, trimEnd, trimStart. intros H.
  apply in_rev in H. apply dropWhile_incl in H. apply in_rev in H.
  now apply dropWhile_incl in H.
Qed.

Lemma dropWhile_head p s :
  match dropWhile p s with [] => True | c :: _ => p c = false end.
Proof.
  induction s as [|d r IH]; simpl; [exact I|].
  destruct (p d) eqn:E; [exact IH|exact E].
Qed.

Lemma dropWhile_fix p s :
  match s with [] => True | c :: _ => p c = false end -> dropWhile p s = s.
Proof. destruct s as [|c r]; simpl; [reflexivity|]. now intros ->. Qed.


Lemma trimmed_trim_id s : trimmed s -> trim s = s.
Proof.
  intros [Hh Ht]. unfold trim, trimStart, trimEnd.
  rewrite (dropWhile_fix _ _ Hh), (dropWhile_fix _ _ Ht). apply rev_involutive.
Qed.

Lemma dropWhile_suffix p s : exists pre, s = pre ++ dropWhile p s.
Proof.
  induction s as [|d r [pre IH]]; simpl; [now exists []|].
  destruct (p d); [exists (d :: pre); simpl; congruence|now exists []].
Qed.

Lemma trim_trimmed s : trimmed (trim s).
Proof.
  unfold trim, trimEnd, trimStart. split.
  - pose proof (dropWhile_head isJsSpace s) as Hs.
    destruct (dropWhile_suffix isJsSpace (rev (dropWhile isJsSpace s))) as [pre Hpre].
    remember (dropWhile isJsSpace (rev (dropWhile isJsSpace s))) as t eqn:Et.
    apply (f_equal (@rev _)) in Hpre. rewrite rev_involutive, rev_app_distr in Hpre.
    rewrite Hpre in Hs.
    destruct (rev t) as [|c u]; [exact I|exact Hs].
  - rewrite rev_involutive. apply dropWhile_head.
Qed.

Lemma trim_idem s : trim (trim s) = trim s.
Proof. apply trimmed_trim_id, trim_trimmed. Qed.

End StringFacts.

Section MergeFacts.
Local Open Scope Z_scope.


Lemma observationLines_clean text : Forall cleanLine (observationLines text).
Proof.
  unfold observationLines. apply Forall_forall. intros l Hin.
  apply filter_In in Hin as [Hin Htruthy].
  apply in_map_iff in Hin as [piece [<- Hpiece]].
  repeat split.
  - intros E. rewrite E in Htruthy. discriminate.
  - apply trim_trimmed.
  - apply trim_trimmed.
  - intros H. apply trim_incl in H.
    pose proof (split_free NL text) as Hfree.
    rewrite Forall_forall in Hfree. exact (Hfree _ Hpiece H).
Qed.

Lemma map_id_on (A : Type) (f : A -> A) (P : A -> Prop) ls :
  (forall x, P x -> f x = x) -> Forall P ls -> map f ls = ls.
Proof. intros Hf. induction 1; simpl; [reflexivity|]. now rewrite Hf, IHForall. Qed.

Lemma filter_id_on (A : Type) (f : A -> bool) (P : A -> Prop) ls :
  (forall x, P x -> f x = true) -> Forall P ls -> filter f ls = ls.
Proof. intros Hf. induction 1; simpl; [reflexivity|]. now rewrite Hf, IHForall. Qed.

Lemma observationLines_join ls :
  Forall cleanLine ls -> observationLines (join [NL] ls) = ls.
Proof.
  intros Hclean. unfold observationLines.
  destruct ls as [|x r]; [reflexivity|].
  rewrite split_join.
  - rewrite (@map_id_on _ trim cleanLine); [|intros y [_ [Hy _]]; now apply trimmed_trim_id|assumption].
    apply (@filter_id_on _ truthy cleanLine); [|assumption].
    intros [|c y] [Hne _]; [congruence|reflexivity].
  - discriminate.
  - eapply Forall_impl; [|exact Hclean]. intros y [_ [_ Hy]]. exact Hy.
Qed.

Lemma Forall_skipn (A : Type) (P : A -> Prop) n ls :
  Forall P ls -> Forall P (skipn n ls).
Proof.
  revert ls. induction n as [|n IH]; intros ls H; [exact H|].
  destruct ls; [constructor|]. inversion H; subst. simpl. now apply IH.
Qed.

Lemma sliceFrom_cap (A : Type) cap (xs : list A) :
  1 <= cap ->
  sliceFrom (- cap) xs = lastn (Z.to_nat (Z.min cap (Z.of_nat (length xs)))) xs.
Proof.
  intros Hcap. unfold sliceFrom, lastn.
  destruct (Z.ltb_spec (- cap) 0); [|lia].
  f_equal. lia.
Qed.

Lemma lastn_length (A : Type) n (xs : list A) :
  length (lastn n xs) = Nat.min n (length xs).
Proof. unfold lastn. rewrite length_skipn. lia. Qed.

Lemma lastn_all (A : Type) n (xs : list A) :
  (length xs <= n)%nat -> lastn n xs = xs.
Proof. intros H. unfold lastn. replace (length xs - n)%nat with 0%nat by lia. reflexivity. Qed.

(** Every configuration the program holds is a normalized one: the
    defaults are what an absent file normalizes to. *)
Lemma default_is_normalized : normalizeOmConfig VUndef = DEFAULT_OM_CONFIG.
Proof. reflexivity. Qed.

Lemma normalize_cap raw : 1 <= maxObservationItems (normalizeOmConfig raw).
Proof.
  unfold normalizeOmConfig; simpl. unfold coerceNumber.
  destruct (getField raw "maxObservationItems"); lia.
Qed.

Lemma merge_lines omConfig D N :
  1 <= maxObservationItems omConfig ->
  let all := observationLines D ++ observationLines N in
  let kept := lastn (Z.to_nat (Z.min (maxObservationItems omConfig)
                                     (Z.of_nat (length all)))) all in
  mergeObservationItems omConfig D N = join [NL] kept
  /\ observationLines (mergeObservationItems omConfig D N) = kept.
Proof.
  intros Hcap all kept.
  assert (E : mergeObservationItems omConfig D N = join [NL] kept).
  { unfold mergeObservationItems. now rewrite sliceFrom_cap. }
  split; [exact E|]. rewrite E. apply observationLines_join.
  apply Forall_skipn. apply Forall_app; split; apply observationLines_clean.
Qed.

Lemma observationLines_empty : observationLines (js "") = [].
Proof. reflexivity. Qed.

Lemma merge_empty_noop omConfig ls :
  1 <= maxObservationItems omConfig ->
  Forall cleanLine ls ->
  Z.of_nat (length ls) <= maxObservationItems omConfig ->
  mergeObservationItems omConfig (join [NL] ls) (js "") = join [NL] ls.
Proof.
  intros Hcap Hclean Hlen.
  destruct (merge_lines omConfig (join [NL] ls) (js "") Hcap) as [E _].
  rewrite E, observationLines_empty, app_nil_r, observationLines_join by assumption.
  now rewrite lastn_all by lia.
Qed.

End MergeFacts.

(** C2 (as amended).  Under every configuration the program can hold, the
    Observer merge of a document [D] with new text [N] is the last
    [min(cap, |D| + |N|)] trimmed non-empty lines of [D] followed by those
    of [N], in their order, joined by newlines, where [cap] is
    [maxObservationItems]; with cap 3, lines A, B, C and input D the result
    is B, C, D.  Merging the empty text into a document that is itself the
    result of a merge under the same cap leaves it unchanged. *)
Theorem merge_append_then_cap :
  forall (raw : JsVal) (D N : jsstring),
    let omConfig := normalizeOmConfig raw in
    let cap := maxObservationItems omConfig in
    let all := observationLines D ++ observationLines N in
    let kept := lastn (Z.to_nat (Z.min cap (Z.of_nat (length all)))) all in
    mergeObservationItems omConfig D N = join [NL] kept
    /\ observationLines (mergeObservationItems omConfig D N) = kept
    /\ Z.of_nat (length kept)
       = Z.min cap (Z.of_nat (length (observationLines D) + length (observationLines N)))
    /\ mergeObservationItems (normalizeOmConfig (capConfig 3))
         (js "A" ++ [NL] ++ js "B" ++ [NL] ++ js "C") (js "D")
       = js "B" ++ [NL] ++ js "C" ++ [NL] ++ js "D"
    /\ mergeObservationItems omConfig (mergeObservationItems omConfig D N) (js "")
       = mergeObservationItems omConfig D N.
Proof.
  intros raw D N omConfig cap all kept.
  pose proof (normalize_cap raw) as Hcap. fold omConfig in Hcap. fold cap in Hcap.
  destruct (merge_lines omConfig D N Hcap) as [E1 E2].
  fold all in E1, E2. fold cap in E1, E2. fold kept in E1, E2.
  assert (Hlen : Z.of_nat (length kept) = Z.min cap (Z.of_nat (length all))).
  { unfold kept. rewrite lastn_length. lia. }
  split; [|split; [|split; [|split]]].
  - exact E1.
  - exact E2.
  - rewrite Hlen. unfold all. now rewrite length_app.
  - vm_compute. reflexivity.
  - rewrite E1. apply merge_empty_noop.
    + exact Hcap.
    + unfold kept. apply Forall_skipn. apply Forall_app; split; apply observationLines_clean.
    + fold cap. lia.
Qed.

(** C2, as stated, fails: once the cap has been lowered to 2, merging the
    empty text into the three-line document A, B, C drops line A. *)
Lemma merge_empty_counterexample :
  mergeObservationItems (normalizeOmConfig (capConfig 2))
    (js "A" ++ [NL] ++ js "B" ++ [NL] ++ js "C") (js "")
  = js "B" ++ [NL] ++ js "C"
  /\ mergeObservationItems (normalizeOmConfig (capConfig 2))
       (js "A" ++ [NL] ++ js "B" ++ [NL] ++ js "C") (js "")
     <> js "A" ++ [NL] ++ js "B" ++ [NL] ++ js "C".
Proof. split; [vm_compute; reflexivity|vm_compute; discriminate]. Qed.

(** ** Reflector runs *)

Section ReflectFacts.
Local Open Scope Z_scope.

Variable roughTextTokenizer : jsstring -> Z.
Variable STORAGE_SCOPE : StorageScope.


Lemma updateTaskAndResponse_observations parsed state :
  observations (updateTaskAndResponse parsed state) = observations state.
Proof.
  update_cases parsed; reflexivity.
Qed.

Lemma persistState_observations state :
  observations (persistState roughTextTokenizer STORAGE_SCOPE state) = observations state.
Proof. reflexivity. Qed.

Lemma reflect_success_observations omConfig state task parsed now :
  truthy (trim (parsed_observations parsed)) = true ->
  reflectNow_finish roughTextTokenizer STORAGE_SCOPE omConfig state task (CallParsed parsed) now
  = (set_isBufferingReflection false
       (fst (reflectNow_try roughTextTokenizer STORAGE_SCOPE omConfig state task (CallParsed parsed) now)), Returned true)
  /\ observations (fst (reflectNow_finish roughTextTokenizer STORAGE_SCOPE omConfig state task (CallParsed parsed) now))
     = mergeObservationItems omConfig (js "") (parsed_observations parsed).
Proof.
  intros Hne. unfold reflectNow_finish, reflectNow_try. rewrite Hne. simpl.
  split; [reflexivity|]. now rewrite updateTaskAndResponse_observations.
Qed.

Lemma runReflectorCall_parsed backend parsed :
  runReflectorCall backend = CallParsed parsed ->
  truthy (trim (parsed_observations parsed)) = true.
Proof.
  unfold runReflectorCall.
  destruct (reflectorChannels backend) as [| |out]; try discriminate.
  destruct (truthy (trim (parsed_observations (parseOmSections out)))) eqn:E;
    simpl; [|discriminate].
  intros H. injection H as <-. exact E.
Qed.

End ReflectFacts.

(** C1 (as amended).  A Reflector run replaces and never appends: when the
    model output parses to observation lines [L'], the run returns [true]
    and the document's observations are the last [maxObservationItems]
    lines of [L'] -- exactly [L'] when [L'] has at most that many lines --
    whatever the document held before; when the output has no recognizable
    observations section, no channel is usable or the call throws, the
    observations are exactly what they were. *)
Theorem reflection_replaces :
  forall (roughTextTokenizer : jsstring -> Z) (STORAGE_SCOPE : StorageScope)
         (raw : JsVal) (state : OmState) (task : ReflectTask)
         (backend : Backend) (now : jsstring),
    let omConfig := normalizeOmConfig raw in
    let cap := maxObservationItems omConfig in
    let final := reflectNow_finish roughTextTokenizer STORAGE_SCOPE omConfig state task
                                   (runReflectorCall backend) now in
    match reflectorChannels backend with
    | ChannelText out =>
        let L' := observationLines (parsed_observations (parseOmSections out)) in
        if truthy (trim (parsed_observations (parseOmSections out))) then
          snd final = Returned true
          /\ observationLines (observations (fst final)) = lastn (Z.to_nat cap) L'
          /\ observations (fst final) = join [NL] (lastn (Z.to_nat cap) L')
          /\ ((Z.of_nat (length L') <=? cap)%Z = true ->
              observationLines (observations (fst final)) = L')
        else
          snd final = Returned false /\ observations (fst final) = observations state
    | ChannelNone =>
        snd final = Returned false /\ observations (fst final) = observations state
    | ChannelThrew =>
        snd final = Threw /\ observations (fst final) = observations state
    end.
Proof.
  intros tok scope raw state task backend now omConfig cap final.
  unfold final, runReflectorCall.
  destruct (reflectorChannels backend) as [| |out].
  1, 2: split; reflexivity.
  destruct (truthy (trim (parsed_observations (parseOmSections out)))) eqn:Hne;
    simpl negb; cbv iota; [|split; reflexivity].
  destruct (reflect_success_observations tok scope omConfig state task
              (parseOmSections out) now Hne) as [E1 E2].
  pose proof (normalize_cap raw) as Hcap. fold omConfig in Hcap.
  destruct (merge_lines omConfig (js "") (parsed_observations (parseOmSections out)) Hcap)
    as [M1 M2].
  rewrite observationLines_empty in M1, M2. simpl app in M1, M2.
  assert (Hk : forall xs : list jsstring,
             lastn (Z.to_nat (Z.min (maxObservationItems omConfig) (Z.of_nat (length xs)))) xs
             = lastn (Z.to_nat cap) xs).
  { intros xs. unfold lastn, cap. f_equal. lia. }
  rewrite Hk in M1, M2.
  rewrite E2. split; [|split; [|split]].
  - now rewrite E1.
  - exact M2.
  - exact M1.
  - intros Hle. rewrite M2. apply lastn_all. apply Z.leb_le in Hle. lia.
Qed.



(** C1, as stated, fails: with [maxObservationItems] set to 1, a
    successful reflection whose parsed output has the two lines x and y
    leaves the single line y. *)
Lemma reflection_over_cap_counterexample :
  let omConfig := normalizeOmConfig (capConfig 1) in
  let state := set_isBufferingReflection true
                 (set_observations (js "old") (createInitialState ScopeThread)) in
  let task := {| beforeObservations := js "old"; beforeTokens := 0;
                 aggressive := false; reason := js "manual";
                 silentIfSkipped := false |} in
  let out := js "<observations>" ++ [NL] ++ js "x" ++ [NL] ++ js "y" ++ [NL]
               ++ js "</observations>" in
  let final := reflectNow_finish sampleTokenizer ScopeThread omConfig state task
                                 (runReflectorCall (cliBackend out)) (js "t") in
  reflectNow_begin omConfig (set_observations (js "old") (createInitialState ScopeThread))
                   false (js "") false = Started state task
  /\ observationLines (parsed_observations (parseOmSections out)) = [js "x"; js "y"]
  /\ snd final = Returned true
  /\ observationLines (observations (fst final)) = [js "y"]
  /\ observationLines (observations (fst final))
     <> observationLines (parsed_observations (parseOmSections out)).
Proof.
  split; [|split; [|split; [|split]]].
  - vm_compute. reflexivity.
  - vm_compute. reflexivity.
  - vm_compute. reflexivity.
  - vm_compute. reflexivity.
  - vm_compute. discriminate.
Qed.

(** An instance of [reflection_replaces]: under a cap of 5 the one-line
    answer becomes the whole document. *)
Lemma reflection_replaces_witness :
  observationLines
    (observations
       (fst (reflectNow_finish sampleTokenizer ScopeThread (normalizeOmConfig (capConfig 5))
               (set_isBufferingReflection true
                  (set_observations (js "old") (createInitialState ScopeThread)))
               {| beforeObservations := js "old"; beforeTokens := 0;
                  aggressive := false; reason := js "manual";
                  silentIfSkipped := false |}
               (runReflectorCall (cliBackend observedOutput)) (js "t"))))
  = [js "* saw turn 1"].
Proof.
  pose proof (reflection_replaces sampleTokenizer ScopeThread (capConfig 5)
                (set_isBufferingReflection true
                   (set_observations (js "old") (createInitialState ScopeThread)))
                {| beforeObservations := js "old"; beforeTokens := 0;
                   aggressive := false; reason := js "manual";
                   silentIfSkipped := false |}
                (cliBackend observedOutput) (js "t")) as H.
  cbv zeta in H.
  change (reflectorChannels (cliBackend observedOutput)) with (ChannelText observedOutput) in H.
  cbv iota beta in H.
  assert (E : truthy (trim (parsed_observations (parseOmSections observedOutput))) = true)
    by (vm_compute; reflexivity).
  rewrite E in H.
  destruct H as (_ & _ & _ & H).
  rewrite H; [vm_compute; reflexivity|vm_compute; reflexivity].
Defined.

(** ** Observer runs, flags and the pending buffer *)

Section RunFacts.
Local Open Scope Z_scope.

Variable roughTextTokenizer : jsstring -> Z.
Variable STORAGE_SCOPE : StorageScope.

Lemma observeNow_begin_started state opt state' task :
  observeNow_begin state opt = Started state' task ->
  pendingSegments state <> []
  /\ isBufferingObservation state = false
  /\ state' = set_isBufferingObservation true state
  /\ transcript task = buildTranscriptFromSegments (pendingSegments state).
Proof.
  unfold observeNow_begin.
  destruct (pendingSegments state) as [|seg segs] eqn:Hsegs; simpl; [discriminate|].
  destruct (isBufferingObservation state) eqn:Hflag; [discriminate|].
  intros H. injection H as <- <-. simpl. rewrite Hsegs.
  repeat split; discriminate.
Qed.

Lemma observeNow_begin_starts state opt :
  pendingSegments state <> [] ->
  isBufferingObservation state = false ->
  observeNow_begin state opt
  = Started (set_isBufferingObservation true state)
      {| transcript := buildTranscriptFromSegments (pendingSegments state);
         inputTokens := pendingTokens state;
         triggerAutoReflect := opt |}.
Proof.
  intros Hsegs Hflag. unfold observeNow_begin. rewrite Hflag.
  destruct (pendingSegments state) eqn:E; [congruence|].
  simpl. now rewrite E.
Qed.

Lemma reflectNow_begin_started omConfig state a r s state' task :
  reflectNow_begin omConfig state a r s = Started state' task ->
  enableReflection omConfig = true
  /\ truthy (trim (observations state)) = true
  /\ isBufferingReflection state = false
  /\ state' = set_isBufferingReflection true state.
Proof.
  unfold reflectNow_begin.
  destruct (enableReflection omConfig); simpl; [|discriminate].
  destruct (truthy (trim (observations state))); simpl; [|discriminate].
  destruct (isBufferingReflection state); [discriminate|].
  intros H. injection H as <- <-. repeat split.
Qed.






(** A run whose channels deliver text without an observations section. *)
Lemma observeNow_finish_empty omConfig state task backend now out :
  observerChannels backend = ChannelText out ->
  truthy (trim (parsed_observations (parseOmSections out))) = false ->
  observeNow_finish roughTextTokenizer omConfig state task backend now
  = ObserveDone (set_isBufferingObservation false state) (Returned false).
Proof.
  intros Hout Hempty. unfold observeNow_finish, runObserverCall.
  rewrite Hout, Hempty. reflexivity.
Qed.

(** A run whose channels deliver text with an observations section. *)
Lemma observeNow_finish_clears omConfig state task backend now out :
  observerChannels backend = ChannelText out ->
  truthy (trim (parsed_observations (parseOmSections out))) = true ->
  match observeNow_finish roughTextTokenizer omConfig state task backend now with
  | ObserveDone state' outcome =>
      outcome = Returned true /\ pendingSegments state' = [] /\ pendingTokens state' = 0
  | ObserveAwaitsReflect state' _ =>
      pendingSegments state' = [] /\ pendingTokens state' = 0
  | ObserveResumes state' _ =>
      pendingSegments state' = [] /\ pendingTokens state' = 0
  end.
Proof.
  intros Hout Hfull. unfold observeNow_finish, runObserverCall.
  rewrite Hout, Hfull. simpl negb. cbv iota.
  set (merged := recomputePendingCounters _).
  assert (Hsegs : pendingSegments merged = [] /\ pendingTokens merged = 0).
  { unfold merged. split; reflexivity. }
  destruct (triggerAutoReflect task && shouldRunPeriodicReflection omConfig merged);
    [|split; [reflexivity|exact Hsegs]].
  destruct (reflectNow_begin omConfig merged false (js "auto-periodic") true)
    as [|state' rtask] eqn:Hbegin; [exact Hsegs|].
  apply reflectNow_begin_started in Hbegin as (_ & _ & _ & ->). exact Hsegs.
Qed.

End RunFacts.

Section FlightFacts.

Variable roughTextTokenizer : jsstring -> Z.
Variable STORAGE_SCOPE : StorageScope.


Lemma pushPendingSegment_flags state a b c d e f :
  isBufferingObservation (pushPendingSegment state a b c d e f)
  = isBufferingObservation state
  /\ isBufferingReflection (pushPendingSegment state a b c d e f)
     = isBufferingReflection state.
Proof. split; reflexivity. Qed.




End FlightFacts.




(** C5.  An Observer run whose external call yields text with an empty
    parsed observations section returns [false] and leaves the document as
    it was: [observationRuns], the observations text and its token count,
    the task and response fields are unchanged, and the pending segments
    are not cleared, so they are still non-empty.  The same holds on
    whatever state the call settles on. *)
Theorem observer_empty_output_fails :
  forall (roughTextTokenizer : jsstring -> Z) (omConfig : OmConfig)
         (state0 : OmState) (opt : bool) (state1 : OmState) (task : ObserveTask)
         (backend : Backend) (now out : jsstring),
    observeNow_begin state0 opt = Started state1 task ->
    observerChannels backend = ChannelText out ->
    truthy (trim (parsed_observations (parseOmSections out))) = false ->
    (exists final,
        observeNow_finish roughTextTokenizer omConfig state1 task backend now
        = ObserveDone final (Returned false)
        /\ observationRuns final = observationRuns state0
        /\ observations final = observations state0
        /\ observationTokens final = observationTokens state0
        /\ currentTask final = currentTask state0
        /\ suggestedResponse final = suggestedResponse state0
        /\ pendingSegments final = pendingSegments state0
        /\ pendingSegments final <> []
        /\ pendingTokens final = pendingTokens state0)
    /\ (forall state,
           observeNow_finish roughTextTokenizer omConfig state task backend now
           = ObserveDone (set_isBufferingObservation false state) (Returned false)).
Proof.
  intros tok omConfig state0 opt state1 task backend now out Hbegin Hout Hempty.
  apply observeNow_begin_started in Hbegin as (Hsegs & _ & -> & _).
  split.
  - eexists. split; [now apply (observeNow_finish_empty tok _ _ _ _ _ Hout)|].
    simpl. repeat (split; [reflexivity|]). split; [exact Hsegs|reflexivity].
  - intros state. now apply (observeNow_finish_empty tok _ _ _ _ _ Hout).
Qed.

(** C4 (as amended).  A successful Observer run empties the pending buffer
    as it stands when the run completes: a segment appended while the run
    was in flight, which the transcript sent to the external call does not
    contain, is removed together with the segments that were sent, and
    [pendingTokens] is reset to zero; whatever the buffer holds when the
    run completes, it is empty afterwards. *)
Theorem observer_success_clears_buffer :
  forall (roughTextTokenizer : jsstring -> Z) (omConfig : OmConfig)
         (state0 : OmState) (opt : bool) (state1 : OmState) (task : ObserveTask)
         (backend : Backend) (now out : jsstring)
         (segId segCreatedAt : option jsstring) (segText : jsstring) (segTokens : Z)
         (rid now' : jsstring),
    observeNow_begin state0 opt = Started state1 task ->
    observerChannels backend = ChannelText out ->
    truthy (trim (parsed_observations (parseOmSections out))) = true ->
    let state2 := pushPendingSegment state1 segId segCreatedAt segText segTokens rid now' in
    transcript task = buildTranscriptFromSegments (pendingSegments state0)
    /\ (exists seg, pendingSegments state2 = pendingSegments state0 ++ [seg]
                    /\ text seg = segText)
    /\ match observeNow_finish roughTextTokenizer omConfig state2 task backend now with
       | ObserveDone final outcome =>
           outcome = Returned true
           /\ pendingSegments final = [] /\ pendingTokens final = 0%Z
       | ObserveAwaitsReflect final _ =>
           pendingSegments final = [] /\ pendingTokens final = 0%Z
       | ObserveResumes final _ =>
           pendingSegments final = [] /\ pendingTokens final = 0%Z
       end
    /\ (forall state,
           match observeNow_finish roughTextTokenizer omConfig state task backend now with
           | ObserveDone final _ => pendingSegments final = []
           | ObserveAwaitsReflect final _ => pendingSegments final = []
           | ObserveResumes final _ => pendingSegments final = []
           end).
Proof.
  intros tok omConfig state0 opt state1 task backend now out segId segCreatedAt
         segText segTokens rid now' Hbegin Hout Hfull state2.
  apply observeNow_begin_started in Hbegin as (_ & _ & -> & Htranscript).
  split; [exact Htranscript|]. split; [|split].
  - eexists. split; reflexivity.
  - now apply (observeNow_finish_clears tok omConfig state2 task backend now Hout).
  - intros state.
    pose proof (observeNow_finish_clears tok omConfig state task backend now Hout Hfull)
      as H.
    destruct (observeNow_finish tok omConfig state task backend now);
      [apply H|apply H|apply H].
Qed.



(** C4, as stated, fails: the run is started on the segment of turn 1, the
    segment of turn 2 is appended while it is in flight, and after the
    successful completion the buffer is empty. *)
Lemma append_during_run_counterexample :
  let state0 := oneSegmentState (js "turn 1") 10 in
  let state1 := set_isBufferingObservation true state0 in
  let task := {| transcript := js "turn 1"; inputTokens := 10;
                 triggerAutoReflect := true |} in
  let state2 := pushPendingSegment state1 None None (js "turn 2") 20
                                   (js "seg_2") (js "t1") in
  observeNow_begin state0 true = Started state1 task
  /\ map text (pendingSegments state2) = [js "turn 1"; js "turn 2"]
  /\ match observeNow_finish sampleTokenizer DEFAULT_OM_CONFIG state2 task
                             (cliBackend observedOutput) (js "t2") with
     | ObserveDone final (Returned true) =>
         pendingSegments final = []
         /\ ~ (exists seg, In seg (pendingSegments final) /\ text seg = js "turn 2")
     | _ => False
     end.
Proof.
  split; [vm_compute; reflexivity|].
  split; [vm_compute; reflexivity|].
  vm_compute. split; [reflexivity|]. intros [seg [[] _]].
Qed.


(** An instance of [observer_empty_output_fails]: the model answers with
    text that has no observations section. *)
Lemma observer_empty_output_witness :
  exists final,
    observeNow_finish sampleTokenizer DEFAULT_OM_CONFIG
      (set_isBufferingObservation true (oneSegmentState (js "turn 1") 10))
      {| transcript := js "turn 1"; inputTokens := 10; triggerAutoReflect := true |}
      (cliBackend (js "nothing to report")) (js "t2")
    = ObserveDone final (Returned false)
    /\ observationRuns final = 0%Z
    /\ pendingSegments final <> [].
Proof.
  destruct (@observer_empty_output_fails sampleTokenizer DEFAULT_OM_CONFIG
              (oneSegmentState (js "turn 1") 10) true
              (set_isBufferingObservation true (oneSegmentState (js "turn 1") 10))
              {| transcript := js "turn 1"; inputTokens := 10;
                 triggerAutoReflect := true |}
              (cliBackend (js "nothing to report")) (js "t2")
              (js "nothing to report"))
    as [[final (H1 & H2 & _ & _ & _ & _ & _ & H3 & _)] _].
  - vm_compute. reflexivity.
  - vm_compute. reflexivity.
  - vm_compute. reflexivity.
  - exists final. split; [exact H1|]. split; [exact H2|exact H3].
Defined.

(** An instance of [observer_success_clears_buffer]. *)
Lemma observer_success_clears_witness :
  match observeNow_finish sampleTokenizer DEFAULT_OM_CONFIG
          (pushPendingSegment
             (set_isBufferingObservation true (oneSegmentState (js "turn 1") 10))
             None None (js "turn 2") 20 (js "seg_2") (js "t1"))
          {| transcript := js "turn 1"; inputTokens := 10; triggerAutoReflect := true |}
          (cliBackend observedOutput) (js "t2") with
  | ObserveDone final outcome =>
      outcome = Returned true /\ pendingSegments final = [] /\ pendingTokens final = 0%Z
  | ObserveAwaitsReflect final _ =>
      pendingSegments final = [] /\ pendingTokens final = 0%Z
  | ObserveResumes final _ =>
      pendingSegments final = [] /\ pendingTokens final = 0%Z
  end.
Proof.
  assert (Hbegin : observeNow_begin (oneSegmentState (js "turn 1") 10) true
                   = Started (set_isBufferingObservation true
                                (oneSegmentState (js "turn 1") 10))
                             {| transcript := js "turn 1"; inputTokens := 10;
                                triggerAutoReflect := true |})
    by (vm_compute; reflexivity).
  assert (Hout : observerChannels (cliBackend observedOutput) = ChannelText observedOutput)
    by (vm_compute; reflexivity).
  assert (Hfull : truthy (trim (parsed_observations (parseOmSections observedOutput)))
                  = true)
    by (vm_compute; reflexivity).
  pose proof (@observer_success_clears_buffer sampleTokenizer DEFAULT_OM_CONFIG
                _ _ _ _ _ (js "t2") _
                None None (js "turn 2") 20 (js "seg_2") (js "t1")
                Hbegin Hout Hfull) as H.
  destruct H as (_ & _ & H & _). exact H.
Defined.

Lemma pushPendingSegment_total state a b c d e f :
  pendingTokens (pushPendingSegment state a b c d e f)
  = totalTokens (pendingSegments (pushPendingSegment state a b c d e f)).
Proof. reflexivity. Qed.

Lemma pushPendingSegment_nonempty state a b c d e f :
  pendingSegments (pushPendingSegment state a b c d e f) <> [].
Proof. simpl. intros H. apply app_eq_nil in H as [_ H]. discriminate. Qed.

(** C6.  After the append of a turn's segment, when the auto-observe
    threshold is positive, no Observer run is active and the pending
    tokens have reached the threshold, the handler starts an Observer run
    on the whole buffer; with a threshold of 0 it starts none.  The append
    before a compaction starts a run whenever none is active.  One segment
    of 5,000 tokens followed by a turn of 4,000 against the default
    threshold of 8,000 starts a run. *)
Theorem auto_observe_on_threshold :
  forall (roughTextTokenizer : jsstring -> Z) (STORAGE_SCOPE : StorageScope)
         (omConfig : OmConfig) (state : OmState)
         (segText : jsstring) (turnTokenEstimate : Z) (rid now : jsstring),
    let appended := pushPendingSegment state None None segText turnTokenEstimate rid now in
    let threshold := autoObservePendingTokenThreshold omConfig in
    let total := totalTokens (pendingSegments appended) in
    (0 < threshold ->
     isBufferingObservation state = false ->
     threshold <= total ->
     turn_end_begin roughTextTokenizer STORAGE_SCOPE omConfig state segText
                    turnTokenEstimate rid now
     = (set_isBufferingObservation true appended,
        Some {| transcript := buildTranscriptFromSegments (pendingSegments appended);
                inputTokens := total;
                triggerAutoReflect := true |}))%Z
    /\ (threshold = 0%Z ->
        turn_end_begin roughTextTokenizer STORAGE_SCOPE omConfig state segText
                       turnTokenEstimate rid now
        = (persistState roughTextTokenizer STORAGE_SCOPE appended, None))
    /\ (forall batch,
           isBufferingObservation state = false ->
           exists state' task,
             before_compact_begin roughTextTokenizer state batch rid now
             = (state', Some task)
             /\ isBufferingObservation state' = true)
    /\ (let pending := oneSegmentState (js "turn 1") 5000 in
        autoObservePendingTokenThreshold DEFAULT_OM_CONFIG = 8000%Z
        /\ totalTokens (pendingSegments
                          (pushPendingSegment pending None None (js "turn 2") 4000
                                              (js "seg_2") (js "t1"))) = 9000%Z
        /\ exists started task,
            turn_end_begin roughTextTokenizer STORAGE_SCOPE DEFAULT_OM_CONFIG pending
                           (js "turn 2") 4000 (js "seg_2") (js "t1")
            = (started, Some task)
            /\ isBufferingObservation started = true).
Proof.
  intros tok scope omConfig state segText est rid now appended threshold total.
  split; [|split; [|split]].
  - intros Hpos Hflag Hreach. unfold turn_end_begin. cbv zeta.
    fold appended. fold threshold.
    change (pendingTokens appended) with total.
    assert (E1 : (0 <? threshold)%Z = true) by now apply Z.ltb_lt.
    assert (E2 : (threshold <=? total)%Z = true) by now apply Z.leb_le.
    assert (E3 : (0 <? length (pendingSegments appended))%nat = true).
    { apply Nat.ltb_lt. unfold appended. simpl. rewrite length_app. simpl. lia. }
    rewrite E1, E2, E3. simpl andb. cbv iota.
    rewrite observeNow_begin_starts.
    + reflexivity.
    + apply pushPendingSegment_nonempty.
    + exact Hflag.
  - intros Hzero. unfold turn_end_begin. cbv zeta. fold appended. fold threshold.
    rewrite Hzero. reflexivity.
  - intros batch Hflag. unfold before_compact_begin.
    rewrite observeNow_begin_starts.
    + eexists. eexists. split; reflexivity.
    + apply pushPendingSegment_nonempty.
    + exact Hflag.
  - split; [reflexivity|]. split; [reflexivity|].
    eexists. eexists. split; reflexivity.
Qed.

(** An instance of [auto_observe_on_threshold]: 9,000 pending tokens
    against the default threshold. *)
Lemma auto_observe_witness :
  exists started task,
    turn_end_begin sampleTokenizer ScopeThread DEFAULT_OM_CONFIG
                   (oneSegmentState (js "turn 1") 5000)
                   (js "turn 2") 4000 (js "seg_2") (js "t1")
    = (started, Some task)
    /\ isBufferingObservation started = true.
Proof.
  destruct (auto_observe_on_threshold sampleTokenizer ScopeThread DEFAULT_OM_CONFIG
              (oneSegmentState (js "turn 1") 5000)
              (js "turn 2") 4000 (js "seg_2") (js "t1")) as (H & _).
  eexists. eexists. split.
  - apply H.
    + reflexivity.
    + reflexivity.
    + vm_compute. discriminate.
  - reflexivity.
Defined.

(** ** The pending buffer across runs, reloads and resets *)


Section BufferFacts.
Local Open Scope Z_scope.

Variable roughTextTokenizer : jsstring -> Z.
Variable STORAGE_SCOPE : StorageScope.


Lemma fold_tokens_acc segments acc :
  fold_left (fun sum s => sum + tokens s) segments acc
  = acc + totalTokens segments.
Proof.
  unfold totalTokens. revert acc.
  induction segments as [|seg segs IH]; intros acc; simpl; [lia|].
  rewrite IH, (IH (tokens seg)). lia.
Qed.

Lemma totalTokens_app segs seg :
  totalTokens (segs ++ [seg]) = totalTokens segs + tokens seg.
Proof.
  unfold totalTokens. rewrite fold_left_app. simpl. reflexivity.
Qed.

Lemma totalTokens_lower segments :
  Forall (fun seg => 1 <= tokens seg) segments ->
  Z.of_nat (length segments) <= totalTokens segments.
Proof.
  induction 1 as [|seg segs Hseg _ IH].
  - reflexivity.
  - unfold totalTokens in *. simpl fold_left. rewrite fold_tokens_acc.
    unfold totalTokens. simpl length. lia.
Qed.

Lemma pushPendingSegment_segments state a b segText segTokens rid now :
  exists seg,
    pendingSegments (pushPendingSegment state a b segText segTokens rid now)
    = pendingSegments state ++ [seg]
    /\ text seg = segText
    /\ tokens seg = Z.max 1 segTokens.
Proof. eexists. split; [reflexivity|]. split; reflexivity. Qed.

Lemma pushPendingSegment_bufferOk state a b c d e f :
  Forall (fun seg => 1 <= tokens seg) (pendingSegments state) ->
  bufferOk (pushPendingSegment state a b c d e f).
Proof.
  intros H. split; [|reflexivity].
  simpl. apply Forall_app. split; [exact H|].
  constructor; [simpl; lia|constructor].
Qed.

Lemma persistState_bufferOk state :
  Forall (fun seg => 1 <= tokens seg) (pendingSegments state) ->
  bufferOk (persistState roughTextTokenizer STORAGE_SCOPE state).
Proof. intros H. split; [exact H|reflexivity]. Qed.

Lemma observeNow_finish_bufferOk omConfig state task backend now :
  bufferOk state ->
  match observeNow_finish roughTextTokenizer omConfig state task backend now with
  | ObserveDone state' _ => bufferOk state'
  | ObserveAwaitsReflect state' _ => bufferOk state'
  | ObserveResumes state' _ => bufferOk state'
  end.
Proof.
  intros Hok.
  destruct (observerChannels backend) as [| |out] eqn:Hout.
  - unfold observeNow_finish, runObserverCall. rewrite Hout. exact Hok.
  - unfold observeNow_finish, runObserverCall. rewrite Hout. exact Hok.
  - destruct (truthy (trim (parsed_observations (parseOmSections out)))) eqn:Hfull.
    + pose proof (observeNow_finish_clears roughTextTokenizer omConfig state task
                    backend now Hout Hfull) as H.
      destruct (observeNow_finish roughTextTokenizer omConfig state task backend now)
        as [state' o|state' rtask|state' reflected].
      * destruct H as (_ & H1 & H2). split; [rewrite H1; constructor|].
        rewrite H1, H2. reflexivity.
      * destruct H as (H1 & H2). split; [rewrite H1; constructor|].
        rewrite H1, H2. reflexivity.
      * destruct H as (H1 & H2). split; [rewrite H1; constructor|].
        rewrite H1, H2. reflexivity.
    + rewrite (observeNow_finish_empty roughTextTokenizer omConfig state task
                 backend now Hout Hfull). exact Hok.
Qed.

Lemma updateTaskAndResponse_buffer parsed state :
  pendingSegments (updateTaskAndResponse parsed state) = pendingSegments state
  /\ pendingTokens (updateTaskAndResponse parsed state) = pendingTokens state.
Proof.
  update_cases parsed; split; reflexivity.
Qed.

Lemma reflectNow_try_bufferOk omConfig state task result now :
  bufferOk state ->
  bufferOk (fst (reflectNow_try roughTextTokenizer STORAGE_SCOPE omConfig state
                                task result now)).
Proof.
  intros Hok. unfold reflectNow_try. destruct result as [| |parsed]; try exact Hok.
  destruct (truthy (trim (parsed_observations parsed))); simpl negb; cbv iota;
    [|exact Hok].
  apply persistState_bufferOk. simpl.
  rewrite (proj1 (updateTaskAndResponse_buffer parsed _)). exact (proj1 Hok).
Qed.

Lemma reflectNow_finish_bufferOk omConfig state task result now :
  bufferOk state ->
  bufferOk (fst (reflectNow_finish roughTextTokenizer STORAGE_SCOPE omConfig state
                                   task result now)).
Proof.
  intros Hok. unfold reflectNow_finish.
  pose proof (reflectNow_try_bufferOk omConfig task result now Hok) as H.
  destruct (reflectNow_try roughTextTokenizer STORAGE_SCOPE omConfig state task result now).
  exact H.
Qed.

End BufferFacts.

Section StoreFacts.
Local Open Scope Z_scope.

Variable roughTextTokenizer : jsstring -> Z.
Variable STORAGE_SCOPE : StorageScope.

Lemma coerceSegment_toJson randomIdAt nowAt seg i :
  coerceSegment randomIdAt nowAt (segmentToJson seg) i = seg.
Proof. destruct seg. reflexivity. Qed.

Lemma mapIndexed_coerce_toJson randomIdAt nowAt segments i :
  mapIndexed (coerceSegment randomIdAt nowAt) i (map segmentToJson segments) = segments.
Proof.
  revert i. induction segments as [|seg segs IH]; intros i; simpl; [reflexivity|].
  now rewrite coerceSegment_toJson, IH.
Qed.

Lemma getField_pendingSegments state :
  getField (stateToJson state) "pendingSegments"
  = VArr (map segmentToJson (pendingSegments state)).
Proof.
  unfold stateToJson.
  destruct (currentTask state), (suggestedResponse state), (lastObservedAt state);
    reflexivity.
Qed.

(** Reading a snapshot back restores the pending segments as they were. *)
Lemma coerceState_toJson_segments randomIdAt nowAt state :
  pendingSegments (coerceState STORAGE_SCOPE randomIdAt nowAt (stateToJson state))
  = pendingSegments state.
Proof.
  change (pendingSegments (coerceState STORAGE_SCOPE randomIdAt nowAt (stateToJson state)))
    with (match getField (stateToJson state) "pendingSegments" with
          | VArr items => mapIndexed (coerceSegment randomIdAt nowAt) 0 items
          | _ => []
          end).
  rewrite getField_pendingSegments. apply mapIndexed_coerce_toJson.
Qed.

Lemma coerceState_flags randomIdAt nowAt raw :
  isBufferingObservation (coerceState STORAGE_SCOPE randomIdAt nowAt raw) = false
  /\ isBufferingReflection (coerceState STORAGE_SCOPE randomIdAt nowAt raw) = false
  /\ pendingTokens (coerceState STORAGE_SCOPE randomIdAt nowAt raw) = 0.
Proof. destruct raw; repeat split. Qed.

Lemma fold_last (A B : Type) (f : A -> B) (xs : list A) (start : option B) :
  fold_left (fun _ x => Some (f x)) xs start
  = match rev xs with
    | [] => start
    | x :: _ => Some (f x)
    end.
Proof.
  revert start. induction xs as [|x r IH]; intros start; simpl; [reflexivity|].
  rewrite IH. destruct (rev r) as [|y t]; reflexivity.
Qed.

(** The state [loadState] recovers is a coerced payload or the initial
    state, with the counters recomputed. *)
Lemma loadState_cases randomIdAt nowAt sqliteRow branch :
  exists loaded,
    loadState STORAGE_SCOPE randomIdAt nowAt sqliteRow branch
    = recomputePendingCounters loaded
    /\ (loaded = createInitialState STORAGE_SCOPE
        \/ exists raw,
            loaded = coerceState STORAGE_SCOPE randomIdAt nowAt raw
            /\ (sqliteRow = Some raw \/ In raw branch)).
Proof.
  unfold loadState. destruct sqliteRow as [raw|]; simpl.
  - eexists. split; [reflexivity|]. right. exists raw. split; [reflexivity|now left].
  - rewrite fold_last. destruct (rev branch) as [|raw t] eqn:E.
    + eexists. split; [reflexivity|]. now left.
    + eexists. split; [reflexivity|]. right. exists raw. split; [reflexivity|].
      right. apply in_rev. rewrite E. now left.
Qed.

End StoreFacts.

Section ReachableFacts.
Local Open Scope Z_scope.

Variable roughTextTokenizer : jsstring -> Z.
Variable STORAGE_SCOPE : StorageScope.



Lemma goodSnapshot_of state :
  bufferOk state -> goodSnapshot (stateToJson state).
Proof. intros [H _]. exists state. split; [reflexivity|exact H]. Qed.

Lemma reflectSnapshot_good (written : OmState * Outcome) :
  bufferOk (fst written) -> Forall goodSnapshot (reflectSnapshot written).
Proof.
  intros H. destruct written as [state [[|]|]]; simpl; try constructor.
  - now apply goodSnapshot_of.
  - constructor.
Qed.

Lemma run_step_systemOk s s' :
  systemOk s -> run_step roughTextTokenizer STORAGE_SCOPE s s' -> systemOk s'.
Proof.
  intros [Hbuf Hsnap] Hstep.
  run_step_cases Hstep;
    unfold systemOk; simpl.
  - split; [|exact Hsnap]. apply pushPendingSegment_bufferOk. exact (proj1 Hbuf).
  - assert (H : bufferOk state) by (apply persistState_bufferOk; exact (proj1 Hbuf)).
    split; [exact H|]. constructor; [now apply goodSnapshot_of|exact Hsnap].
  - split; assumption.
  - apply observeNow_begin_started in Hbegin as (_ & _ & -> & _). split; assumption.
  - pose proof (observeNow_finish_bufferOk roughTextTokenizer (sys_config s) task
                  backend now Hbuf) as H.
    rewrite Hfinish in H. split; assumption.
  - pose proof (observeNow_finish_bufferOk roughTextTokenizer (sys_config s) task
                  backend now Hbuf) as H.
    rewrite Hfinish in H. split; assumption.
  - pose proof (observeNow_finish_bufferOk roughTextTokenizer (sys_config s) task
                  backend now Hbuf) as H.
    rewrite Hfinish in H. split; assumption.
  - split.
    + now apply reflectNow_finish_bufferOk.
    + apply Forall_app. split; [|exact Hsnap].
      apply reflectSnapshot_good. now apply reflectNow_try_bufferOk.
  - split; [|exact Hsnap]. destruct reflected; exact Hbuf.
  - apply reflectNow_begin_started in Hbegin as (_ & _ & _ & ->). split; assumption.
  - split.
    + now apply reflectNow_finish_bufferOk.
    + apply Forall_app. split; [|exact Hsnap].
      apply reflectSnapshot_good. now apply reflectNow_try_bufferOk.
Qed.

Lemma store_step_systemOk s s' :
  systemOk s -> store_step roughTextTokenizer STORAGE_SCOPE s s' -> systemOk s'.
Proof.
  intros [Hbuf Hsnap] Hstep.
  destruct Hstep as [s randomIdAt nowAt sqliteRow branch Hrow Hbranch | s state];
    unfold systemOk; simpl.
  - split; [|exact Hsnap].
    destruct (loadState_cases STORAGE_SCOPE randomIdAt nowAt sqliteRow branch)
      as (loaded & -> & Hloaded).
    split; [|reflexivity]. simpl.
    destruct Hloaded as [->|(raw & -> & Hraw)]; [constructor|].
    assert (Hin : In raw (snapshots s)) by (destruct Hraw; auto).
    rewrite Forall_forall in Hsnap.
    destruct (Hsnap raw Hin) as (state & -> & Hstate).
    now rewrite coerceState_toJson_segments.
  - assert (H : bufferOk state).
    { apply persistState_bufferOk. constructor. }
    split; [exact H|]. constructor; [now apply goodSnapshot_of|exact Hsnap].
Qed.

Lemma reachable_systemOk s :
  reachable roughTextTokenizer STORAGE_SCOPE s -> systemOk s.
Proof.
  induction 1 as [|s s' _ IH Hstep|s s' _ IH Hstep].
  - split; [split; [constructor|reflexivity]|constructor].
  - exact (run_step_systemOk IH Hstep).
  - exact (store_step_systemOk IH Hstep).
Qed.

End ReachableFacts.

(** C9.  A segment appended through [pushPendingSegment] counts
    [max(1, tokens)] tokens, hence at least 1; in every state the extension
    can reach -- by appends, runs, snapshots, reloads of its own snapshots
    and resets -- [pendingTokens] is at least the number of pending
    segments, and an append strictly increases [pendingTokens]. *)
Theorem pending_segments_count_tokens :
  forall (roughTextTokenizer : jsstring -> Z) (STORAGE_SCOPE : StorageScope),
    (forall state segId segCreatedAt segText segTokens rid now,
        exists seg,
          pendingSegments (pushPendingSegment state segId segCreatedAt segText
                                              segTokens rid now)
          = pendingSegments state ++ [seg]
          /\ tokens seg = Z.max 1 segTokens
          /\ (1 <= tokens seg)%Z)
    /\ (forall s,
           reachable roughTextTokenizer STORAGE_SCOPE s ->
           (Z.of_nat (length (pendingSegments (sys_state s)))
            <= pendingTokens (sys_state s))%Z)
    /\ (forall s segId segCreatedAt segText segTokens rid now,
           reachable roughTextTokenizer STORAGE_SCOPE s ->
           (pendingTokens (sys_state s)
            < pendingTokens (pushPendingSegment (sys_state s) segId segCreatedAt
                                                segText segTokens rid now))%Z).
Proof.
  intros tok scope. split; [|split].
  - intros. eexists. split; [reflexivity|]. split; [reflexivity|]. simpl. lia.
  - intros s Hreach. destruct (reachable_systemOk Hreach) as [[Hsegs Htotal] _].
    rewrite Htotal. now apply totalTokens_lower.
  - intros s segId segCreatedAt segText segTokens rid now Hreach.
    destruct (reachable_systemOk Hreach) as [[_ Htotal] _].
    rewrite Htotal.
    change (pendingTokens (pushPendingSegment (sys_state s) segId segCreatedAt
                                              segText segTokens rid now))
      with (totalTokens (pendingSegments (pushPendingSegment (sys_state s) segId
                                            segCreatedAt segText segTokens rid now))).
    destruct (pushPendingSegment_segments (sys_state s) segId segCreatedAt segText
                segTokens rid now) as (seg & -> & _ & Hseg).
    rewrite totalTokens_app, Hseg. lia.
Qed.

(** An instance of [pending_segments_count_tokens] at the initial system:
    a segment estimated at 0 tokens still raises [pendingTokens]. *)
Lemma pending_segments_witness :
  (Z.of_nat (length (pendingSegments (sys_state (initialSystem ScopeThread))))
   <= pendingTokens (sys_state (initialSystem ScopeThread)))%Z
  /\ (pendingTokens (sys_state (initialSystem ScopeThread))
      < pendingTokens (pushPendingSegment (sys_state (initialSystem ScopeThread))
                                          None None (js "turn 1") 0
                                          (js "seg_1") (js "t0")))%Z.
Proof.
  destruct (pending_segments_count_tokens sampleTokenizer ScopeThread) as (_ & H2 & H3).
  split.
  - apply H2. apply reach_init.
  - apply H3. apply reach_init.
Defined.

(** C10.  Whatever the persisted data, the state [loadState] recovers has
    both mutual-exclusion flags cleared and [pendingTokens] equal to the
    sum over its segment list; an Observer run on it starts as soon as
    there is a pending segment, and a Reflector run as soon as reflection
    is enabled and there are observations: a flag that was set when the
    state was persisted blocks neither. *)
Theorem recovery_resets_flags :
  forall (STORAGE_SCOPE : StorageScope) (randomIdAt nowAt : nat -> jsstring)
         (sqliteRow : option JsVal) (branch : list JsVal),
    let state := loadState STORAGE_SCOPE randomIdAt nowAt sqliteRow branch in
    isBufferingObservation state = false
    /\ isBufferingReflection state = false
    /\ pendingTokens state = totalTokens (pendingSegments state)
    /\ (forall opt,
           observeNow_begin state opt
           = if (length (pendingSegments state) =? 0)%nat then Skipped
             else Started (set_isBufferingObservation true state)
                    {| transcript := buildTranscriptFromSegments (pendingSegments state);
                       inputTokens := pendingTokens state;
                       triggerAutoReflect := opt |})
    /\ (forall omConfig a r sl,
           reflectNow_begin omConfig state a r sl
           = if negb (enableReflection omConfig) then Skipped
             else if negb (truthy (trim (observations state))) then Skipped
             else Started (set_isBufferingReflection true state)
                    {| beforeObservations := observations state;
                       beforeTokens := observationTokens state;
                       aggressive := a;
                       reason := if truthy r then r else js "manual";
                       silentIfSkipped := sl |}).
Proof.
  intros scope randomIdAt nowAt sqliteRow branch state.
  destruct (loadState_cases scope randomIdAt nowAt sqliteRow branch)
    as (loaded & Hload & Hloaded).
  fold state in Hload.
  assert (Hflags : isBufferingObservation loaded = false
                   /\ isBufferingReflection loaded = false).
  { destruct Hloaded as [->|(raw & -> & _)]; [split; reflexivity|].
    destruct (coerceState_flags scope randomIdAt nowAt raw) as (H1 & H2 & _).
    split; assumption. }
  destruct Hflags as [Hobs Hrefl].
  assert (Hobs' : isBufferingObservation state = false) by (rewrite Hload; exact Hobs).
  assert (Hrefl' : isBufferingReflection state = false) by (rewrite Hload; exact Hrefl).
  split; [exact Hobs'|]. split; [exact Hrefl'|]. split; [now rewrite Hload|]. split.
  - intros opt. unfold observeNow_begin. rewrite Hobs'. reflexivity.
  - intros omConfig a r sl. unfold reflectNow_begin. rewrite Hrefl'. reflexivity.
Qed.

(** ** Token budgets of the core and relevant selection *)



Section BudgetFacts.
Local Open Scope Z_scope.

Variable roughTextTokenizer : jsstring -> Z.

Lemma tokenSum_app a b :
  tokenSum roughTextTokenizer (a ++ b)
  = tokenSum roughTextTokenizer a + tokenSum roughTextTokenizer b.
Proof. induction a as [|x a IH]; simpl; [reflexivity|]. rewrite IH. lia. Qed.

Lemma tokenSum_rev a :
  tokenSum roughTextTokenizer (rev a) = tokenSum roughTextTokenizer a.
Proof.
  induction a as [|x a IH]; simpl; [reflexivity|].
  rewrite tokenSum_app, IH. simpl. lia.
Qed.

(** The loop keeps a prefix of the lines it is given, and what it keeps
    beyond one line fits the budget. *)
Lemma trimLinesLoop_spec maxTokens lines :
  forall out used,
    used = tokenSum roughTextTokenizer out ->
    ((length out <= 1)%nat \/ used <= maxTokens) ->
    exists kept,
      trimLinesLoop roughTextTokenizer maxTokens lines out used = out ++ kept
      /\ (exists dropped, lines = kept ++ dropped)
      /\ ((length (out ++ kept) <= 1)%nat
          \/ tokenSum roughTextTokenizer (out ++ kept) <= maxTokens)
      /\ (out = [] -> lines <> [] -> kept <> []).
Proof.
  induction lines as [|l rest IH]; intros out used Hused Hfit; simpl.
  - exists []. rewrite app_nil_r. split; [reflexivity|]. split; [now exists []|].
    split; [subst used; exact Hfit|]. congruence.
  - destruct ((0 <? length out)%nat && (maxTokens <? used + roughTextTokenizer l)) eqn:Hstop.
    + exists []. rewrite app_nil_r. split; [reflexivity|]. split; [now exists (l :: rest)|].
      split; [subst used; exact Hfit|].
      intros ->. simpl in Hstop. discriminate.
    + destruct (IH (out ++ [l]) (used + roughTextTokenizer l)) as (kept & E & [dropped Hd] & Hb & _).
      * rewrite tokenSum_app. simpl. lia.
      * apply andb_false_iff in Hstop as [H|H].
        -- apply Nat.ltb_ge in H. left. rewrite length_app. simpl. lia.
        -- apply Z.ltb_ge in H. right. exact H.
      * exists (l :: kept). rewrite E, <- app_assoc. simpl.
        split; [reflexivity|]. split; [exists dropped; now rewrite Hd|].
        split; [now rewrite <- app_assoc in Hb|]. discriminate.
Qed.

Lemma trimLinesToTokenBudget_spec lines maxTokens :
  exists dropped,
    lines = trimLinesToTokenBudget roughTextTokenizer lines maxTokens ++ dropped
    /\ ((length (trimLinesToTokenBudget roughTextTokenizer lines maxTokens) <= 1)%nat
        \/ tokenSum roughTextTokenizer
             (trimLinesToTokenBudget roughTextTokenizer lines maxTokens) <= maxTokens)
    /\ (lines <> [] -> trimLinesToTokenBudget roughTextTokenizer lines maxTokens <> []).
Proof.
  unfold trimLinesToTokenBudget.
  destruct (@trimLinesLoop_spec maxTokens lines [] 0)
    as (kept & E & [dropped Hd] & Hb & Hne).
  - reflexivity.
  - left. simpl. lia.
  - rewrite E. simpl in *. exists dropped. split; [exact Hd|]. split; [exact Hb|].
    intros H. now apply Hne.
Qed.



End BudgetFacts.


Lemma rev_singleton (A : Type) (xs : list A) (x : A) :
  rev xs = [x] -> xs = [x].
Proof.
  intros H. apply (f_equal (@rev A)) in H. now rewrite rev_involutive in H.
Qed.


Example selection_example :
  let state := set_observations
                 (js "* user prefers tabs" ++ [NL] ++ js "* build uses make" ++ [NL]
                    ++ js "* the deploy script lives in tools/deploy.sh")
                 (createInitialState ScopeThread) in
  let omConfig := normalizeOmConfig
                    (VObj [(js "coreMemoryMaxTokens", VNum 3);
                           (js "relevantObservationMaxTokens", VNum 5)]) in
  buildCoreAndRelevantObservations sampleTokenizer asciiLower asciiLetterOrNumber
    omConfig state [VObj [(js "role", VStr (js "user"));
                          (js "content", VStr (js "Which tabs does the build use?"))]]
  = ([js "* the deploy script lives in tools/deploy.sh"],
     [js "* build uses make"]).
Proof. vm_compute. reflexivity. Qed.

(** ** Temporal annotation *)

Example utcDateParse_epoch : utcDateParse (js "Jan 1, 1970") = Some 0%Z.
Proof. vm_compute. reflexivity. Qed.

Example utcDateParse_feb12 : utcDateParse (js "Feb 12, 2026") = Some 1770854400000%Z.
Proof. vm_compute. reflexivity. Qed.

Section TemporalFacts.
Local Open Scope Z_scope.

Variable dateParse : jsstring -> option Z.

Lemma days_between date currentDate n :
  n * msPerDay <= currentDate - date < (n + 1) * msPerDay ->
  (currentDate - date) / msPerDay = n.
Proof.
  intros H. symmetry. apply (Z.div_unique _ _ _ (currentDate - date - n * msPerDay)).
  - left. unfold msPerDay in *. lia.
  - lia.
Qed.

Lemma formatRelativeTime_yesterday date currentDate :
  msPerDay <= currentDate - date < 2 * msPerDay ->
  formatRelativeTime date currentDate = js "yesterday".
Proof.
  intros H. unfold formatRelativeTime.
  rewrite (@days_between date currentDate 1) by lia. reflexivity.
Qed.

Lemma formatRelativeTime_11_days date currentDate :
  11 * msPerDay <= currentDate - date < 12 * msPerDay ->
  formatRelativeTime date currentDate = js "1 week ago".
Proof.
  intros H. unfold formatRelativeTime.
  rewrite (@days_between date currentDate 11) by lia. reflexivity.
Qed.

Lemma formatGapBetweenDates_10_days prevDate currDate :
  currDate - prevDate = 10 * msPerDay ->
  formatGapBetweenDates prevDate currDate = Some (js "[1 week later]").
Proof.
  intros H. unfold formatGapBetweenDates.
  rewrite (@days_between prevDate currDate 10) by (unfold msPerDay in *; lia).
  reflexivity.
Qed.

(** A text without an inline date annotation passes through unchanged. *)
Lemma expandInline_no_match text currentDate :
  matchAll inlineDateRegex text = [] ->
  expandInlineEstimatedDates dateParse text currentDate = text.
Proof.
  intros H. unfold expandInlineEstimatedDates, replaceAll. rewrite H. reflexivity.
Qed.

End TemporalFacts.


(** C8.  When the header [Date: Feb 12, 2026] is rendered at any moment of
    the following day, it is annotated [(yesterday)]; two consecutive
    date headers whose dates are 10 days apart get the gap marker line
    [[1 week later]] between them. *)
Theorem temporal_annotation_cases :
  forall (dateParse : jsstring -> option Z) (feb12 currentDate : Z),
    dateParse (js "Feb 12, 2026") = Some feb12 ->
    (feb12 + msPerDay <= currentDate < feb12 + 2 * msPerDay)%Z ->
    formatRelativeTime feb12 currentDate = js "yesterday"
    /\ addRelativeTimeToObservations dateParse header12 currentDate
       = js "Date: Feb 12, 2026 (yesterday)"
    /\ (forall feb2,
           dateParse (js "Feb 2, 2026") = Some feb2 ->
           (feb12 - feb2 = 10 * msPerDay)%Z ->
           formatGapBetweenDates feb2 feb12 = Some (js "[1 week later]")
           /\ addRelativeTimeToObservations dateParse header2then12 currentDate
              = js "Date: Feb 2, 2026 (1 week ago)" ++ [NL]
                  ++ [NL] ++ js "[1 week later]" ++ [NL]
                  ++ js "Date: Feb 12, 2026 (yesterday)").
Proof.
  intros dateParse feb12 currentDate Hparse Hday.
  assert (Hrel : formatRelativeTime feb12 currentDate = js "yesterday")
    by (apply formatRelativeTime_yesterday; lia).
  split; [exact Hrel|]. split.
  - unfold addRelativeTimeToObservations.
    rewrite expandInline_no_match by (vm_compute; reflexivity).
    unfold collectDateHeaders.
    replace (matchAll dateHeaderRegex header12)
      with [( {| before := []; after := header12; pos := 0; caps := [] |},
              {| before := rev header12; after := []; pos := 18;
                 caps := [(2, js "Feb 12, 2026"); (1, js "Date: ")] |} )]
      by (vm_compute; reflexivity).
    cbn [flat_map app].
    change (capture 2 _) with (js "Feb 12, 2026").
    rewrite Hparse. cbn [app rev annotateHeaders dh_date dh_prefix dh_dateStr dh_index dh_match].
    rewrite Hrel. vm_compute. reflexivity.
  - intros feb2 Hparse2 Hapart.
    assert (Hgap : formatGapBetweenDates feb2 feb12 = Some (js "[1 week later]"))
      by now apply formatGapBetweenDates_10_days.
    assert (Hrel2 : formatRelativeTime feb2 currentDate = js "1 week ago")
      by (apply formatRelativeTime_11_days; unfold msPerDay in *; lia).
    split; [exact Hgap|].
    unfold addRelativeTimeToObservations.
    rewrite expandInline_no_match by (vm_compute; reflexivity).
    unfold collectDateHeaders.
    replace (matchAll dateHeaderRegex header2then12)
      with [( {| before := []; after := header2then12; pos := 0; caps := [] |},
              {| before := rev (js "Date: Feb 2, 2026");
                 after := [NL] ++ js "Date: Feb 12, 2026"; pos := 17;
                 caps := [(2, js "Feb 2, 2026"); (1, js "Date: ")] |} );
            ( {| before := NL :: rev (js "Date: Feb 2, 2026");
                 after := js "Date: Feb 12, 2026"; pos := 18; caps := [] |},
              {| before := rev header2then12; after := []; pos := 36;
                 caps := [(2, js "Feb 12, 2026"); (1, js "Date: ")] |} )]
      by (vm_compute; reflexivity).
    cbn [flat_map app].
    change (capture 2 (_, {| before := rev (js "Date: Feb 2, 2026"); after := _;
                             pos := _; caps := _ |}))
      with (js "Feb 2, 2026").
    change (capture 2 (_, {| before := rev header2then12; after := _;
                             pos := _; caps := _ |}))
      with (js "Feb 12, 2026").
    rewrite Hparse, Hparse2.
    cbn [app rev annotateHeaders dh_date dh_prefix dh_dateStr dh_index dh_match].
    rewrite Hrel, Hrel2, Hgap. vm_compute. reflexivity.
Qed.

(** An instance of [temporal_annotation_cases]: a host in UTC, at 01:00 on
    Feb 13, 2026. *)
Lemma temporal_annotation_witness :
  addRelativeTimeToObservations utcDateParse header12 1770944400000
  = js "Date: Feb 12, 2026 (yesterday)"
  /\ addRelativeTimeToObservations utcDateParse header2then12 1770944400000
     = js "Date: Feb 2, 2026 (1 week ago)" ++ [NL]
         ++ [NL] ++ js "[1 week later]" ++ [NL]
         ++ js "Date: Feb 12, 2026 (yesterday)".
Proof.
  assert (H12 : utcDateParse (js "Feb 12, 2026") = Some 1770854400000%Z)
    by (vm_compute; reflexivity).
  assert (H2 : utcDateParse (js "Feb 2, 2026") = Some 1769990400000%Z)
    by (vm_compute; reflexivity).
  assert (Hday : (1770854400000 + msPerDay <= 1770944400000
                  < 1770854400000 + 2 * msPerDay)%Z)
    by (unfold msPerDay; lia).
  destruct (temporal_annotation_cases utcDateParse H12 Hday) as (_ & Hyesterday & Hgap).
  split; [exact Hyesterday|].
  apply (Hgap 1769990400000%Z H2). unfold msPerDay. lia.
Defined.

(* ================================================================== *)
(** ** String equality and list facts shared below *)

Section SharedFacts.

Lemma jseq_eq a b : jseq a b = true <-> a = b.
Proof.
  revert b. induction a as [|c a IH]; intros [|d b]; simpl; split; try congruence.
  - intros H. apply andb_true_iff in H as [H1 H2].
    apply N.eqb_eq in H1. apply IH in H2. congruence.
  - intros H. injection H as -> ->. rewrite N.eqb_refl. simpl. now apply IH.
Qed.

Lemma jseq_refl a : jseq a a = true.
Proof. now apply jseq_eq. Qed.

Lemma has_In set x : has set x = true <-> In x set.
Proof.
  unfold has. rewrite existsb_exists. split.
  - intros (y & Hy & E). apply jseq_eq in E. now subst.
  - intros H. exists x. split; [exact H|apply jseq_refl].
Qed.

Lemma has_false set x : has set x = false <-> ~ In x set.
Proof.
  rewrite <- has_In. destruct (has set x); split; congruence.
Qed.




End SharedFacts.

(** ** Matches are parts of the input *)

Section RegexFacts.

Lemma ext_refl x : ext x x.
Proof. exists []. repeat split. simpl. lia. Qed.

Lemma ext_trans x y z : ext x y -> ext y z -> ext x z.
Proof.
  intros (s & A1 & B1 & P1) (t & A2 & B2 & P2).
  exists (s ++ t). split; [|split].
  - rewrite A1, A2. now rewrite app_assoc.
  - rewrite B2, B1, rev_app_distr. now rewrite app_assoc.
  - rewrite P2, P1, length_app. lia.
Qed.

Lemma ext_caps x y c :
  ext x y ->
  ext x {| before := before y; after := after y; pos := pos y; caps := c |}.
Proof. intros (s & A & B & P). exists s. simpl. auto. Qed.

Lemma advance_ext n x : ext x (advance n x).
Proof.
  revert x. induction n as [|n IH]; intros x; simpl; [apply ext_refl|].
  destruct (after x) as [|c rest] eqn:E; [apply ext_refl|].
  eapply ext_trans; [|apply IH].
  exists [c]. simpl. split; [exact E|]. split; [reflexivity|lia].
Qed.

Lemma ext_pos x y : ext x y -> pos x <= pos y.
Proof. intros (s & _ & _ & P). lia. Qed.

Lemma advance_pos n x c rest :
  after x = c :: rest -> pos x + 1 <= pos (advance (S n) x).
Proof.
  intros E. simpl. rewrite E.
  pose proof (ext_pos (advance_ext n {| before := c :: before x; after := rest;
                                        pos := S (pos x); caps := caps x |})) as H.
  simpl in H. lia.
Qed.

Lemma codePointAt_some s cp n :
  codePointAt s = Some (cp, n) -> exists c rest m, s = c :: rest /\ n = S m.
Proof.
  destruct s as [|c [|d rest]]; simpl; [discriminate| |].
  - intros H. injection H as <- <-. now exists c, [], 0.
  - destruct (isHighSurrogate c && isLowSurrogate d); intros H; injection H as <- <-.
    + now exists c, (d :: rest), 1.
    + now exists c, (d :: rest), 0.
Qed.

Lemma orElse_some (A : Type) (a b : option A) z :
  orElse a b = Some z -> a = Some z \/ b = Some z.
Proof. destruct a; simpl; auto. Qed.

(** Whenever a matcher succeeds, it has called its continuation on a state
    further in the same input, at least [minLen] characters on. *)
Lemma matcher_inv r :
  forall x k z,
    matcher r x k = Some z ->
    exists y, ext x y /\ pos x + minLen r <= pos y /\ k y = Some z.
Proof.
  induction r as [|p|p|a IHa b IHb|a IHa b IHb|greedy min max a IHa|i a IHa|ml|ml| |a IHa];
    intros x k z H; simpl in H.
  - exists x. split; [apply ext_refl|]. split; [simpl; lia|exact H].
  - destruct (after x) as [|c rest] eqn:E; [discriminate|].
    destruct (p c); [|discriminate].
    eexists. split; [|split; [|exact H]].
    + exists [c]. simpl. split; [exact E|]. split; [reflexivity|lia].
    + simpl. lia.
  - destruct (codePointAt (after x)) as [[cp n]|] eqn:E; [|discriminate].
    destruct (p cp); [|discriminate].
    apply codePointAt_some in E as (c & rest & m & E & ->).
    eexists. split; [apply advance_ext|]. split; [|exact H].
    simpl minLen. now apply advance_pos with (c := c) (rest := rest).
  - apply IHa in H as (y & Hy & Ly & H). apply IHb in H as (y' & Hy' & Ly' & H).
    exists y'. split; [eapply ext_trans; eassumption|]. split; [simpl; lia|exact H].
  - apply orElse_some in H as [H|H].
    + apply IHa in H as (y & Hy & Ly & H). exists y. split; [exact Hy|].
      split; [simpl; lia|exact H].
    + apply IHb in H as (y & Hy & Ly & H). exists y. split; [exact Hy|].
      split; [simpl; lia|exact H].
  - simpl minLen. revert H. generalize (min + length (after x) + 1) as fuel. intros fuel.
    revert x min max. induction fuel as [|fuel IH]; intros x min max H; [discriminate|].
    set (lo := fun (min : nat) (max : option nat) =>
                 match max with Some hi => Nat.min min hi | None => min end).
    fold (lo min max).
    assert (Hd : forall y,
               (if Nat.eqb min 0 && Nat.eqb (pos y) (pos x) then None
                else (fix repeat (fuel min : nat) (max : option nat) (x : mstate)
                          {struct fuel} : option mstate :=
                        match fuel with
                        | 0 => None
                        | S fuel' =>
                            match max with
                            | Some 0 => k x
                            | _ =>
                                let d := fun y =>
                                  if Nat.eqb min 0 && Nat.eqb (pos y) (pos x) then None
                                  else repeat fuel' (Nat.pred min) (option_map Nat.pred max) y in
                                if negb (Nat.eqb min 0) then matcher a x d
                                else if greedy then orElse (matcher a x d) (k x)
                                else orElse (k x) (matcher a x d)
                            end
                        end) fuel (Nat.pred min) (option_map Nat.pred max) y) = Some z ->
               exists y', ext y y'
                          /\ pos y + lo (Nat.pred min) (option_map Nat.pred max) * minLen a
                             <= pos y'
                          /\ k y' = Some z).
    { intros y Hy. destruct (Nat.eqb min 0 && Nat.eqb (pos y) (pos x)); [discriminate|].
      now apply IH in Hy. }
    assert (Hm : forall d',
               max <> Some 0 ->
               (forall y, d' y = Some z ->
                          exists y', ext y y'
                                     /\ pos y + lo (Nat.pred min) (option_map Nat.pred max)
                                                * minLen a <= pos y'
                                     /\ k y' = Some z) ->
               matcher a x d' = Some z ->
               exists y', ext x y' /\ pos x + lo min max * minLen a <= pos y'
                          /\ k y' = Some z).
    { intros d' Hmax Hd' Hma. apply IHa in Hma as (y & Hy & Ly & Hma).
      apply Hd' in Hma as (y' & Hy' & Ly' & Hk). exists y'.
      split; [eapply ext_trans; eassumption|]. split; [|exact Hk].
      assert (Hlo : lo min max <= S (lo (Nat.pred min) (option_map Nat.pred max))).
      { unfold lo. destruct max as [[|hi]|]; simpl; lia. }
      nia. }
    assert (Hk : lo min max = 0 -> k x = Some z ->
                 exists y', ext x y' /\ pos x + lo min max * minLen a <= pos y'
                            /\ k y' = Some z).
    { intros E Hkx. exists x. split; [apply ext_refl|]. split; [rewrite E; simpl; lia|exact Hkx]. }
    destruct max as [[|mx]|].
    + apply Hk; [unfold lo; lia|exact H].
    + cbv zeta in H. destruct (Nat.eqb min 0) eqn:E0; simpl negb in H; cbv iota in H.
      * apply Nat.eqb_eq in E0.
        assert (Z0 : lo min (Some (S mx)) = 0) by (unfold lo; lia).
        destruct greedy; apply orElse_some in H as [H|H].
        -- eapply Hm; [discriminate| |exact H]. exact Hd.
        -- now apply Hk.
        -- now apply Hk.
        -- eapply Hm; [discriminate| |exact H]. exact Hd.
      * eapply Hm; [discriminate| |exact H]. exact Hd.
    + cbv zeta in H. destruct (Nat.eqb min 0) eqn:E0; simpl negb in H; cbv iota in H.
      * apply Nat.eqb_eq in E0.
        assert (Z0 : lo min None = 0) by (unfold lo; lia).
        destruct greedy; apply orElse_some in H as [H|H].
        -- eapply Hm; [discriminate| |exact H]. exact Hd.
        -- now apply Hk.
        -- now apply Hk.
        -- eapply Hm; [discriminate| |exact H]. exact Hd.
      * eapply Hm; [discriminate| |exact H]. exact Hd.
  - apply IHa in H as (y & Hy & Ly & H).
    eexists. split; [|split; [|exact H]]; [unfold setCap; now apply ext_caps|exact Ly].
  - destruct (before x) as [|c r]; [|destruct (ml && isLineTerminator c); [|discriminate]];
      (exists x; split; [apply ext_refl|split; [simpl; lia|exact H]]).
  - destruct (after x) as [|c r]; [|destruct (ml && isLineTerminator c); [|discriminate]];
      (exists x; split; [apply ext_refl|split; [simpl; lia|exact H]]).
  - destruct (xorb _ _); [|discriminate].
    exists x; split; [apply ext_refl|split; [simpl; lia|exact H]].
  - destruct (matcher a x Some) as [y|]; [|discriminate].
    eexists. split; [|split; [|exact H]]; [exists []; simpl; repeat split; lia|simpl; lia].
Qed.

Lemma matcher_forward r : forward (minLen r) (fun x => matcher r x Some).
Proof.
  intros x y H. apply matcher_inv in H as (y' & Hy & Ly & E). injection E as <-.
  split; assumption.
Qed.

Lemma search_searchBy r bef p aft :
  search r bef p aft = searchBy (fun x => matcher r x Some) bef p aft.
Proof.
  revert bef p. induction aft as [|c rest IH]; intros bef p; simpl.
  - reflexivity.
  - destruct (matcher r _ Some); [reflexivity|apply IH].
Qed.

Lemma matchAllFrom_By r fuel bef p aft :
  matchAllFrom r fuel bef p aft
  = matchAllFromBy (fun x => matcher r x Some) fuel bef p aft.
Proof.
  revert bef p aft. induction fuel as [|fuel IH]; intros bef p aft; simpl; [reflexivity|].
  rewrite search_searchBy.
  destruct (searchBy _ bef p aft) as [[x y]|]; [|reflexivity].
  f_equal. destruct (Nat.eqb (pos y) (pos x)); [|apply IH].
  destruct (after y); [reflexivity|apply IH].
Qed.

Lemma replaceAll_By r f text :
  replaceAll r f text = replaceAllBy (fun x => matcher r x Some) f text.
Proof. unfold replaceAll, replaceAllBy, matchAll. now rewrite matchAllFrom_By. Qed.

Lemma ext_placed text x y :
  placed text x -> ext x y -> placed text y.
Proof.
  intros [T P] (s & A & B & Q). split.
  - rewrite B, rev_app_distr, rev_involutive, <- app_assoc, <- A. exact T.
  - rewrite Q, B, length_app, length_rev. lia.
Qed.

Lemma placed_step text bef p c rest cs :
  placed text {| before := bef; after := c :: rest; pos := p; caps := cs |} ->
  placed text {| before := c :: bef; after := rest; pos := S p; caps := [] |}.
Proof.
  intros [T P]. simpl in *. split; simpl.
  - now rewrite <- app_assoc.
  - now rewrite P.
Qed.

Lemma searchBy_placed n m text :
  forward n m ->
  forall aft bef p x y,
    placed text {| before := bef; after := aft; pos := p; caps := [] |} ->
    searchBy m bef p aft = Some (x, y) ->
    placed text x /\ placed text y /\ p <= pos x /\ pos x + n <= pos y.
Proof.
  intros Hm. induction aft as [|c rest IH]; intros bef p x y Hp H; simpl in H.
  - destruct (m _) as [y'|] eqn:E; [|discriminate]. injection H as <- <-.
    destruct (Hm _ _ E) as [He Hle]. pose proof (ext_placed Hp He) as Hy.
    simpl in *. auto.
  - destruct (m _) as [y'|] eqn:E.
    + injection H as <- <-.
      destruct (Hm _ _ E) as [He Hle]. pose proof (ext_placed Hp He) as Hy.
      simpl in *. auto.
    + apply IH in H; [|eapply placed_step; exact Hp].
      destruct H as (H1 & H2 & H3 & H4).
      split; [exact H1|split; [exact H2|split; [lia|exact H4]]].
Qed.

Lemma chain_weaken text n cur cur' ms :
  cur' <= cur -> chain text n cur ms -> chain text n cur' ms.
Proof.
  intros Hle H. destruct H; constructor; auto; lia.
Qed.

Lemma matchAllFromBy_chain n m text :
  forward n m ->
  forall fuel bef p aft,
    placed text {| before := bef; after := aft; pos := p; caps := [] |} ->
    chain text n p (matchAllFromBy m fuel bef p aft).
Proof.
  intros Hm. induction fuel as [|fuel IH]; intros bef p aft Hp; simpl; [constructor|].
  destruct (searchBy m bef p aft) as [[x y]|] eqn:E; [|constructor].
  destruct (searchBy_placed Hm Hp E) as (Hx & Hy & H1 & H2).
  constructor; auto.
  destruct (Nat.eqb (pos y) (pos x)).
  - destruct y as [yb ya yp yc]. simpl in *. destruct ya as [|c rest]; [constructor|].
    apply chain_weaken with (cur := S yp); [lia|].
    apply IH. eapply placed_step; exact Hy.
  - apply IH. destruct y as [yb ya yp yc]. destruct Hy as [T P]. split; assumption.
Qed.

Lemma replaceAllBy_chain n m text :
  forward n m -> chain text n 0 (matchAllFromBy m (S (length text)) [] 0 text).
Proof.
  intros Hm. apply matchAllFromBy_chain; [exact Hm|]. split; reflexivity.
Qed.

Lemma matchAll_chain r text : chain text (minLen r) 0 (matchAll r text).
Proof.
  unfold matchAll. rewrite matchAllFrom_By.
  apply replaceAllBy_chain, matcher_forward.
Qed.

Lemma placed_after text x : placed text x -> after x = skipn (pos x) text.
Proof.
  intros [T P]. rewrite <- T, P, <- length_rev.
  rewrite skipn_app, skipn_all, Nat.sub_diag. reflexivity.
Qed.

Lemma placed_le text x : placed text x -> pos x <= length text.
Proof. intros [T P]. rewrite <- T, length_app, length_rev. lia. Qed.

Lemma matched_length text x y :
  placed text x -> placed text y -> pos x <= pos y ->
  length (matched (x, y)) = pos y - pos x.
Proof.
  intros Hx Hy Hle. unfold matched. simpl.
  rewrite (placed_after Hx), length_firstn, length_skipn.
  pose proof (placed_le Hy). lia.
Qed.

Lemma skipn_split (A : Type) a b (xs : list A) :
  a <= b ->
  skipn a xs = firstn (b - a) (skipn a xs) ++ skipn b xs.
Proof.
  intros Hle. rewrite <- (firstn_skipn (b - a) (skipn a xs)) at 1.
  rewrite skipn_skipn. repeat f_equal. lia.
Qed.

(** Replacing every match by itself gives the text back. *)
Lemma splice_id f text n :
  forall ms cur,
    chain text n cur ms ->
    (forall m, In m ms -> f m = matched m) ->
    spliceMatches f cur text ms = skipn cur text.
Proof.
  induction ms as [|[x y] rest IH]; intros cur Hc Hf; simpl; [reflexivity|].
  inversion Hc as [|? ? ? ? Hx Hy H1 H2 Hrest]; subst.
  rewrite Hf by now left. rewrite IH; [|exact Hrest|intros m Hm; apply Hf; now right].
  unfold substring, matched. simpl. rewrite (placed_after Hx).
  rewrite <- (@skipn_split _ (pos x) (pos y) text) by lia.
  symmetry. now apply skipn_split.
Qed.

(** Replacements no longer than a shortest match do not lengthen the
    text. *)
Lemma splice_length f text n :
  forall ms cur,
    chain text n cur ms ->
    (forall m, In m ms -> length (f m) <= n) ->
    length (spliceMatches f cur text ms) <= length text - cur.
Proof.
  induction ms as [|[x y] rest IH]; intros cur Hc Hf; simpl.
  - rewrite length_skipn. lia.
  - inversion Hc as [|? ? ? ? Hx Hy H1 H2 Hrest]; subst.
    rewrite !length_app.
    pose proof (Hf _ (or_introl eq_refl)) as Hm.
    pose proof (IH (pos y) Hrest (fun m Hin => Hf m (or_intror Hin))) as Hr.
    unfold substring. rewrite length_firstn, length_skipn.
    pose proof (placed_le Hy). lia.
Qed.

Lemma replaceAll_id r f text :
  (forall m, f m = matched m) -> replaceAll r f text = text.
Proof.
  intros Hf. unfold replaceAll.
  rewrite (@splice_id f text (minLen r) (matchAll r text) 0);
    [reflexivity|apply matchAll_chain|auto].
Qed.

Lemma replaceAllBy_length n m f text :
  forward n m -> (forall x, length (f x) <= n) ->
  length (replaceAllBy m f text) <= length text.
Proof.
  intros Hm Hf. unfold replaceAllBy.
  pose proof (@splice_length f text n _ 0 (replaceAllBy_chain text Hm)
                (fun x _ => Hf x)) as H.
  lia.
Qed.

Lemma replaceAll_length r f text :
  (forall x, length (f x) <= minLen r) ->
  length (replaceAll r f text) <= length text.
Proof.
  intros Hf. rewrite replaceAll_By.
  apply replaceAllBy_length with (n := minLen r); [apply matcher_forward|exact Hf].
Qed.

End RegexFacts.

(** ** Where a pattern cannot match *)

Section NoMatchFacts.

Lemma literal_none cs tail x k :
  stripPrefix cs (after x) = None ->
  matcher (fold_right Seq tail (map chr cs)) x k = None.
Proof.
  revert x k. induction cs as [|c cs IH]; intros x k H; [discriminate|].
  cbn [map fold_right matcher chr].
  destruct (after x) as [|d r] eqn:E; [reflexivity|].
  cbn [stripPrefix] in H. destruct (c =? d)%N; [|reflexivity].
  apply IH. exact H.
Qed.

Lemma repeat_short (greedy : bool) (p : jschar -> bool) (k : mstate -> option mstate) :
  forall fuel min x,
    run p (after x) < min ->
    (fix repeat (fuel min : nat) (max : option nat) (x : mstate)
         {struct fuel} : option mstate :=
       match fuel with
       | 0 => None
       | S fuel' =>
           match max with
           | Some 0 => k x
           | _ =>
               let d := fun y =>
                 if Nat.eqb min 0 && Nat.eqb (pos y) (pos x) then None
                 else repeat fuel' (Nat.pred min) (option_map Nat.pred max) y in
               if negb (Nat.eqb min 0) then matcher (Cls p) x d
               else if greedy then orElse (matcher (Cls p) x d) (k x)
               else orElse (k x) (matcher (Cls p) x d)
           end
       end) fuel min None x = None.
Proof.
  induction fuel as [|fuel IH]; intros min x Hrun; [reflexivity|].
  destruct min as [|min]; [lia|].
  cbn [Nat.eqb negb andb option_map Nat.pred matcher].
  destruct (after x) as [|c rest] eqn:E; [reflexivity|].
  cbn [run] in Hrun. destruct (p c); [|reflexivity].
  apply IH. cbn [after]. lia.
Qed.

Lemma Rep_short greedy min (p : jschar -> bool) x k :
  run p (after x) < min ->
  matcher (Rep greedy min None (Cls p)) x k = None.
Proof. intros H. cbn [matcher]. now apply repeat_short. Qed.

Lemma stripPrefix_run c n s :
  stripPrefix (repeat c n) s = None -> run (N.eqb c) s < n.
Proof.
  revert s. induction n as [|n IH]; intros s; simpl; [discriminate|].
  destruct s as [|d r]; [simpl; lia|].
  simpl. destruct (c =? d)%N; [|lia].
  intros H. apply IH in H. lia.
Qed.

Lemma indexOfFrom_none p s :
  forall i, indexOfFrom p s i = None ->
            forall pre suf, s = pre ++ suf -> stripPrefix p suf = None.
Proof.
  induction s as [|c r IH]; intros i H pre suf E.
  - destruct pre; [|discriminate]. simpl in E. subst suf.
    simpl in H. destruct (stripPrefix p []); [discriminate|reflexivity].
  - cbn [indexOfFrom] in H.
    destruct (stripPrefix p (c :: r)) eqn:Hs; [discriminate|].
    destruct pre as [|c' pre]; simpl in E.
    + now subst suf.
    + injection E as _ E. exact (IH _ H pre suf E).
Qed.

Lemma includes_none p s :
  includes p s = false ->
  forall pre suf, s = pre ++ suf -> stripPrefix p suf = None.
Proof.
  unfold includes, indexOf. intros H.
  destruct (indexOfFrom p s 0) eqn:E; [discriminate|].
  exact (@indexOfFrom_none p s 0 E).
Qed.

Lemma searchBy_none m aft :
  (forall bef p cs pre suf,
      aft = pre ++ suf ->
      m {| before := bef; after := suf; pos := p; caps := cs |} = None) ->
  forall bef p, searchBy m bef p aft = None.
Proof.
  induction aft as [|c rest IH]; intros H bef p; simpl.
  - now rewrite (H bef p [] [] []).
  - rewrite (H bef p [] [] (c :: rest)) by reflexivity.
    apply IH. intros bef' p' cs pre suf E.
    apply (H bef' p' cs (c :: pre) suf). simpl. now rewrite E.
Qed.

Lemma replaceAllBy_none m f text :
  (forall bef p cs pre suf,
      text = pre ++ suf ->
      m {| before := bef; after := suf; pos := p; caps := cs |} = None) ->
  replaceAllBy m f text = text.
Proof.
  intros H. unfold replaceAllBy. cbn [matchAllFromBy].
  now rewrite (@searchBy_none m text H).
Qed.

Lemma replaceAll_none r f text :
  (forall bef p cs pre suf,
      text = pre ++ suf ->
      matcher r {| before := bef; after := suf; pos := p; caps := cs |} Some = None) ->
  replaceAll r f text = text.
Proof. intros H. rewrite replaceAll_By. now apply replaceAllBy_none. Qed.

Lemma matchAll_none r text :
  (forall bef p cs pre suf,
      text = pre ++ suf ->
      matcher r {| before := bef; after := suf; pos := p; caps := cs |} Some = None) ->
  matchAll r text = [].
Proof.
  intros H. unfold matchAll. rewrite matchAllFrom_By. cbn [matchAllFromBy].
  now rewrite (@searchBy_none (fun x => matcher r x Some) text H).
Qed.

End NoMatchFacts.

(** ** Configuration files *)

Section ConfigFacts.
Local Open Scope Z_scope.

Lemma normalize_configOk raw : configOk (normalizeOmConfig raw).
Proof.
  unfold configOk, normalizeOmConfig, coerceNumber. cbn [recentTurnBudgetTokens
    maxObservationItems maxObserverTranscriptChars maxReflectorObservationsChars
    coreMemoryMaxTokens relevantObservationMaxItems relevantObservationMaxTokens
    reflectEveryNObservations reflectWhenObservationTokensOver
    autoObservePendingTokenThreshold DEFAULT_OM_CONFIG].
  split; [destruct (getField raw "recentTurnBudgetTokens"); lia|].
  split; [destruct (getField raw "maxObservationItems"); lia|].
  split; [destruct (getField raw "maxObserverTranscriptChars"); lia|].
  split; [destruct (getField raw "maxReflectorObservationsChars"); lia|].
  split; [destruct (getField raw "coreMemoryMaxTokens"); lia|].
  split; [destruct (getField raw "relevantObservationMaxItems"); lia|].
  split; [destruct (getField raw "relevantObservationMaxTokens"); lia|].
  split; [destruct (getField raw "reflectEveryNObservations"); lia|].
  split; [destruct (getField raw "reflectWhenObservationTokensOver"); lia|].
  destruct (getField raw "autoObservePendingTokenThreshold"); lia.
Qed.

Lemma default_configOk : configOk DEFAULT_OM_CONFIG.
Proof. unfold configOk. simpl. lia. Qed.


Lemma loadOmConfig_configOk projectFile globalFile :
  configOk (fst (loadOmConfig projectFile globalFile)).
Proof.
  unfold loadOmConfig. cbn [loadOmConfigFrom].
  destruct projectFile as [| |raw]; [|apply default_configOk|apply normalize_configOk].
  destruct globalFile as [| |raw];
    [apply default_configOk|apply default_configOk|apply normalize_configOk].
Qed.

End ConfigFacts.

(** ** Snapshots are read back as they were written *)

Section RoundTripFacts.
Local Open Scope Z_scope.

Variable roughTextTokenizer : jsstring -> Z.
Variable STORAGE_SCOPE : StorageScope.

Lemma getField_stateToJson state :
  getField (stateToJson state) "storageScope" = VStr (scopeName (storageScope state))
  /\ getField (stateToJson state) "observations" = VStr (observations state)
  /\ getField (stateToJson state) "observationTokens" = VNum (observationTokens state)
  /\ stringOrUndefined (getField (stateToJson state) "currentTask") = currentTask state
  /\ stringOrUndefined (getField (stateToJson state) "suggestedResponse")
     = suggestedResponse state
  /\ getField (stateToJson state) "observationRuns" = VNum (observationRuns state)
  /\ getField (stateToJson state) "reflectionRuns" = VNum (reflectionRuns state)
  /\ stringOrUndefined (getField (stateToJson state) "lastObservedAt")
     = lastObservedAt state
  /\ getField (stateToJson state) "reflections" = VArr (reflections state).
Proof.
  unfold stateToJson.
  destruct (currentTask state), (suggestedResponse state), (lastObservedAt state);
    (split; [reflexivity|]); (split; [reflexivity|]); (split; [reflexivity|]);
    (split; [reflexivity|]); (split; [reflexivity|]); (split; [reflexivity|]);
    (split; [reflexivity|]); (split; reflexivity).
Qed.

Lemma coerceState_toJson randomIdAt nowAt state :
  (length (reflections state) <= 15)%nat ->
  coerceState STORAGE_SCOPE randomIdAt nowAt (stateToJson state)
  = clearFlags (set_pendingTokens 0 state).
Proof.
  intros Hlen.
  destruct (getField_stateToJson state)
    as (E1 & E2 & E3 & E4 & E5 & E6 & E7 & E8 & E9).
  pose proof (getField_pendingSegments state) as E10.
  change (coerceState STORAGE_SCOPE randomIdAt nowAt (stateToJson state))
    with {| storageScope :=
              match getField (stateToJson state) "storageScope" with
              | VStr s => if jseq s (js "resource") then ScopeResource else ScopeThread
              | _ => ScopeThread
              end;
            observations := stringOr (getField (stateToJson state) "observations") (js "");
            observationTokens :=
              finiteOrZero (getField (stateToJson state) "observationTokens");
            currentTask := stringOrUndefined (getField (stateToJson state) "currentTask");
            suggestedResponse :=
              stringOrUndefined (getField (stateToJson state) "suggestedResponse");
            observationRuns := finiteOrZero (getField (stateToJson state) "observationRuns");
            reflectionRuns := finiteOrZero (getField (stateToJson state) "reflectionRuns");
            lastObservedAt :=
              stringOrUndefined (getField (stateToJson state) "lastObservedAt");
            reflections :=
              match getField (stateToJson state) "reflections" with
              | VArr items => sliceTo 15 items
              | _ => []
              end;
            pendingSegments :=
              match getField (stateToJson state) "pendingSegments" with
              | VArr items => mapIndexed (coerceSegment randomIdAt nowAt) 0 items
              | _ => []
              end;
            pendingTokens := 0;
            isBufferingObservation := false;
            isBufferingReflection := false |}.
  rewrite E1, E2, E3, E4, E5, E6, E7, E8, E9, E10.
  rewrite mapIndexed_coerce_toJson.
  unfold sliceTo. rewrite firstn_all2 by exact Hlen.
  destruct state as [scope obs obsTokens task response oruns rruns last refl segs
                     ptokens fo fr].
  destruct scope; reflexivity.
Qed.

Lemma loadState_snapshot randomIdAt nowAt state branch :
  (length (reflections state) <= 15)%nat ->
  loadState STORAGE_SCOPE randomIdAt nowAt (Some (stateToJson state)) branch
  = clearFlags (recomputePendingCounters state).
Proof.
  intros Hlen. unfold loadState. cbn [option_map].
  rewrite coerceState_toJson by exact Hlen. reflexivity.
Qed.

Lemma loadState_branch randomIdAt nowAt state branch :
  (length (reflections state) <= 15)%nat ->
  loadState STORAGE_SCOPE randomIdAt nowAt None (branch ++ [stateToJson state])
  = clearFlags (recomputePendingCounters state).
Proof.
  intros Hlen. unfold loadState. cbn [option_map].
  rewrite fold_last, rev_app_distr. cbn [rev app].
  rewrite coerceState_toJson by exact Hlen. reflexivity.
Qed.

Lemma recompute_bufferOk state :
  bufferOk state -> recomputePendingCounters state = state.
Proof.
  intros [_ H]. destruct state. unfold recomputePendingCounters, set_pendingTokens.
  simpl in *. unfold totalTokens in H. now rewrite <- H.
Qed.

End RoundTripFacts.

(** ** What a run changes in the document *)

Section EngineFacts.
Local Open Scope Z_scope.

Variable roughTextTokenizer : jsstring -> Z.
Variable STORAGE_SCOPE : StorageScope.

Lemma reflectNow_begin_exact omConfig state a r sl :
  enableReflection omConfig = true ->
  truthy (trim (observations state)) = true ->
  isBufferingReflection state = false ->
  reflectNow_begin omConfig state a r sl
  = Started (set_isBufferingReflection true state)
      {| beforeObservations := observations state;
         beforeTokens := observationTokens state;
         aggressive := a;
         reason := if truthy r then r else js "manual";
         silentIfSkipped := sl |}.
Proof.
  intros H1 H2 H3. unfold reflectNow_begin. rewrite H1, H2, H3. reflexivity.
Qed.

(** The ways [observeNow] goes on once its channels have answered: a
    failed call changes nothing but the flag; a successful one leaves the
    merged document, and goes into the nested reflection unless another
    one is in flight. *)
Lemma observeNow_finish_cases omConfig state task backend now :
  (exists outcome,
      observeNow_finish roughTextTokenizer omConfig state task backend now
      = ObserveDone (set_isBufferingObservation false state) outcome
      /\ outcome <> Returned true)
  \/ (exists parsed,
         truthy (trim (parsed_observations parsed)) = true
         /\ (observeNow_finish roughTextTokenizer omConfig state task backend now
             = ObserveDone
                 (set_isBufferingObservation false
                    (observedState roughTextTokenizer omConfig state parsed now))
                 (Returned true)
             \/ (observeNow_finish roughTextTokenizer omConfig state task backend now
                 = ObserveResumes
                     (observedState roughTextTokenizer omConfig state parsed now)
                     (Returned false)
                 /\ isBufferingReflection state = true)
             \/ (observeNow_finish roughTextTokenizer omConfig state task backend now
                 = ObserveAwaitsReflect
                     (set_isBufferingReflection true
                        (observedState roughTextTokenizer omConfig state parsed now))
                     {| beforeObservations :=
                          observations
                            (observedState roughTextTokenizer omConfig state parsed now);
                        beforeTokens :=
                          observationTokens
                            (observedState roughTextTokenizer omConfig state parsed now);
                        aggressive := false;
                        reason := js "auto-periodic";
                        silentIfSkipped := true |}
                 /\ isBufferingReflection state = false))).
Proof.
  unfold observeNow_finish, runObserverCall.
  destruct (observerChannels backend) as [| |out].
  - left. exists Threw. split; [reflexivity|discriminate].
  - left. exists (Returned false). split; [reflexivity|discriminate].
  - generalize (parseOmSections out). intros parsed.
    destruct (truthy (trim (parsed_observations parsed))) eqn:Hfull.
    + right. exists parsed. split; [exact Hfull|].
      cbn [negb].
      change (recomputePendingCounters
                (set_pendingSegments []
                   (set_observationRuns _ (updateTaskAndResponse parsed _))))
        with (observedState roughTextTokenizer omConfig state parsed now).
      assert (Hflag : isBufferingReflection
                        (observedState roughTextTokenizer omConfig state parsed now)
                      = isBufferingReflection state).
      { unfold observedState. update_cases parsed; reflexivity. }
      set (merged := observedState roughTextTokenizer omConfig state parsed now) in *.
      destruct (triggerAutoReflect task && shouldRunPeriodicReflection omConfig merged)
        eqn:Htrigger; [|now left].
      right.
      apply andb_true_iff in Htrigger as [_ Hshould].
      unfold shouldRunPeriodicReflection in Hshould.
      destruct (enableReflection omConfig) eqn:Henable; [|discriminate].
      destruct (truthy (trim (observations merged))) eqn:Hdoc; [|discriminate].
      destruct (isBufferingReflection merged) eqn:Hm.
      * left. unfold reflectNow_begin. rewrite Henable, Hdoc, Hm. cbn [negb].
        split; [reflexivity|congruence].
      * right. rewrite reflectNow_begin_exact by assumption.
        split; [reflexivity|congruence].
    + left. exists (Returned false). split; [reflexivity|discriminate].
Qed.

Lemma reflectNow_try_cases omConfig state task result now :
  (exists outcome,
      reflectNow_try roughTextTokenizer STORAGE_SCOPE omConfig state task result now
      = (state, outcome)
      /\ outcome <> Returned true)
  \/ (exists parsed,
         truthy (trim (parsed_observations parsed)) = true
         /\ reflectNow_try roughTextTokenizer STORAGE_SCOPE omConfig state task result now
            = (reflectedState roughTextTokenizer STORAGE_SCOPE omConfig state task
                              parsed now, Returned true)).
Proof.
  unfold reflectNow_try. destruct result as [| |parsed].
  - left. exists Threw. split; [reflexivity|discriminate].
  - left. exists (Returned false). split; [reflexivity|discriminate].
  - destruct (truthy (trim (parsed_observations parsed))) eqn:Hfull.
    + right. exists parsed. split; [exact Hfull|reflexivity].
    + left. exists (Returned false). split; [reflexivity|discriminate].
Qed.

Lemma reflectNow_finish_try omConfig state task result now :
  reflectNow_finish roughTextTokenizer STORAGE_SCOPE omConfig state task result now
  = (set_isBufferingReflection false
       (fst (reflectNow_try roughTextTokenizer STORAGE_SCOPE omConfig state task
                            result now)),
     snd (reflectNow_try roughTextTokenizer STORAGE_SCOPE omConfig state task
                         result now)).
Proof.
  unfold reflectNow_finish.
  destruct (reflectNow_try roughTextTokenizer STORAGE_SCOPE omConfig state task result now).
  reflexivity.
Qed.

(** *** Properties of the document that every step of a run keeps *)

Section StepInvariant.

Variable P : OmState -> Prop.
Hypothesis P_push : forall state a b c d e f,
    P state -> P (pushPendingSegment state a b c d e f).
Hypothesis P_persist : forall state,
    P state -> P (persistState roughTextTokenizer STORAGE_SCOPE state).
Hypothesis P_observing : forall state b, P state -> P (set_isBufferingObservation b state).
Hypothesis P_reflecting : forall state b, P state -> P (set_isBufferingReflection b state).
Hypothesis P_observed : forall omConfig state parsed now,
    truthy (trim (parsed_observations parsed)) = true ->
    P state -> P (observedState roughTextTokenizer omConfig state parsed now).
Hypothesis P_reflected : forall omConfig state task parsed now,
    truthy (trim (parsed_observations parsed)) = true ->
    P state ->
    P (reflectedState roughTextTokenizer STORAGE_SCOPE omConfig state task parsed now).

Lemma observeNow_finish_preserves omConfig state task backend now :
  P state ->
  match observeNow_finish roughTextTokenizer omConfig state task backend now with
  | ObserveDone state' _ => P state'
  | ObserveAwaitsReflect state' _ => P state'
  | ObserveResumes state' _ => P state'
  end.
Proof.
  intros HP.
  destruct (observeNow_finish_cases omConfig state task backend now)
    as [(o & -> & _)|(parsed & Hfull & [->|[[-> _]|[-> _]]])].
  - now apply P_observing.
  - apply P_observing. now apply P_observed.
  - now apply P_observed.
  - apply P_reflecting. now apply P_observed.
Qed.

Lemma reflectNow_finish_preserves omConfig state task result now :
  P state ->
  P (fst (reflectNow_finish roughTextTokenizer STORAGE_SCOPE omConfig state task
                            result now)).
Proof.
  intros HP. rewrite reflectNow_finish_try. cbn [fst]. apply P_reflecting.
  destruct (reflectNow_try_cases omConfig state task result now)
    as [(o & -> & _)|(parsed & Hfull & ->)]; cbn [fst]; [exact HP|].
  now apply P_reflected.
Qed.

Lemma run_step_preserves s s' :
  P (sys_state s) -> run_step roughTextTokenizer STORAGE_SCOPE s s' -> P (sys_state s').
Proof.
  intros HP Hstep. run_step_cases Hstep; cbn [sys_state].
  - now apply P_push.
  - now apply P_persist.
  - exact HP.
  - apply observeNow_begin_started in Hbegin as (_ & _ & -> & _). now apply P_observing.
  - pose proof (observeNow_finish_preserves (sys_config s) task backend now HP) as H.
    now rewrite Hfinish in H.
  - pose proof (observeNow_finish_preserves (sys_config s) task backend now HP) as H.
    now rewrite Hfinish in H.
  - pose proof (observeNow_finish_preserves (sys_config s) task backend now HP) as H.
    now rewrite Hfinish in H.
  - now apply reflectNow_finish_preserves.
  - destruct reflected; now apply P_observing.
  - apply reflectNow_begin_started in Hbegin as (_ & _ & _ & ->). now apply P_reflecting.
  - now apply reflectNow_finish_preserves.
Qed.

Lemma runs_to_preserves s s' :
  P (sys_state s) -> runs_to roughTextTokenizer STORAGE_SCOPE s s' -> P (sys_state s').
Proof.
  intros HP Hruns. induction Hruns as [|s s' s'' _ IH Hstep]; [exact HP|].
  exact (run_step_preserves (IH HP) Hstep).
Qed.

End StepInvariant.

Lemma firstn_le (A : Type) n (xs : list A) : (length (firstn n xs) <= n)%nat.
Proof. rewrite length_firstn. lia. Qed.

Lemma reflections_bounded_step s s' :
  (length (reflections (sys_state s)) <= 15)%nat ->
  run_step roughTextTokenizer STORAGE_SCOPE s s' ->
  (length (reflections (sys_state s')) <= 15)%nat.
Proof.
  apply (@run_step_preserves (fun st => (length (reflections st) <= 15)%nat)); auto.
  - intros omConfig state parsed now _ H. unfold observedState.
    update_cases parsed; exact H.
  - intros omConfig state task parsed now _ _. unfold reflectedState.
    cbn [persistState reflections set_storageScope recomputePendingCounters
         set_pendingTokens set_observationTokens set_reflections].
    apply firstn_le.
Qed.

Lemma coerceState_reflections randomIdAt nowAt raw :
  (length (reflections (coerceState STORAGE_SCOPE randomIdAt nowAt raw)) <= 15)%nat.
Proof.
  unfold coerceState.
  destruct raw; cbn [reflections createInitialState length]; try lia.
  - destruct (getField (VArr items) "reflections"); cbn [length]; try lia.
    apply firstn_le.
  - destruct (getField (VObj fields) "reflections"); cbn [length]; try lia.
    apply firstn_le.
Qed.

Lemma reflections_bounded_store s s' :
  store_step roughTextTokenizer STORAGE_SCOPE s s' ->
  (length (reflections (sys_state s')) <= 15)%nat.
Proof.
  intros Hstep.
  destruct Hstep as [s randomIdAt nowAt sqliteRow branch Hrow Hbranch | s state];
    cbn [sys_state].
  - destruct (loadState_cases STORAGE_SCOPE randomIdAt nowAt sqliteRow branch)
      as (loaded & -> & [->|(raw & -> & _)]); cbn [recomputePendingCounters
        set_pendingTokens reflections]; [simpl; lia|].
    apply coerceState_reflections.
  - simpl. lia.
Qed.

Lemma reachable_reflections_bounded s :
  reachable roughTextTokenizer STORAGE_SCOPE s ->
  (length (reflections (sys_state s)) <= 15)%nat.
Proof.
  induction 1 as [|s s' _ IH Hstep|s s' _ IH Hstep].
  - simpl. lia.
  - exact (reflections_bounded_step IH Hstep).
  - exact (reflections_bounded_store Hstep).
Qed.

Lemma runs_to_counters s s' :
  runs_to roughTextTokenizer STORAGE_SCOPE s s' ->
  observationRuns (sys_state s) <= observationRuns (sys_state s')
  /\ reflectionRuns (sys_state s) <= reflectionRuns (sys_state s').
Proof.
  intros Hruns.
  apply (@runs_to_preserves
           (fun st => observationRuns (sys_state s) <= observationRuns st
                      /\ reflectionRuns (sys_state s) <= reflectionRuns st)
           ) with (s := s); auto; try lia.
  - intros omConfig state parsed now _ H. unfold observedState.
    update_cases parsed; simpl; lia.
  - intros omConfig state task parsed now _ H. unfold reflectedState.
    update_cases parsed; simpl; lia.
Qed.

Lemma runs_to_task_kept s s' :
  runs_to roughTextTokenizer STORAGE_SCOPE s s' ->
  (currentTask (sys_state s) <> None -> currentTask (sys_state s') <> None)
  /\ (suggestedResponse (sys_state s) <> None ->
      suggestedResponse (sys_state s') <> None).
Proof.
  intros Hruns.
  apply (@runs_to_preserves
           (fun st => (currentTask (sys_state s) <> None -> currentTask st <> None)
                      /\ (suggestedResponse (sys_state s) <> None ->
                          suggestedResponse st <> None))
           ) with (s := s); auto.
  - intros omConfig state parsed now _ H. unfold observedState.
    update_cases parsed; simpl; split; intros; try discriminate; now apply H.
  - intros omConfig state task parsed now _ H. unfold reflectedState.
    update_cases parsed; simpl; split; intros; try discriminate; now apply H.
Qed.

End EngineFacts.

(** ** A successful run leaves a document within the cap that is not blank *)

Section BlankFacts.
Local Open Scope Z_scope.

Lemma dropWhile_keeps p s c :
  In c s -> p c = false -> In c (dropWhile p s).
Proof.
  induction s as [|d r IH]; simpl; [tauto|].
  intros [->|H] Hc.
  - rewrite Hc. now left.
  - destruct (p d); [now apply IH|now right].
Qed.

Lemma truthy_trim s : truthy (trim s) = true <-> nonBlank s.
Proof.
  split.
  - intros H. destruct (trim s) as [|c r] eqn:E; [discriminate|].
    exists c. split.
    + apply trim_incl. rewrite E. now left.
    + pose proof (trim_trimmed s) as [Hh _]. rewrite E in Hh. exact Hh.
  - intros (c & Hin & Hc).
    assert (H : In c (trim s)).
    { unfold trim, trimEnd, trimStart. apply -> in_rev.
      apply dropWhile_keeps; [|exact Hc]. apply -> in_rev.
      now apply dropWhile_keeps. }
    destruct (trim s); [destruct H|reflexivity].
Qed.

Lemma split_cover sep s c :
  In c s -> c <> sep -> exists piece, In piece (split sep s) /\ In c piece.
Proof.
  induction s as [|d r IH]; simpl; [tauto|].
  intros Hin Hne. destruct (N.eqb_spec d sep) as [->|Hd].
  - destruct Hin as [->|Hin]; [congruence|].
    destruct (IH Hin Hne) as (piece & Hp & Hc). exists piece. split; [now right|exact Hc].
  - pose proof (split_nonempty sep r) as Hs.
    destruct (split sep r) as [|h t] eqn:E; [congruence|].
    destruct Hin as [->|Hin].
    + exists (c :: h). split; [now left|now left].
    + destruct (IH Hin Hne) as (piece & [<-|Hp] & Hc).
      * exists (d :: h). split; [now left|now right].
      * exists piece. split; [now right|exact Hc].
Qed.

Lemma nonBlank_lines s : nonBlank s -> observationLines s <> [].
Proof.
  intros (c & Hin & Hc).
  assert (Hne : c <> NL) by (intros ->; vm_compute in Hc; discriminate).
  destruct (@split_cover NL s c Hin Hne) as (piece & Hp & Hcp).
  assert (Hl : In (trim piece) (observationLines s)).
  { unfold observationLines. apply filter_In. split; [now apply in_map|].
    apply truthy_trim. now exists c. }
  intros E. rewrite E in Hl. destruct Hl.
Qed.

Lemma clean_lines_nonBlank ls :
  ls <> [] -> Forall cleanLine ls -> nonBlank (join [NL] ls).
Proof.
  destruct ls as [|l r]; [congruence|]. intros _ H.
  inversion H as [|? ? (Hne & (Hh & _) & _) _]; subst.
  destruct l as [|c l]; [congruence|]. exists c. split; [|exact Hh].
  destruct r; simpl; now left.
Qed.

(** What a merge leaves when the incoming text is not blank. *)
Lemma merge_nonBlank omConfig D N :
  1 <= maxObservationItems omConfig ->
  nonBlank N ->
  nonBlank (mergeObservationItems omConfig D N)
  /\ Z.of_nat (length (observationLines (mergeObservationItems omConfig D N)))
     <= maxObservationItems omConfig.
Proof.
  intros Hcap HN.
  destruct (merge_lines omConfig D N Hcap) as [E1 E2].
  pose proof (nonBlank_lines HN) as Hlines.
  set (all := observationLines D ++ observationLines N) in *.
  set (kept := lastn _ all) in *.
  assert (Hall : (1 <= length all)%nat).
  { unfold all. rewrite length_app. destruct (observationLines N); [congruence|].
    simpl. lia. }
  assert (Hlen : length kept
                 = Nat.min (Z.to_nat (Z.min (maxObservationItems omConfig)
                                            (Z.of_nat (length all))))
                           (length all))
    by apply lastn_length.
  split.
  - rewrite E1. apply clean_lines_nonBlank.
    + intros E. rewrite E in Hlen. simpl in Hlen. lia.
    + unfold kept, lastn. apply Forall_skipn.
      apply Forall_app; split; apply observationLines_clean.
  - rewrite E2. lia.
Qed.

End BlankFacts.

Section SuccessFacts.
Local Open Scope Z_scope.

Variable roughTextTokenizer : jsstring -> Z.
Variable STORAGE_SCOPE : StorageScope.


Lemma reflectedState_fields omConfig state task parsed now :
  observations (reflectedState roughTextTokenizer STORAGE_SCOPE omConfig state task
                               parsed now)
  = mergeObservationItems omConfig (js "") (parsed_observations parsed)
  /\ observationTokens (reflectedState roughTextTokenizer STORAGE_SCOPE omConfig state
                                       task parsed now)
     = roughTextTokenizer
         (mergeObservationItems omConfig (js "") (parsed_observations parsed))
  /\ observationRuns (reflectedState roughTextTokenizer STORAGE_SCOPE omConfig state
                                     task parsed now)
     = observationRuns state
  /\ reflectionRuns (reflectedState roughTextTokenizer STORAGE_SCOPE omConfig state
                                    task parsed now)
     = reflectionRuns state + 1
  /\ pendingSegments (reflectedState roughTextTokenizer STORAGE_SCOPE omConfig state
                                     task parsed now)
     = pendingSegments state
  /\ exists snapshot,
      reflections (reflectedState roughTextTokenizer STORAGE_SCOPE omConfig state
                                  task parsed now)
      = firstn 15 (snapshot :: reflections state)
      /\ getField snapshot "at" = VStr now
      /\ getField snapshot "beforeTokens" = VNum (beforeTokens task)
      /\ getField snapshot "afterTokens"
         = VNum (roughTextTokenizer
                   (mergeObservationItems omConfig (js "") (parsed_observations parsed))).
Proof.
  unfold reflectedState.
  update_cases parsed;
    (split; [reflexivity|]); (split; [reflexivity|]); (split; [reflexivity|]);
    (split; [reflexivity|]); (split; [reflexivity|]);
    (eexists; split; [reflexivity|]); (split; [reflexivity|]); (split; reflexivity).
Qed.

End SuccessFacts.

(** ** Core and relevant selection: which lines, in which order *)

Section SortFacts.
Local Open Scope Z_scope.

Variable A : Type.
Variable compare : A -> A -> Z.
Hypothesis compare_asym : forall a b, compare a b < 0 -> 0 <= compare b a.
Hypothesis compare_trans :
  forall a b c, compare a b < 0 -> 0 <= compare c b -> 0 <= compare c a.

Lemma insertSorted_perm x sorted :
  Permutation (insertSorted compare x sorted) (x :: sorted).
Proof.
  induction sorted as [|y r IH]; simpl; [reflexivity|].
  destruct (compare x y <? 0); [reflexivity|].
  rewrite IH. apply perm_swap.
Qed.

Lemma sortBy_perm_acc items :
  forall acc, Permutation (fold_left (fun sorted x => insertSorted compare x sorted)
                                     items acc) (acc ++ items).
Proof.
  induction items as [|x r IH]; intros acc; simpl; [now rewrite app_nil_r|].
  rewrite IH, insertSorted_perm. apply Permutation_middle.
Qed.

Lemma sortBy_perm items : Permutation (sortBy compare items) items.
Proof. unfold sortBy. apply (sortBy_perm_acc items []). Qed.

Lemma insertSorted_sorted x sorted :
  StronglySorted (fun a b => 0 <= compare b a) sorted ->
  StronglySorted (fun a b => 0 <= compare b a) (insertSorted compare x sorted).
Proof.
  induction 1 as [|y r Hr IH Hy]; simpl; [repeat constructor|].
  destruct (Z.ltb_spec (compare x y) 0) as [Hlt|Hge].
  - constructor; [constructor; assumption|].
    constructor; [now apply compare_asym|].
    eapply Forall_impl; [|exact Hy]. intros z Hz. cbv beta in *.
    now apply compare_trans with (b := y).
  - constructor; [exact IH|].
    apply Forall_forall. intros z Hz.
    apply (Permutation_in _ (insertSorted_perm x r)) in Hz as [<-|Hz]; [exact Hge|].
    rewrite Forall_forall in Hy. now apply Hy.
Qed.

Lemma sortBy_sorted items :
  StronglySorted (fun a b => 0 <= compare b a) (sortBy compare items).
Proof.
  unfold sortBy.
  assert (H : forall acc, StronglySorted (fun a b => 0 <= compare b a) acc ->
                          StronglySorted (fun a b => 0 <= compare b a)
                            (fold_left (fun sorted x => insertSorted compare x sorted)
                                       items acc)).
  { induction items as [|x r IH]; intros acc Hacc; simpl; [exact Hacc|].
    apply IH. now apply insertSorted_sorted. }
  apply H. constructor.
Qed.

End SortFacts.

Section SelectionFacts.
Local Open Scope Z_scope.

Lemma newSet_acc words :
  forall acc,
    NoDup acc ->
    NoDup (fold_left (fun set w => if has set w then set else set ++ [w]) words acc)
    /\ (forall x, In x (fold_left (fun set w => if has set w then set else set ++ [w])
                                  words acc)
                  <-> In x acc \/ In x words).
Proof.
  induction words as [|w r IH]; intros acc Hacc; simpl.
  - split; [exact Hacc|]. intros x. tauto.
  - destruct (has acc w) eqn:E.
    + destruct (IH acc Hacc) as [H1 H2]. split; [exact H1|].
      intros x. rewrite H2. apply has_In in E.
      split; [tauto|]. intros [H|[<-|H]]; auto.
    + apply has_false in E.
      assert (Hnd : NoDup (acc ++ [w])).
      { apply NoDup_app; [exact Hacc|repeat constructor; intros []|].
        intros x Hx [<-|[]]. contradiction. }
      destruct (IH (acc ++ [w]) Hnd) as [H1 H2]. split; [exact H1|].
      intros x. rewrite H2, in_app_iff. simpl. tauto.
Qed.

Lemma newSet_NoDup words : NoDup (newSet words).
Proof. apply (@newSet_acc words []). constructor. Qed.

Lemma newSet_In words x : In x (newSet words) <-> In x words.
Proof.
  unfold newSet. destruct (@newSet_acc words [] (NoDup_nil _)) as [_ H].
  rewrite H. simpl. tauto.
Qed.

Lemma mapIndexed_spec (B C : Type) (f : B -> nat -> C) xs :
  forall i r,
    In r (mapIndexed f i xs) ->
    exists j x, nth_error xs j = Some x /\ r = f x (i + j)%nat.
Proof.
  induction xs as [|x xs IH]; intros i r; simpl; [intros []|].
  intros [<-|H].
  - exists 0%nat, x. split; [reflexivity|]. now rewrite Nat.add_0_r.
  - apply IH in H as (j & y & Hj & ->). exists (S j), y.
    split; [exact Hj|]. f_equal. lia.
Qed.

Lemma mapIndexed_indices (B : Type) (f : B -> nat -> Ranked) xs :
  (forall x i, index (f x i) = i) ->
  forall i, map index (mapIndexed f i xs) = seq i (length xs).
Proof.
  intros Hf. induction xs as [|x xs IH]; intros i; simpl; [reflexivity|].
  now rewrite Hf, IH.
Qed.

Lemma NoDup_map_filter (B C : Type) (f : B -> C) (p : B -> bool) xs :
  NoDup (map f xs) -> NoDup (map f (filter p xs)).
Proof.
  induction xs as [|x xs IH]; simpl; [constructor|].
  intros H. inversion H as [|? ? Hx Hxs]; subst.
  destruct (p x); [|now apply IH].
  simpl. constructor; [|now apply IH].
  intros Hin. apply Hx. apply in_map_iff in Hin as (y & E & Hy).
  apply filter_In in Hy as [Hy _]. apply in_map_iff. now exists y.
Qed.

Lemma fold_hits (p : jsstring -> bool) keys :
  forall acc,
    fold_left (fun score key => if p key then score + 1 else score) keys acc
    = acc + Z.of_nat (length (filter p keys)).
Proof.
  induction keys as [|k r IH]; intros acc; simpl; [lia|].
  rewrite IH. destruct (p k); simpl length; lia.
Qed.




End SelectionFacts.

Section RetrievalFacts.
Local Open Scope Z_scope.

Variable roughTextTokenizer : jsstring -> Z.
Variable toLowerCase : jsstring -> jsstring.
Variable isLetterOrNumber : N -> bool.

(** The ranking of [rankLines]: every entry is a line of the document at
    its index, entries have different indices, and they are in ranking
    order. *)
Lemma rankLines_spec keys allLines :
  let ranked := rankLines toLowerCase keys allLines in
  (forall r, In r ranked ->
             nth_error allLines (index r) = Some (line r)
             /\ score r = keywordHits toLowerCase keys (line r)
             /\ (keys <> [] -> 1 <= score r))
  /\ NoDup (map index ranked)
  /\ StronglySorted rankedBefore ranked.
Proof.
  cbv zeta. unfold rankLines.
  set (entry := fun (l : jsstring) (i : nat) => {| line := l; index := i; score := _ |}).
  set (all := mapIndexed entry 0%nat allLines).
  assert (Hall : forall r, In r all ->
                           nth_error allLines (index r) = Some (line r)
                           /\ score r = keywordHits toLowerCase keys (line r)).
  { intros r Hr. apply mapIndexed_spec in Hr as (j & x & Hj & ->).
    simpl. split; [exact Hj|]. unfold keywordHits.
    destruct keys as [|k0 ks]; [reflexivity|].
    cbn [length Nat.ltb Nat.leb]. apply fold_hits. }
  assert (Hidx : NoDup (map index all)).
  { unfold all. rewrite mapIndexed_indices by reflexivity. apply seq_NoDup. }
  assert (Hstrict : forall (l : list Ranked),
             NoDup (map index l) ->
             StronglySorted
               (fun a b => 0 <= (if score a - score b =? 0
                                 then Z.of_nat (index a) - Z.of_nat (index b)
                                 else score a - score b)) l ->
             StronglySorted rankedBefore l).
  { induction l as [|a l IHl]; intros Hnd Hs; [constructor|].
    inversion Hs as [|? ? Hs' Ha]; subst. inversion Hnd as [|? ? Hna Hnd']; subst.
    constructor; [now apply IHl|].
    apply Forall_forall. intros b Hb. rewrite Forall_forall in Ha.
    specialize (Ha b Hb). cbv beta in Ha. unfold rankedBefore.
    assert (Hne : index a <> index b).
    { intros E. apply Hna. rewrite E. now apply in_map. }
    destruct (Z.eqb_spec (score a - score b) 0); lia. }
  destruct keys as [|k0 ks] eqn:Ek.
  - cbn [length Nat.ltb Nat.leb].
    set (cmp := fun a b : Ranked => Z.of_nat (index b) - Z.of_nat (index a)).
    pose proof (sortBy_perm cmp all) as Hperm.
    split; [|split].
    + intros r Hr. apply (Permutation_in _ Hperm) in Hr.
      destruct (Hall r Hr) as [H1 H2]. split; [exact H1|]. split; [exact H2|congruence].
    + eapply Permutation_NoDup; [|exact Hidx].
      apply Permutation_map. now apply Permutation_sym.
    + apply Hstrict.
      * eapply Permutation_NoDup; [|exact Hidx].
        apply Permutation_map. now apply Permutation_sym.
      * assert (Hs : StronglySorted (fun a b => 0 <= cmp b a) (sortBy cmp all)).
        { apply sortBy_sorted; unfold cmp; intros; lia. }
        assert (Hz : Forall (fun r => score r = 0) (sortBy cmp all)).
        { apply Forall_forall. intros r Hr. apply (Permutation_in _ Hperm) in Hr.
          destruct (Hall r Hr) as [_ H2]. rewrite H2. reflexivity. }
        clear -Hs Hz. induction Hs as [|a l Hl IH Ha]; [constructor|].
        inversion Hz as [|? ? Za Zl]; subst. constructor; [now apply IH|].
        rewrite Forall_forall in *. intros b Hb. specialize (Ha b Hb).
        rewrite Za, (Zl b Hb). unfold cmp in Ha. simpl. lia.
  - rewrite <- Ek. replace (0 <? length keys)%nat with true
      by (rewrite Ek; reflexivity).
    set (cmp := fun a b : Ranked =>
                  if score b - score a =? 0
                  then Z.of_nat (index b) - Z.of_nat (index a)
                  else score b - score a).
    set (scored := filter (fun r => 0 <? score r) all).
    pose proof (sortBy_perm cmp scored) as Hperm.
    assert (Hnd : NoDup (map index scored))
      by (unfold scored; now apply NoDup_map_filter).
    split; [|split].
    + intros r Hr. apply (Permutation_in _ Hperm) in Hr.
      apply filter_In in Hr as [Hr Hpos]. destruct (Hall r Hr) as [H1 H2].
      split; [exact H1|]. split; [rewrite Ek; exact H2|].
      intros _. apply Z.ltb_lt in Hpos. lia.
    + eapply Permutation_NoDup; [|exact Hnd].
      apply Permutation_map. now apply Permutation_sym.
    + apply Hstrict.
      * eapply Permutation_NoDup; [|exact Hnd].
        apply Permutation_map. now apply Permutation_sym.
      * apply (@sortBy_sorted _ cmp); unfold cmp; intros a b; [|intros c];
          repeat match goal with
                 | |- context [?u =? 0] => destruct (Z.eqb_spec u 0)
                 end; lia.
Qed.


Lemma core_suffix omConfig state recentMessages :
  let allLines := observationLines (observations state) in
  let core := fst (buildCoreAndRelevantObservations roughTextTokenizer toLowerCase
                     isLetterOrNumber omConfig state recentMessages) in
  (exists older, allLines = older ++ core) /\ (allLines <> [] -> core <> []).
Proof.
  cbv zeta. unfold buildCoreAndRelevantObservations.
  destruct (observationLines (observations state)) as [|l0 ls] eqn:E.
  - simpl. split; [now exists []|congruence].
  - cbv zeta. cbn [fst].
    destruct (trimLinesToTokenBudget_spec roughTextTokenizer (rev (l0 :: ls))
                (coreMemoryMaxTokens omConfig)) as (dropped & Hd & _ & Hne).
    split.
    + exists (rev dropped). apply (f_equal (@rev jsstring)) in Hd.
      rewrite rev_involutive, rev_app_distr in Hd. exact Hd.
    + intros _ Hnil. apply Hne.
      * intros Hr. apply (f_equal (@rev jsstring)) in Hr.
        rewrite rev_involutive in Hr. discriminate.
      * apply (f_equal (@rev jsstring)) in Hnil. now rewrite rev_involutive in Hnil.
Qed.


Lemma keywordSet_spec text :
  NoDup (keywordSet toLowerCase isLetterOrNumber text)
  /\ forall k, In k (keywordSet toLowerCase isLetterOrNumber text) ->
               (3 <= length k)%nat /\ ~ In k STOPWORDS.
Proof.
  unfold keywordSet. split; [apply newSet_NoDup|].
  intros k Hk. apply (proj1 (newSet_In _ _)) in Hk. apply filter_In in Hk as [_ Hk].
  apply andb_true_iff in Hk as [H1 H2]. split.
  - now apply Nat.leb_le in H1.
  - apply negb_true_iff in H2. now apply has_false in H2.
Qed.

End RetrievalFacts.

(** ** The context hook *)

Section ContextFacts.
Local Open Scope Z_scope.

Variable dateParse : jsstring -> option Z.
Variable roughTextTokenizer : jsstring -> Z.
Variable roughTextTokenizerWith : jsstring -> jsstring -> Z.
Variable toLowerCase : jsstring -> jsstring.
Variable isLetterOrNumber : N -> bool.
Variable jsonStringify : JsVal -> jsstring.

Lemma budgetLoop_range modelHint budgetTokens len revMessages :
  forall start used,
    budgetLoop roughTextTokenizerWith jsonStringify modelHint budgetTokens len
               revMessages start used = start
    \/ (budgetLoop roughTextTokenizerWith jsonStringify modelHint budgetTokens len
                   revMessages start used < length revMessages)%nat.
Proof.
  induction revMessages as [|msg earlier IH]; intros start used; simpl; [now left|].
  destruct (_ && _); [now left|].
  right. destruct (IH (length earlier)
                      (used + messageTokens roughTextTokenizerWith jsonStringify
                                            modelHint msg)) as [E|L].
  - rewrite E. lia.
  - lia.
Qed.

Lemma budgetLoop_first modelHint budgetTokens revMessages :
  revMessages <> [] ->
  (budgetLoop roughTextTokenizerWith jsonStringify modelHint budgetTokens
              (length revMessages) revMessages (length revMessages) 0
   < length revMessages)%nat.
Proof.
  destruct revMessages as [|msg earlier]; [congruence|]. intros _.
  cbn [budgetLoop]. rewrite Nat.ltb_irrefl, andb_false_r.
  destruct (budgetLoop_range modelHint budgetTokens (length (msg :: earlier)) earlier
              (length earlier)
              (0 + messageTokens roughTextTokenizerWith jsonStringify modelHint msg))
    as [E|L].
  - rewrite E. simpl. lia.
  - simpl in *. lia.
Qed.

(** While everything still to come fits the budget, the loop runs down to
    the first message. *)
Lemma budgetLoop_fits modelHint budgetTokens len revMessages :
  Forall (fun m => 0 <= messageTokens roughTextTokenizerWith jsonStringify modelHint m)
         revMessages ->
  forall start used,
    revMessages <> [] ->
    used + messagesTokens (messageTokens roughTextTokenizerWith jsonStringify modelHint)
                          revMessages <= budgetTokens ->
    budgetLoop roughTextTokenizerWith jsonStringify modelHint budgetTokens len
               revMessages start used = 0%nat.
Proof.
  induction 1 as [|msg earlier Hmsg Hpos IH]; intros start used Hne Hfit;
    [congruence|].
  cbn [budgetLoop]. cbn [messagesTokens fold_right] in Hfit.
  fold (messagesTokens (messageTokens roughTextTokenizerWith jsonStringify modelHint)
                       earlier) in Hfit.
  assert (Hrest : 0 <= messagesTokens
                         (messageTokens roughTextTokenizerWith jsonStringify modelHint)
                         earlier).
  { clear -Hpos. unfold messagesTokens.
    induction Hpos as [|m r Hm _ IHr]; cbn [fold_right]; lia. }
  destruct (Z.ltb_spec budgetTokens
              (used + messageTokens roughTextTokenizerWith jsonStringify modelHint msg));
    [lia|].
  cbn [andb]. destruct earlier as [|m2 r]; [reflexivity|].
  apply IH; [discriminate|lia].
Qed.

Lemma messagesTokens_rev tokensOf messages :
  messagesTokens tokensOf (rev messages) = messagesTokens tokensOf messages.
Proof.
  unfold messagesTokens.
  induction messages as [|m r IH]; cbn [rev fold_right]; [reflexivity|].
  rewrite fold_right_app. cbn [fold_right].
  rewrite <- IH. generalize (rev r). intros l.
  induction l as [|x l IHl]; cbn [fold_right]; lia.
Qed.

Lemma turnBoundaryLoop_le messages start :
  (turnBoundaryLoop messages start <= start)%nat.
Proof.
  induction start as [|start IH]; simpl; [lia|].
  destruct (isTurnBoundary _); lia.
Qed.

Lemma turnBoundaryLoop_boundary messages start :
  turnBoundaryLoop messages start = 0%nat
  \/ isTurnBoundary (nth (turnBoundaryLoop messages start) messages VUndef) = true.
Proof.
  induction start as [|start IH]; simpl; [now left|].
  destruct (isTurnBoundary (nth (S start) messages VUndef)) eqn:E; [now right|exact IH].
Qed.

Lemma skipn_nth (A : Type) (d : A) n (xs : list A) :
  (n < length xs)%nat -> skipn n xs = nth n xs d :: skipn (S n) xs.
Proof.
  revert xs. induction n as [|n IH]; intros [|x xs] H; simpl in *; try lia.
  - reflexivity.
  - apply IH. lia.
Qed.

Lemma selectRecent_spec messages budgetTokens modelHint :
  let recent := selectRecentTurnsByTokenBudget roughTextTokenizerWith jsonStringify
                  messages budgetTokens modelHint in
  (exists older, messages = older ++ recent)
  /\ (messages <> [] -> recent <> [])
  /\ (recent = messages
      \/ exists m rest, recent = m :: rest /\ isTurnBoundary m = true).
Proof.
  unfold selectRecentTurnsByTokenBudget.
  destruct messages as [|m0 ms] eqn:Em; [simpl; split; [now exists []|split; [congruence|now left]]|].
  rewrite <- Em. cbv zeta.
  assert (Hne : messages <> []) by (rewrite Em; discriminate).
  set (start0 := budgetLoop _ _ _ _ _ _ _ _).
  assert (H0 : (start0 < length messages)%nat).
  { unfold start0. rewrite <- (length_rev messages).
    apply budgetLoop_first. intros E. apply Hne.
    apply (f_equal (@rev JsVal)) in E. now rewrite rev_involutive in E. }
  pose proof (turnBoundaryLoop_le messages start0) as Hle.
  set (start := turnBoundaryLoop messages start0) in *.
  assert (Hs : skipn start messages = nth start messages VUndef :: skipn (S start) messages)
    by (apply skipn_nth; lia).
  split; [|split].
  - exists (firstn start messages). now rewrite firstn_skipn.
  - intros _. rewrite Hs. discriminate.
  - destruct (turnBoundaryLoop_boundary messages start0) as [E|E]; fold start in E.
    + left. rewrite E. reflexivity.
    + right. eexists _, _. split; [exact Hs|exact E].
Qed.

Lemma selectRecent_fits messages budgetTokens modelHint :
  Forall (fun m => 0 <= messageTokens roughTextTokenizerWith jsonStringify modelHint m)
         messages ->
  messagesTokens (messageTokens roughTextTokenizerWith jsonStringify modelHint) messages
    <= budgetTokens ->
  selectRecentTurnsByTokenBudget roughTextTokenizerWith jsonStringify
    messages budgetTokens modelHint = messages.
Proof.
  intros Hpos Hfit. unfold selectRecentTurnsByTokenBudget.
  destruct messages as [|m0 ms] eqn:Em; [reflexivity|]. rewrite <- Em in *. cbv zeta.
  rewrite budgetLoop_fits; [reflexivity| | |].
  - apply Forall_rev. exact Hpos.
  - intros E. apply (f_equal (@rev JsVal)) in E. rewrite rev_involutive in E.
    rewrite Em in E. discriminate.
  - rewrite messagesTokens_rev. lia.
Qed.




End ContextFacts.

(** ** Relative time phrases *)

Section PhraseFacts.
Local Open Scope Z_scope.

Lemma numToString_head z :
  exists c r, numToString z = c :: r /\ (c = 45 \/ (48 <= c <= 57))%N.
Proof.
  unfold numToString.
  assert (Huint : forall d, d <> Decimal.Nil ->
             exists c r, js (NilZero.string_of_uint d) = c :: r /\ (48 <= c <= 57)%N).
  { intros d Hd. destruct d; [congruence| | | | | | | | | |];
      (eexists; eexists; split; [reflexivity|vm_compute; split; discriminate]). }
  assert (Hpos : forall p, Pos.to_uint p <> Decimal.Nil).
  { intros p E. pose proof (Unsigned.of_to p) as H. rewrite E in H. discriminate. }
  destruct z as [|p|p]; cbn [Z.to_int NilZero.string_of_int].
  - exists 48%N, []. split; [reflexivity|right; lia].
  - destruct (Huint _ (Hpos p)) as (c & r & E & Hc). exists c, r. split; [exact E|now right].
  - destruct (Huint _ (Hpos p)) as (c & r & E & Hc).
    exists 45%N, (c :: r). split; [|now left].
    change (js (String "-" (NilZero.string_of_uint (Pos.to_uint p))))
      with (45%N :: js (NilZero.string_of_uint (Pos.to_uint p))).
    now rewrite E.
Qed.

Lemma numToString_not_today z rest : numToString z ++ rest <> js "today".
Proof.
  destruct (numToString_head z) as (c & r & E & Hc). rewrite E.
  change (js "today") with (116%N :: js "oday"). simpl.
  intros H. injection H as H _. lia.
Qed.

Lemma div_msPerDay_zero d : d / msPerDay = 0 <-> 0 <= d < msPerDay.
Proof.
  unfold msPerDay. split.
  - intros H. apply Z.div_small_iff in H; lia.
  - intros H. now apply Z.div_small.
Qed.

Lemma in_not_today rest : js "in " ++ rest <> js "today".
Proof. intros H. vm_compute in H. discriminate. Qed.

Lemma formatRelativeTime_today date currentDate :
  formatRelativeTime date currentDate = js "today"
  <-> 0 <= currentDate - date < msPerDay.
Proof.
  rewrite <- div_msPerDay_zero. unfold formatRelativeTime.
  generalize ((currentDate - date) / msPerDay). intros diffDays.
  assert (C1 : js "tomorrow" <> js "today") by (vm_compute; discriminate).
  assert (C2 : js "in 1 week" <> js "today") by (vm_compute; discriminate).
  assert (C3 : js "yesterday" <> js "today") by (vm_compute; discriminate).
  assert (C4 : js "1 week ago" <> js "today") by (vm_compute; discriminate).
  assert (C5 : js "1 month ago" <> js "today") by (vm_compute; discriminate).
  split.
  - destruct (Z.ltb_spec diffDays 0) as [Hneg|Hpos].
    + destruct (Z.eqb_spec (Z.abs diffDays) 0); [lia|].
      destruct (Z.eqb_spec (Z.abs diffDays) 1); [intros H; now apply C1 in H|].
      destruct (Z.abs diffDays <? 7); [intros H; now apply in_not_today in H|].
      destruct (Z.abs diffDays <? 14); [intros H; now apply C2 in H|].
      destruct (Z.abs diffDays <? 30); intros H; now apply in_not_today in H.
    + destruct (Z.eqb_spec diffDays 0); [auto|].
      destruct (Z.eqb_spec diffDays 1); [intros H; now apply C3 in H|].
      destruct (diffDays <? 7); [intros H; now apply numToString_not_today in H|].
      destruct (diffDays <? 14); [intros H; now apply C4 in H|].
      destruct (diffDays <? 30); [intros H; now apply numToString_not_today in H|].
      destruct (diffDays <? 60); [intros H; now apply C5 in H|].
      destruct (diffDays <? 365); [intros H; now apply numToString_not_today in H|].
      intros H. now apply numToString_not_today in H.
  - intros ->. reflexivity.
Qed.

Lemma formatRelativeTime_tomorrow date currentDate :
  0 < date - currentDate <= msPerDay ->
  formatRelativeTime date currentDate = js "tomorrow".
Proof.
  intros H. unfold formatRelativeTime.
  assert (E : (currentDate - date) / msPerDay = -1).
  { symmetry. apply (Z.div_unique _ _ _ (currentDate - date + msPerDay)).
    - left. unfold msPerDay in *. lia.
    - lia. }
  rewrite E. reflexivity.
Qed.

Lemma formatGapBetweenDates_none prevDate currDate :
  formatGapBetweenDates prevDate currDate = None
  <-> currDate - prevDate < 2 * msPerDay.
Proof.
  unfold formatGapBetweenDates.
  set (diffDays := (currDate - prevDate) / msPerDay).
  assert (H : diffDays <= 1 <-> currDate - prevDate < 2 * msPerDay).
  { unfold diffDays, msPerDay. split; intros H.
    - destruct (Z.lt_ge_cases (currDate - prevDate) (2 * (1000 * 60 * 60 * 24)));
        [assumption|].
      assert (2 <= (currDate - prevDate) / (1000 * 60 * 60 * 24))
        by (apply Z.div_le_lower_bound; lia).
      lia.
    - assert ((currDate - prevDate) / (1000 * 60 * 60 * 24) < 2)
        by (apply Z.div_lt_upper_bound; lia).
      lia. }
  rewrite <- H.
  destruct (Z.leb_spec diffDays 1); [split; [lia|reflexivity]|].
  split; [|lia].
  destruct (diffDays <? 7); [discriminate|].
  destruct (diffDays <? 14); [discriminate|].
  destruct (diffDays <? 30); [discriminate|].
  destruct (diffDays <? 60); discriminate.
Qed.

End PhraseFacts.

(** ** Rendering: what the annotation and the token-saving pass leave alone *)

Section RenderFacts.
Local Open Scope Z_scope.

Variable dateParse : jsstring -> option Z.

Lemma parseDateFromContent_unparsed dateContent :
  (forall s, dateParse s = None) ->
  parseDateFromContent dateParse dateContent = None.
Proof.
  intros H. unfold parseDateFromContent.
  destruct (exec simpleDateRegex dateContent), (exec rangeDateRegex dateContent),
    (exec vagueDateRegex dateContent); rewrite ?H; reflexivity.
Qed.

Lemma flat_map_none (A B : Type) (f : A -> list B) xs :
  (forall x, f x = []) -> flat_map f xs = [].
Proof. intros H. induction xs as [|x r IH]; simpl; [reflexivity|]. now rewrite H, IH. Qed.

Lemma annotate_unparsed text currentDate :
  (forall s, dateParse s = None) ->
  addRelativeTimeToObservations dateParse text currentDate = text.
Proof.
  intros H. unfold addRelativeTimeToObservations.
  assert (E : expandInlineEstimatedDates dateParse text currentDate = text).
  { unfold expandInlineEstimatedDates. apply replaceAll_id.
    intros m. now rewrite parseDateFromContent_unparsed. }
  rewrite E. unfold collectDateHeaders.
  rewrite flat_map_none; [reflexivity|].
  intros m. now rewrite H.
Qed.

Lemma inline_none text :
  includes (js "(") text = false -> matchAll inlineDateRegex text = [].
Proof.
  intros H. apply matchAll_none. intros bef p cs pre suf E.
  unfold inlineDateRegex, cat. cbn [fold_right matcher].
  apply (@literal_none (js "(") Eps). cbn [after].
  exact (@includes_none _ _ H pre suf E).
Qed.

Lemma header_none text :
  includes (js "Date:") text = false -> matchAll dateHeaderRegex text = [].
Proof.
  intros H. apply matchAll_none. intros bef p cs pre suf E.
  unfold dateHeaderRegex, cat. cbn [fold_right matcher before].
  assert (Hlit : forall k,
             matcher (lit "Date:")
                     {| before := bef; after := suf; pos := p; caps := cs |} k = None).
  { intros k. apply (@literal_none (js "Date:") Eps). cbn [after].
    exact (@includes_none _ _ H pre suf E). }
  destruct bef as [|c bef']; [apply Hlit|].
  destruct (true && isLineTerminator c); [apply Hlit|reflexivity].
Qed.

Lemma annotate_undated text currentDate :
  undated text ->
  addRelativeTimeToObservations dateParse text currentDate = text.
Proof.
  intros [H1 H2]. unfold addRelativeTimeToObservations.
  rewrite expandInline_no_match by now apply inline_none.
  unfold collectDateHeaders. now rewrite header_none.
Qed.

End RenderFacts.

Section OptimizeFacts.
Local Open Scope Z_scope.

Lemma dropWhile_length p s : (length (dropWhile p s) <= length s)%nat.
Proof.
  induction s as [|c r IH]; simpl; [lia|]. destruct (p c); simpl; lia.
Qed.

Lemma trim_length s : (length (trim s) <= length s)%nat.
Proof.
  unfold trim, trimEnd, trimStart. rewrite length_rev.
  pose proof (dropWhile_length isJsSpace (rev (dropWhile isJsSpace s))) as H1.
  pose proof (dropWhile_length isJsSpace s) as H2.
  rewrite length_rev in H1. lia.
Qed.

Lemma semanticTagMatcher_forward : forward 0 semanticTagMatcher.
Proof.
  intros x z H. unfold semanticTagMatcher in H.
  apply matcher_inv in H as (y & Hy & _ & H).
  destruct (matcher (cat [star (Cls (fun c => isDigit c || isJsSpace c));
                          lit "items collapsed"]) y Some); [discriminate|].
  apply matcher_inv in H as (y' & Hy' & _ & E). injection E as <-.
  pose proof (ext_trans Hy Hy') as He. split; [exact He|].
  apply ext_pos in He. lia.
Qed.

(** The token-saving pass never makes the text longer. *)
Lemma optimize_length observations :
  (length (optimizeObservationsForContext observations) <= length observations)%nat.
Proof.
  unfold optimizeObservationsForContext.
  set (r1 := cat [chr 55357%N; chr 57313%N; star ws]).
  set (r2 := cat [chr 55357%N; chr 57314%N; star ws]).
  set (r4 := cat [chr 32%N; plus (chr 32%N)]).
  set (r5 := Rep true 3 None (chr NL)).
  set (t1 := replaceAll r1 (fun _ => js "") observations).
  set (t2 := replaceAll r2 (fun _ => js "") t1).
  set (t3 := replaceAllBy semanticTagMatcher (fun _ => js "") t2).
  set (t4 := replaceAll r4 (fun _ => js " ") t3).
  set (t5 := replaceAll r5 (fun _ => [NL; NL]) t4).
  assert (H1 : (length t1 <= length observations)%nat)
    by (apply replaceAll_length; intros; simpl; lia).
  assert (H2 : (length t2 <= length t1)%nat)
    by (apply replaceAll_length; intros; simpl; lia).
  assert (H3 : (length t3 <= length t2)%nat).
  { apply replaceAllBy_length with (n := 0%nat);
      [apply semanticTagMatcher_forward|intros; simpl; lia]. }
  assert (H4 : (length t4 <= length t3)%nat)
    by (apply replaceAll_length; intros; simpl; lia).
  assert (H5 : (length t5 <= length t4)%nat)
    by (apply replaceAll_length; intros; simpl; lia).
  pose proof (trim_length t5). lia.
Qed.

(** On a plain text the pass changes nothing. *)
Lemma optimize_plain text :
  plainObservations text -> optimizeObservationsForContext text = text.
Proof.
  intros (H1 & H2 & H3 & H4 & H5 & Ht).
  unfold optimizeObservationsForContext.
  rewrite (@replaceAll_none (cat [chr 55357%N; chr 57313%N; star ws]) _ text).
  2:{ intros bef p cs pre suf E.
      apply (@literal_none [55357; 57313]%N (Seq (star ws) Eps)). cbn [after].
      exact (@includes_none _ _ H1 pre suf E). }
  rewrite (@replaceAll_none (cat [chr 55357%N; chr 57314%N; star ws]) _ text).
  2:{ intros bef p cs pre suf E.
      apply (@literal_none [55357; 57314]%N (Seq (star ws) Eps)). cbn [after].
      exact (@includes_none _ _ H2 pre suf E). }
  rewrite (@replaceAllBy_none semanticTagMatcher _ text).
  2:{ intros bef p cs pre suf E. unfold semanticTagMatcher.
      apply (@literal_none (js "[") Eps). cbn [after].
      exact (@includes_none _ _ H3 pre suf E). }
  rewrite (@replaceAll_none (cat [chr 32%N; plus (chr 32%N)]) _ text).
  2:{ intros bef p cs pre suf E.
      pose proof (@includes_none _ _ H4 pre suf E) as Hs.
      apply (@stripPrefix_run 32%N 2) in Hs.
      unfold cat. cbn [fold_right]. 
      change (matcher (Seq (chr 32%N) ?b) ?x ?k)
        with (matcher (chr 32%N) x (fun y => matcher b y k)).
      unfold chr at 1. cbn [matcher after].
      destruct suf as [|c rest]; [reflexivity|].
      cbn [run] in Hs. destruct (32 =? c)%N; [|reflexivity].
      change (matcher (Seq ?a Eps) ?x ?k) with (matcher a x (fun y => k y)).
      apply Rep_short. cbn [after]. lia. }
  rewrite (@replaceAll_none (Rep true 3 None (chr NL)) _ text).
  2:{ intros bef p cs pre suf E.
      pose proof (@includes_none _ _ H5 pre suf E) as Hs.
      apply (@stripPrefix_run NL 3) in Hs.
      apply Rep_short. cbn [after]. exact Hs. }
  now apply trimmed_trim_id.
Qed.

End OptimizeFacts.

(** ** The memory message *)

Section MessageFacts.
Local Open Scope Z_scope.

Variable dateParse : jsstring -> option Z.

Lemma message_plain state currentDate :
  plainObservations (observations state) ->
  undated (observations state) ->
  observations state <> [] ->
  formatObservationalMemoryMessage dateParse state currentDate
  = join [NL]
      (pushOptionalBlock
         (pushOptionalBlock
            [OM_MARKER; js ""; OBSERVATION_CONTEXT_PROMPT; js ""; js "<observations>";
             observations state; js "</observations>"; js "";
             OBSERVATION_CONTEXT_INSTRUCTIONS; js ""]
            "<current-task>" "</current-task>" (currentTask state))
         "<suggested-response>" "</suggested-response>" (suggestedResponse state)).
Proof.
  intros Hplain Hundated Hne. unfold formatObservationalMemoryMessage.
  pose proof Hplain as (_ & _ & _ & _ & _ & Ht).
  rewrite (trimmed_trim_id Ht), (optimize_plain Hplain).
  destruct (observations state) as [|c obs] eqn:E; [congruence|].
  cbn [truthy]. rewrite (annotate_undated dateParse currentDate Hundated).
  reflexivity.
Qed.

Lemma message_blank state currentDate :
  truthy (trim (observations state)) = false ->
  formatObservationalMemoryMessage dateParse state currentDate
  = join [NL]
      (pushOptionalBlock
         (pushOptionalBlock [OM_MARKER; js ""]
            "<current-task>" "</current-task>" (currentTask state))
         "<suggested-response>" "</suggested-response>" (suggestedResponse state)).
Proof.
  intros Hblank. unfold formatObservationalMemoryMessage.
  destruct (trim (observations state)); [|discriminate].
  replace (optimizeObservationsForContext []) with (@nil jschar)
    by (vm_compute; reflexivity).
  reflexivity.
Qed.

End MessageFacts.

(** ** Scope keys *)

Section ScopeFacts.

Lemma app_head_ne (a b : jschar) (r s u v : jsstring) :
  a <> b -> (a :: r) ++ u <> (b :: s) ++ v.
Proof. intros Hne H. simpl in H. injection H as H _. contradiction. Qed.

Lemma thread_key_prefix cwd sessionFile sessionId :
  exists name, resolveScopeKey ScopeThread cwd sessionFile sessionId = js "thread:" ++ name.
Proof.
  unfold resolveScopeKey.
  destruct sessionFile as [f|]; [destruct (nonEmpty f) as [f'|]|];
    try (eexists; reflexivity);
    (destruct sessionId as [i|]; [destruct (nonEmpty i) as [i'|]|]; eexists; reflexivity).
Qed.

Lemma nonEmpty_some s : s <> [] -> nonEmpty s = Some s.
Proof. destruct s; [congruence|reflexivity]. Qed.

End ScopeFacts.

(** ** The trimming uses its budget *)

Section BudgetUse.
Local Open Scope Z_scope.

Variable roughTextTokenizer : jsstring -> Z.

(** The loop stops only in front of a line that would exceed the budget. *)
Lemma trimLinesLoop_stop maxTokens lines :
  forall out used,
    used = tokenSum roughTextTokenizer out ->
    exists kept dropped,
      trimLinesLoop roughTextTokenizer maxTokens lines out used = out ++ kept
      /\ lines = kept ++ dropped
      /\ (dropped = []
          \/ exists l rest,
              dropped = l :: rest
              /\ maxTokens < tokenSum roughTextTokenizer (out ++ kept)
                             + roughTextTokenizer l).
Proof.
  induction lines as [|l rest IH]; intros out used Hused; simpl.
  - exists [], []. rewrite app_nil_r. split; [reflexivity|]. split; [reflexivity|now left].
  - destruct ((0 <? length out)%nat && (maxTokens <? used + roughTextTokenizer l)) eqn:Hstop.
    + exists [], (l :: rest). rewrite app_nil_r.
      split; [reflexivity|]. split; [reflexivity|]. right. exists l, rest.
      split; [reflexivity|]. apply andb_true_iff in Hstop as [_ H].
      apply Z.ltb_lt in H. now rewrite <- Hused.
    + destruct (IH (out ++ [l]) (used + roughTextTokenizer l))
        as (kept & dropped & E & Hd & Hmax).
      * rewrite tokenSum_app. simpl. lia.
      * exists (l :: kept), dropped. rewrite E, <- app_assoc. simpl.
        split; [reflexivity|]. split; [now rewrite Hd|].
        now rewrite <- app_assoc in Hmax.
Qed.

Lemma trimLinesToTokenBudget_stop lines maxTokens :
  exists dropped,
    lines = trimLinesToTokenBudget roughTextTokenizer lines maxTokens ++ dropped
    /\ (dropped = []
        \/ exists l rest,
            dropped = l :: rest
            /\ maxTokens
               < tokenSum roughTextTokenizer
                   (trimLinesToTokenBudget roughTextTokenizer lines maxTokens)
                 + roughTextTokenizer l).
Proof.
  unfold trimLinesToTokenBudget.
  destruct (@trimLinesLoop_stop maxTokens lines [] 0 eq_refl)
    as (kept & dropped & E & Hd & Hmax).
  rewrite E. simpl in *. exists dropped. split; assumption.
Qed.

End BudgetUse.

(** ** Captures are made of the input *)

Section CaptureFacts.

Local Ltac stepd H :=
  cbv beta in H;
  match type of H with (if ?c then _ else _) = _ => destruct c; [discriminate|] end.

Lemma firstn_incl (A : Type) n (l : list A) : incl (firstn n l) l.
Proof.
  intros d Hd. rewrite <- (firstn_skipn n l). apply in_or_app. now left.
Qed.

Variable text : jsstring.

Lemma advance_within n x : within text x -> within text (advance n x).
Proof.
  revert x. induction n as [|n IH]; intros x [Ha Hc]; simpl; [split; assumption|].
  destruct (after x) as [|c rest] eqn:E; [split; [rewrite E|]; assumption|].
  apply IH. split; simpl; [|exact Hc].
  intros d Hd. apply Ha. now right.
Qed.

(** Whenever a matcher succeeds, it has called its continuation on a state
    whose captures are made of characters of the input. *)
Lemma matcher_within r :
  forall x k z,
    within text x -> matcher r x k = Some z ->
    exists y, within text y /\ k y = Some z.
Proof.
  induction r as [|p|p|a IHa b IHb|a IHa b IHb|greedy min max a IHa|i a IHa|ml|ml| |a IHa];
    intros x k z Hx H; simpl in H.
  - now exists x.
  - destruct (after x) as [|c rest] eqn:E; [discriminate|].
    destruct (p c); [|discriminate].
    eexists. split; [|exact H]. destruct Hx as [Ha Hc]. split; simpl; [|exact Hc].
    intros d Hd. apply Ha. rewrite E. now right.
  - destruct (codePointAt (after x)) as [[cp n]|] eqn:E; [|discriminate].
    destruct (p cp); [|discriminate].
    eexists. split; [|exact H]. now apply advance_within.
  - destruct (IHa _ _ _ Hx H) as (y & Hy & H'). exact (IHb _ _ _ Hy H').
  - apply orElse_some in H as [H|H]; [exact (IHa _ _ _ Hx H)|exact (IHb _ _ _ Hx H)].
  - revert H. generalize (min + length (after x) + 1) as fuel. intros fuel.
    revert x min max Hx. induction fuel as [|fuel IH]; intros x min max Hx H; [discriminate|].
    assert (Hm : forall d',
               (forall y, within text y -> d' y = Some z ->
                          exists y', within text y' /\ k y' = Some z) ->
               matcher a x d' = Some z ->
               exists y', within text y' /\ k y' = Some z).
    { intros d' Hd' Hma. destruct (IHa _ _ _ Hx Hma) as (y & Hy & Hdy).
      exact (Hd' y Hy Hdy). }
    assert (Hk : k x = Some z -> exists y', within text y' /\ k y' = Some z)
      by (intros Hkx; now exists x).
    destruct max as [[|mx]|].
    + now apply Hk.
    + cbv zeta in H. destruct (Nat.eqb min 0); simpl negb in H; cbv iota in H.
      * destruct greedy; apply orElse_some in H as [H|H].
        -- eapply Hm; [|exact H]. intros y Hy Hd.
           stepd Hd. now apply IH in Hd.
        -- now apply Hk.
        -- now apply Hk.
        -- eapply Hm; [|exact H]. intros y Hy Hd.
           stepd Hd. now apply IH in Hd.
      * eapply Hm; [|exact H]. intros y Hy Hd.
        stepd Hd. now apply IH in Hd.
    + cbv zeta in H. destruct (Nat.eqb min 0); simpl negb in H; cbv iota in H.
      * destruct greedy; apply orElse_some in H as [H|H].
        -- eapply Hm; [|exact H]. intros y Hy Hd.
           stepd Hd. now apply IH in Hd.
        -- now apply Hk.
        -- now apply Hk.
        -- eapply Hm; [|exact H]. intros y Hy Hd.
           stepd Hd. now apply IH in Hd.
      * eapply Hm; [|exact H]. intros y Hy Hd.
        stepd Hd. now apply IH in Hd.
  - destruct (IHa _ _ _ Hx H) as (y & [Ha Hc] & H').
    eexists. split; [|exact H']. split; simpl; [exact Ha|].
    constructor; [|exact Hc]. simpl. intros d Hd.
    destruct Hx as [Hax _]. apply Hax. eapply firstn_incl. exact Hd.
  - destruct (before x) as [|c r]; [|destruct (ml && isLineTerminator c); [|discriminate]];
      now exists x.
  - destruct (after x) as [|c r]; [|destruct (ml && isLineTerminator c); [|discriminate]];
      now exists x.
  - destruct (xorb _ _); [|discriminate]. now exists x.
  - destruct (matcher a x Some) as [y|] eqn:E; [|discriminate].
    destruct (IHa _ _ _ Hx E) as (y' & [Ha Hc] & Ey). injection Ey as ->.
    eexists. split; [|exact H]. destruct Hx as [Hax _]. split; simpl; assumption.
Qed.

Lemma search_within r :
  forall aft bef p x y,
    incl aft text -> search r bef p aft = Some (x, y) -> within text y.
Proof.
  induction aft as [|c rest IH]; intros bef p x y Ha H; simpl in H.
  - destruct (matcher r _ Some) as [y'|] eqn:E; [|discriminate]. injection H as <- <-.
    apply matcher_within in E as (y'' & Hy & Ey); [|split; simpl; [exact Ha|constructor]].
    now injection Ey as <-.
  - destruct (matcher r _ Some) as [y'|] eqn:E.
    + injection H as <- <-.
      apply matcher_within in E as (y'' & Hy & Ey); [|split; simpl; [exact Ha|constructor]].
      now injection Ey as <-.
    + apply IH in H; [exact H|]. intros d Hd. apply Ha. now right.
Qed.

End CaptureFacts.

(** Every capture of a match is made of characters of the text. *)
Lemma exec_group_incl r text m i s :
  exec r text = Some m -> group i m = Some s -> incl s text.
Proof.
  unfold exec, group. destruct m as [x y]. intros H Hg.
  apply (@search_within text) in H; [|apply incl_refl].
  destruct H as [_ Hc]. simpl in Hg.
  induction (caps y) as [|[j t] cs IH]; simpl in Hg; [discriminate|].
  inversion Hc as [|e l He Hl]; subst.
  destruct (Nat.eqb i j); [injection Hg as <-; exact He|now apply IH].
Qed.

Lemma stripSingleCodeFence_incl raw : incl (stripSingleCodeFence raw) raw.
Proof.
  unfold stripSingleCodeFence. intros c Hc. apply trim_incl in Hc.
  destruct (exec codeFenceRegex (trim raw)) as [m|] eqn:E; [|exact Hc].
  destruct (group 1 m) as [s|] eqn:G; [|exact Hc].
  simpl in Hc. apply (@exec_group_incl _ _ _ _ _ E G) in Hc. now apply trim_incl in Hc.
Qed.

(** ** Answers without markup *)

Section UnmarkedFacts.

Lemma includes_char c s : includes [c] s = false -> ~ In c s.
Proof.
  intros H Hin. apply in_split in Hin as (pre & suf & E).
  pose proof (@includes_none _ _ H pre (c :: suf) E) as Hn.
  simpl in Hn. rewrite N.eqb_refl in Hn. discriminate.
Qed.

Lemma Seq_inv a b x k z :
  matcher (Seq a b) x k = Some z ->
  exists y, ext x y /\ matcher b y k = Some z.
Proof.
  simpl. intros H. apply matcher_inv in H as (y & Hy & _ & H). now exists y.
Qed.

Lemma Seq_fail a b x k :
  (forall d, matcher a x d = None) -> matcher (Seq a b) x k = None.
Proof. intros H. simpl. apply H. Qed.

(** A repetition that must take its pattern at least once fails where the
    pattern fails. *)
Lemma Rep_first_fail greedy min max a x k :
  min <> 0 -> max <> Some 0 ->
  (forall d, matcher a x d = None) ->
  matcher (Rep greedy min max a) x k = None.
Proof.
  intros Hmin Hmax Ha. cbn [matcher].
  destruct min as [|min]; [congruence|].
  replace (S min + length (after x) + 1) with (S (min + length (after x) + 1)) by lia.
  destruct max as [[|hi]|]; [congruence| |]; cbn [Nat.eqb negb]; apply Ha.
Qed.

(** Only [<] folds to [<]. *)
Lemma canonicalize_lt c :
  (canonicalize c =? canonicalize 60)%N = true -> c = 60%N.
Proof.
  unfold canonicalize, isLower. cbn [N.leb N.compare].
  change ((97 <=? 60)%N && (60 <=? 122)%N) with false. cbv iota.
  destruct ((97 <=? c)%N && (c <=? 122)%N) eqn:E; intros H; apply N.eqb_eq in H.
  - apply andb_true_iff in E as [E1 E2]. apply N.leb_le in E1, E2. lia.
  - exact H.
Qed.

Lemma xmlTag_none text tag :
  ~ In 60%N text -> exec (xmlTagRegex tag) text = None.
Proof.
  intros Hfree. unfold exec. rewrite search_searchBy. apply searchBy_none.
  intros bef p cs pre suf E. unfold xmlTagRegex, cat. cbn [fold_right].
  apply Seq_fail. intros d.
  change (lit_i "<") with (Seq (chr_i 60%N) Eps). cbn [matcher chr_i after].
  destruct suf as [|c rest]; [reflexivity|].
  destruct (canonicalize c =? canonicalize 60)%N eqn:C; [|reflexivity].
  exfalso. apply canonicalize_lt in C. subst c. apply Hfree. rewrite E.
  apply in_or_app. right. now left.
Qed.

Lemma heading_none text heading :
  ~ In 35%N text -> exec (headingRegex heading) text = None.
Proof.
  intros Hfree. unfold exec. rewrite search_searchBy. apply searchBy_none.
  intros bef p cs pre suf E.
  destruct (matcher (headingRegex heading) _ Some) as [z|] eqn:M; [exfalso|reflexivity].
  unfold headingRegex, cat in M. cbv zeta in M. cbn [fold_right] in M.
  apply Seq_inv in M as (y1 & (s1 & A1 & _) & M).
  apply Seq_inv in M as (y2 & (s2 & A2 & _) & M).
  cbn [after] in A1.
  rewrite Seq_fail in M; [discriminate|]. intros d.
  apply Rep_first_fail; [discriminate|discriminate|]. intros d'.
  change (lit "#") with (Seq (chr 35%N) Eps). cbn [matcher chr].
  destruct (after y2) as [|c rest]; [reflexivity|].
  destruct (35 =? c)%N eqn:C; [|reflexivity].
  exfalso. apply N.eqb_eq in C. subst c. apply Hfree.
  rewrite E, A1, A2. apply in_or_app. right. apply in_or_app. right.
  apply in_or_app. right. now left.
Qed.

Lemma parse_unmarked raw :
  unmarked raw ->
  parseOmSections raw
  = {| parsed_observations := js "";
       parsed_currentTask := None;
       parsed_suggestedResponse := None |}.
Proof.
  intros [H1 H2].
  change (js "<") with [60%N] in H1. change (js "#") with [35%N] in H2.
  apply includes_char in H1, H2.
  assert (T1 : ~ In 60%N (stripSingleCodeFence raw))
    by (intros H; apply H1; now apply stripSingleCodeFence_incl).
  assert (T2 : ~ In 35%N (stripSingleCodeFence raw))
    by (intros H; apply H2; now apply stripSingleCodeFence_incl).
  unfold parseOmSections. generalize dependent (stripSingleCodeFence raw).
  intros text T1 T2. unfold extractXmlTag, extractHeadingSection.
  rewrite !xmlTag_none, !heading_none by assumption. reflexivity.
Qed.

End UnmarkedFacts.

(** ** Tagged sections *)

Section TagFacts.

Lemma after_advance n x : after (advance n x) = skipn n (after x).
Proof.
  revert x. induction n as [|n IH]; intros x; simpl; [reflexivity|].
  destruct (after x) as [|c rest] eqn:E; [exact E|]. now rewrite IH.
Qed.

Lemma caps_advance n x : caps (advance n x) = caps x.
Proof.
  revert x. induction n as [|n IH]; intros x; simpl; [reflexivity|].
  destruct (after x) as [|c rest]; [reflexivity|]. now rewrite IH.
Qed.

Lemma pos_advance n x :
  pos (advance n x) = pos x + Nat.min n (length (after x)).
Proof.
  revert x. induction n as [|n IH]; intros x; simpl; [lia|].
  destruct (after x) as [|c rest]; simpl; [lia|]. rewrite IH. simpl. lia.
Qed.

Lemma advance_add m n x : advance n (advance m x) = advance (m + n) x.
Proof.
  revert x. induction m as [|m IH]; intros x; simpl; [reflexivity|].
  destruct (after x) as [|c rest] eqn:E; [|apply IH].
  destruct n as [|n]; simpl; [reflexivity|]. now rewrite E.
Qed.

Lemma startsWith_i_app a b s :
  startsWith_i (a ++ b) s = startsWith_i a s && startsWith_i b (skipn (length a) s).
Proof.
  revert s. induction a as [|c a IH]; intros s; simpl; [reflexivity|].
  destruct s as [|d s]; [reflexivity|]. rewrite IH. now rewrite andb_assoc.
Qed.

(** A literal under the [i] flag matches where the input starts with it,
    letter case apart. *)
Lemma lit_i_spec cs tail x k :
  matcher (fold_right Seq tail (map chr_i cs)) x k
  = if startsWith_i cs (after x) then matcher tail (advance (length cs) x) k else None.
Proof.
  revert x. induction cs as [|c cs IH]; intros x; [reflexivity|].
  cbn [map fold_right matcher chr_i startsWith_i length advance].
  destruct (after x) as [|d rest]; [reflexivity|].
  destruct (canonicalize d =? canonicalize c)%N; [|reflexivity].
  rewrite IH. reflexivity.
Qed.

Lemma lit_i_seq s tail x k :
  matcher (Seq (lit_i s) tail) x k
  = if startsWith_i (js s) (after x) then matcher tail (advance (length (js s)) x) k
    else None.
Proof.
  cbn [matcher]. unfold lit_i, cat. rewrite lit_i_spec. reflexivity.
Qed.

(** A lazy [[\s\S]*?] hands over at the first place where what follows it
    succeeds. *)
Lemma lazy_any_spec (ok : jsstring -> bool) (f : mstate -> mstate)
      (k : mstate -> option mstate) :
  (forall y, k y = if ok (after y) then Some (f y) else None) ->
  forall x,
    matcher (lazyStar anyChar) x k
    = option_map (fun j => f (advance j x)) (firstIndex ok (after x)).
Proof.
  intros Hk x. unfold lazyStar, anyChar. cbn [matcher].
  assert (Hfuel : length (after x) < 0 + length (after x) + 1) by lia.
  revert Hfuel. generalize (0 + length (after x) + 1) as fuel. intros fuel.
  revert x. induction fuel as [|fuel IH]; intros x Hfuel; [lia|].
  cbn [Nat.eqb negb Nat.pred option_map andb].
  rewrite Hk.
  destruct (after x) as [|c rest] eqn:E.
  - cbn [firstIndex]. destruct (ok []); reflexivity.
  - cbn [firstIndex]. destruct (ok (c :: rest)); [reflexivity|].
    cbn [orElse pos]. 
    replace (Nat.eqb (S (pos x)) (pos x)) with false
      by (symmetry; apply Nat.eqb_neq; lia).
    rewrite IH by (simpl in *; lia). cbn [after].
    destruct (firstIndex ok rest) as [j|]; [|reflexivity].
    cbn [option_map advance]. now rewrite E.
Qed.

End TagFacts.

Section TagFacts2.

Lemma Seq_unfold a b x k :
  matcher (Seq a b) x k = matcher a x (fun y => matcher b y k).
Proof. reflexivity. Qed.

Lemma Grp_unfold i a x k :
  matcher (Grp i a) x k
  = matcher a x (fun y => k (setCap i (firstn (pos y - pos x) (after x)) y)).
Proof. reflexivity. Qed.

Lemma three_lits a b c tail x k :
  matcher (Seq (lit_i a) (Seq (lit_i b) (Seq (lit_i c) tail))) x k
  = if startsWith_i (js a ++ js b ++ js c) (after x)
    then matcher tail (advance (length (js a ++ js b ++ js c)) x) k
    else None.
Proof.
  rewrite lit_i_seq, !startsWith_i_app.
  destruct (startsWith_i (js a) (after x)); [|reflexivity].
  rewrite lit_i_seq, after_advance.
  destruct (startsWith_i (js b) (skipn (length (js a)) (after x))); [|reflexivity].
  rewrite lit_i_seq, !after_advance, skipn_skipn, (Nat.add_comm (length (js b))).
  destruct (startsWith_i (js c) _); [|reflexivity].
  cbn [andb]. rewrite !advance_add, !length_app, Nat.add_assoc. reflexivity.
Qed.

(** The pattern of [extractXmlTag] at one place of the input. *)
Lemma xmlTag_matcher tag x :
  matcher (xmlTagRegex tag) x Some
  = if startsWith_i (openingTag tag) (after x) then
      option_map
        (fun j =>
           advance (length (closingTag tag))
             (setCap 1 (firstn j (skipn (length (openingTag tag)) (after x)))
                     (advance j (advance (length (openingTag tag)) x))))
        (indexOf_i (closingTag tag) (skipn (length (openingTag tag)) (after x)))
    else None.
Proof.
  unfold xmlTagRegex, cat. cbn [fold_right]. rewrite three_lits.
  fold (openingTag tag).
  destruct (startsWith_i (openingTag tag) (after x)); [|reflexivity].
  rewrite Seq_unfold, Grp_unfold.
  set (x3 := advance (length (openingTag tag)) x).
  rewrite (@lazy_any_spec (startsWith_i (closingTag tag))
             (fun y => advance (length (closingTag tag))
                         (setCap 1 (firstn (pos y - pos x3) (after x3)) y))).
  - assert (Ha : after x3 = skipn (length (openingTag tag)) (after x))
      by apply after_advance.
    unfold indexOf_i. rewrite <- Ha.
    destruct (firstIndex _ (after x3)) as [j|]; [|reflexivity].
    cbn [option_map]. f_equal. f_equal. f_equal.
    rewrite pos_advance.
    replace (pos x3 + Nat.min j (length (after x3)) - pos x3)
      with (Nat.min j (length (after x3))) by lia.
    generalize (after x3). intros s.
    destruct (Nat.le_ge_cases j (length s)) as [H|H].
    + now rewrite Nat.min_l.
    + rewrite Nat.min_r by exact H. now rewrite !firstn_all2 by lia.
  - intros y. rewrite three_lits. fold (closingTag tag). reflexivity.
Qed.

End TagFacts2.

Section TagFacts3.

Lemma firstIndex_skipn_none ok s :
  firstIndex ok s = None -> forall n, firstIndex ok (skipn n s) = None.
Proof.
  induction s as [|c s IH]; intros H n.
  - now rewrite skipn_nil.
  - destruct n as [|n]; [exact H|]. simpl skipn. apply IH.
    simpl in H. destruct (ok (c :: s)); [discriminate|].
    destruct (firstIndex ok s); [discriminate|reflexivity].
Qed.

Lemma openingTag_length tag : exists n, length (openingTag tag) = S n.
Proof. unfold openingTag. simpl. eexists. reflexivity. Qed.

(** The first match of the pattern of [extractXmlTag] captures the text
    between the first opening tag and the first closing tag after it. *)
Lemma xmlTag_search tag :
  forall aft bef p,
    match search (xmlTagRegex tag) bef p aft with
    | Some m => group 1 m
    | None => None
    end
    = between_i (openingTag tag) (closingTag tag) aft.
Proof.
  destruct (openingTag_length tag) as [n Hn].
  assert (Hnil : startsWith_i (openingTag tag) [] = false) by reflexivity.
  induction aft as [|c rest IH]; intros bef p.
  - cbn [search]. rewrite xmlTag_matcher. cbn [after]. rewrite Hnil.
    unfold between_i, indexOf_i. cbn [firstIndex]. now rewrite Hnil.
  - cbn [search]. rewrite xmlTag_matcher. cbn [after].
    unfold between_i, indexOf_i. cbn [firstIndex].
    destruct (startsWith_i (openingTag tag) (c :: rest)) eqn:Hs.
    + cbn [Nat.add]. unfold indexOf_i.
      destruct (firstIndex (startsWith_i (closingTag tag))
                           (skipn (length (openingTag tag)) (c :: rest)))
        as [j|] eqn:J.
      * cbn [option_map]. unfold group. cbn [snd]. rewrite caps_advance.
        reflexivity.
      * cbn [option_map]. rewrite IH. unfold between_i, indexOf_i.
        destruct (firstIndex (startsWith_i (openingTag tag)) rest) as [i|]; [|reflexivity].
        replace (skipn (i + length (openingTag tag)) rest)
          with (skipn (S i) (skipn (length (openingTag tag)) (c :: rest))).
        -- now rewrite (firstIndex_skipn_none _ _ J).
        -- rewrite skipn_skipn. reflexivity.
    + rewrite IH. unfold between_i, indexOf_i.
      destruct (firstIndex (startsWith_i (openingTag tag)) rest) as [i|]; reflexivity.
Qed.

Lemma extractXmlTag_between text tag :
  extractXmlTag text tag
  = trim (orDefault (between_i (openingTag tag) (closingTag tag) text) (js "")).
Proof. unfold extractXmlTag, exec. now rewrite xmlTag_search. Qed.

End TagFacts3.

(** ** Locating a tag in an answer *)

Section LocateFacts.

Lemma option_map_add0 (o : option nat) : option_map (Nat.add 0) o = o.
Proof. now destruct o. Qed.

Lemma option_map_addS n (o : option nat) :
  option_map S (option_map (Nat.add n) o) = option_map (Nat.add (S n)) o.
Proof. now destruct o. Qed.

Lemma startsWith_i_self p s : startsWith_i p (p ++ s) = true.
Proof.
  induction p as [|c p IH]; simpl; [reflexivity|]. now rewrite N.eqb_refl, IH.
Qed.

Lemma found_here p s : indexOf_i p (p ++ s) = Some 0.
Proof.
  unfold indexOf_i. destruct (p ++ s) eqn:E; simpl; rewrite <- E, startsWith_i_self;
    reflexivity.
Qed.

Lemma clash_startsWith p blk s : clash p blk = true -> startsWith_i p (blk ++ s) = false.
Proof.
  revert blk. induction p as [|c p IH]; intros blk H; [destruct blk; discriminate|].
  destruct blk as [|d blk]; [discriminate|]. simpl in *.
  destruct (canonicalize d =? canonicalize c)%N; [|reflexivity].
  simpl in H. now apply IH.
Qed.

Lemma skip_block p blk s :
  clashes p blk = true ->
  indexOf_i p (blk ++ s) = option_map (Nat.add (length blk)) (indexOf_i p s).
Proof.
  unfold indexOf_i. induction blk as [|d blk IH]; intros H.
  - simpl. now rewrite option_map_add0.
  - simpl in H. apply andb_true_iff in H as [H1 H2].
    cbn [app firstIndex]. change (d :: blk ++ s) with ((d :: blk) ++ s).
    rewrite (clash_startsWith _ _ s H1), (IH H2). apply option_map_addS.
Qed.

(** A match that starts in [a] lies within [a] or goes on into what
    follows. *)
Lemma startsWith_i_straddle p :
  forall a s,
    startsWith_i p (a ++ s) = true ->
    startsWith_i p a = true
    \/ exists p1 c p2,
        p = p1 ++ c :: p2 /\ length p1 = length a /\ startsWith_i (c :: p2) s = true.
Proof.
  induction p as [|c p IH]; intros a s H; [now left|].
  destruct a as [|d a].
  - right. now exists [], c, p.
  - simpl in H. apply andb_true_iff in H as [H1 H2].
    destruct (IH _ _ H2) as [Hl|(p1 & c' & p2 & -> & Hlen & Hs)].
    + left. simpl. now rewrite H1, Hl.
    + right. exists (c :: p1), c', p2. simpl. auto.
Qed.

Lemma canonicalize_lt_pattern c :
  (canonicalize 60 =? canonicalize c)%N = true -> c = 60%N.
Proof. rewrite N.eqb_sym. apply canonicalize_lt. Qed.

Lemma skip_content p p' pre s s' :
  p = 60%N :: p' -> ~ In 60%N p' -> s = 60%N :: s' ->
  indexOf_i p pre = None ->
  indexOf_i p (pre ++ s) = option_map (Nat.add (length pre)) (indexOf_i p s).
Proof.
  intros -> Hp' -> . unfold indexOf_i. induction pre as [|d pre IH]; intros H.
  - cbn [app length]. now rewrite option_map_add0.
  - cbn [firstIndex] in H.
    destruct (startsWith_i (60%N :: p') (d :: pre)) eqn:Hs; [discriminate|].
    destruct (firstIndex (startsWith_i (60%N :: p')) pre) eqn:Hi; [discriminate|].
    cbn [app firstIndex]. change (d :: pre ++ 60%N :: s') with ((d :: pre) ++ 60%N :: s').
    destruct (startsWith_i (60%N :: p') ((d :: pre) ++ 60%N :: s')) eqn:Hw.
    + exfalso. apply startsWith_i_straddle in Hw as [Hw|(p1 & c & p2 & E & Hlen & Hw)].
      * congruence.
      * simpl in Hw. apply andb_true_iff in Hw as [Hc _].
        apply canonicalize_lt_pattern in Hc. subst c.
        destruct p1 as [|c1 p1]; [discriminate|]. injection E as _ E.
        apply Hp'. rewrite E. apply in_or_app. right. now left.
    + rewrite (IH eq_refl). apply option_map_addS.
Qed.

Lemma skipn_app_length (A : Type) (a s : list A) n :
  skipn (length a + n) (a ++ s) = skipn n s.
Proof. induction a as [|x a IH]; simpl; [reflexivity|exact IH]. Qed.

Lemma firstn_app_length (A : Type) (a s : list A) :
  firstn (length a) (a ++ s) = a.
Proof. induction a as [|x a IH]; simpl; [reflexivity|now rewrite IH]. Qed.

Lemma between_located opening closing pre body rest :
  indexOf_i opening (pre ++ opening ++ body ++ closing ++ rest) = Some (length pre) ->
  indexOf_i closing (body ++ closing ++ rest) = Some (length body) ->
  between_i opening closing (pre ++ opening ++ body ++ closing ++ rest) = Some body.
Proof.
  intros H1 H2. unfold between_i. rewrite H1. cbv zeta.
  rewrite skipn_app_length.
  replace (length opening) with (length opening + 0) by lia.
  rewrite skipn_app_length. cbn [skipn]. rewrite H2.
  now rewrite firstn_app_length.
Qed.

End LocateFacts.

Section AnswerFacts.

Lemma skip_text p pre s :
  hd_error p = Some 60%N -> existsb (N.eqb 60) (tl p) = false ->
  hd_error s = Some 60%N ->
  indexOf_i p pre = None ->
  indexOf_i p (pre ++ s) = option_map (Nat.add (length pre)) (indexOf_i p s).
Proof.
  intros Hp Hp' Hs Hpre.
  destruct p as [|c p']; [discriminate|]. injection Hp as ->.
  destruct s as [|d s']; [discriminate|]. injection Hs as ->.
  apply skip_content with (p' := p') (s' := s'); try reflexivity; [|exact Hpre].
  intros Hin. simpl in Hp'.
  assert (E : existsb (N.eqb 60) p' = true)
    by (apply existsb_exists; exists 60%N; split; [exact Hin|apply N.eqb_refl]).
  congruence.
Qed.

Lemma holdsNoTag_cases s :
  holdsNoTag s ->
  (indexOf_i (openingTag "observations") s = None
   /\ indexOf_i (closingTag "observations") s = None)
  /\ (indexOf_i (openingTag "current-task") s = None
      /\ indexOf_i (closingTag "current-task") s = None)
  /\ (indexOf_i (openingTag "suggested-response") s = None
      /\ indexOf_i (closingTag "suggested-response") s = None).
Proof.
  unfold holdsNoTag, sectionTags. intros H.
  apply Forall_cons_iff in H as [H1 H]. apply Forall_cons_iff in H as [H2 H].
  apply Forall_cons_iff in H as [H3 _]. auto.
Qed.

Lemma hd_error_app (A : Type) (a s : list A) c :
  hd_error a = Some c -> hd_error (a ++ s) = Some c.
Proof. destruct a; [discriminate|now intros H]. Qed.

End AnswerFacts.

(** Three blocks one after the other, each between tags that start with
    [<], hold no other [<] and cannot be taken for one another. *)
Section ThreeBlocks.

Variables Oo Co Ot Ct Or Cr : jsstring.

Hypothesis Oo_head : hd_error Oo = Some 60%N.
Hypothesis Co_head : hd_error Co = Some 60%N.
Hypothesis Ot_head : hd_error Ot = Some 60%N.
Hypothesis Ct_head : hd_error Ct = Some 60%N.
Hypothesis Or_head : hd_error Or = Some 60%N.
Hypothesis Cr_head : hd_error Cr = Some 60%N.
Hypothesis Oo_tail : existsb (N.eqb 60) (tl Oo) = false.
Hypothesis Co_tail : existsb (N.eqb 60) (tl Co) = false.
Hypothesis Ot_tail : existsb (N.eqb 60) (tl Ot) = false.
Hypothesis Ct_tail : existsb (N.eqb 60) (tl Ct) = false.
Hypothesis Or_tail : existsb (N.eqb 60) (tl Or) = false.
Hypothesis Cr_tail : existsb (N.eqb 60) (tl Cr) = false.
Hypothesis Ot_Oo : clashes Ot Oo = true.
Hypothesis Ot_Co : clashes Ot Co = true.
Hypothesis Or_Oo : clashes Or Oo = true.
Hypothesis Or_Co : clashes Or Co = true.
Hypothesis Or_Ot : clashes Or Ot = true.
Hypothesis Or_Ct : clashes Or Ct = true.

Variables pre o s1 t s2 r post : jsstring.

Hypothesis pre_Oo : indexOf_i Oo pre = None.
Hypothesis pre_Ot : indexOf_i Ot pre = None.
Hypothesis pre_Or : indexOf_i Or pre = None.
Hypothesis o_Co : indexOf_i Co o = None.
Hypothesis o_Ot : indexOf_i Ot o = None.
Hypothesis o_Or : indexOf_i Or o = None.
Hypothesis s1_Ot : indexOf_i Ot s1 = None.
Hypothesis s1_Or : indexOf_i Or s1 = None.
Hypothesis t_Ct : indexOf_i Ct t = None.
Hypothesis t_Or : indexOf_i Or t = None.
Hypothesis s2_Or : indexOf_i Or s2 = None.
Hypothesis r_Cr : indexOf_i Cr r = None.

Local Ltac side := first [assumption | now apply hd_error_app].

Lemma between_first :
  between_i Oo Co
    (pre ++ Oo ++ o ++ Co ++ s1 ++ Ot ++ t ++ Ct ++ s2 ++ Or ++ r ++ Cr ++ post)
  = Some o.
Proof.
  apply between_located.
  - rewrite (@skip_text Oo pre) by side. rewrite found_here.
    cbn [option_map]. f_equal. lia.
  - rewrite (@skip_text Co o) by side. rewrite found_here.
    cbn [option_map]. f_equal. lia.
Qed.

Lemma between_second :
  between_i Ot Ct
    (pre ++ Oo ++ o ++ Co ++ s1 ++ Ot ++ t ++ Ct ++ s2 ++ Or ++ r ++ Cr ++ post)
  = Some t.
Proof.
  replace (pre ++ Oo ++ o ++ Co ++ s1 ++ Ot ++ t ++ Ct ++ s2 ++ Or ++ r ++ Cr ++ post)
    with ((pre ++ Oo ++ o ++ Co ++ s1) ++ Ot ++ t ++ Ct
            ++ (s2 ++ Or ++ r ++ Cr ++ post))
    by (now rewrite <- !app_assoc).
  apply between_located.
  - rewrite <- !app_assoc.
    rewrite (@skip_text Ot pre) by side. rewrite (@skip_block Ot Oo) by side.
    rewrite (@skip_text Ot o) by side. rewrite (@skip_block Ot Co) by side.
    rewrite (@skip_text Ot s1) by side. rewrite found_here.
    cbn [option_map]. f_equal. rewrite !length_app. lia.
  - rewrite (@skip_text Ct t) by side. rewrite found_here.
    cbn [option_map]. f_equal. lia.
Qed.

Lemma between_third :
  between_i Or Cr
    (pre ++ Oo ++ o ++ Co ++ s1 ++ Ot ++ t ++ Ct ++ s2 ++ Or ++ r ++ Cr ++ post)
  = Some r.
Proof.
  replace (pre ++ Oo ++ o ++ Co ++ s1 ++ Ot ++ t ++ Ct ++ s2 ++ Or ++ r ++ Cr ++ post)
    with ((pre ++ Oo ++ o ++ Co ++ s1 ++ Ot ++ t ++ Ct ++ s2) ++ Or ++ r ++ Cr ++ post)
    by (now rewrite <- !app_assoc).
  apply between_located.
  - rewrite <- !app_assoc.
    rewrite (@skip_text Or pre) by side. rewrite (@skip_block Or Oo) by side.
    rewrite (@skip_text Or o) by side. rewrite (@skip_block Or Co) by side.
    rewrite (@skip_text Or s1) by side. rewrite (@skip_block Or Ot) by side.
    rewrite (@skip_text Or t) by side. rewrite (@skip_block Or Ct) by side.
    rewrite (@skip_text Or s2) by side. rewrite found_here.
    cbn [option_map]. f_equal. rewrite !length_app. lia.
  - rewrite (@skip_text Cr r) by side. rewrite found_here.
    cbn [option_map]. f_equal. lia.
Qed.

End ThreeBlocks.

Section AnswerFacts2.

(** The three blocks of an answer in the format the prompts ask for. *)
Lemma between_answer pre o s1 t s2 r post :
  holdsNoTag pre -> holdsNoTag o -> holdsNoTag s1 -> holdsNoTag t ->
  holdsNoTag s2 -> holdsNoTag r ->
  let text :=
    pre ++ openingTag "observations" ++ o ++ closingTag "observations"
        ++ s1 ++ openingTag "current-task" ++ t ++ closingTag "current-task"
        ++ s2 ++ openingTag "suggested-response" ++ r
        ++ closingTag "suggested-response" ++ post in
  between_i (openingTag "observations") (closingTag "observations") text = Some o
  /\ between_i (openingTag "current-task") (closingTag "current-task") text = Some t
  /\ between_i (openingTag "suggested-response") (closingTag "suggested-response") text
     = Some r.
Proof.
  intros Hpre Ho Hs1 Ht Hs2 Hr text. unfold text. clear text.
  apply holdsNoTag_cases in Hpre as ((P1 & _) & (P2 & _) & (P3 & _)).
  apply holdsNoTag_cases in Ho as ((_ & O1) & (O2 & _) & (O3 & _)).
  apply holdsNoTag_cases in Hs1 as (_ & (S2 & _) & (S3 & _)).
  apply holdsNoTag_cases in Ht as (_ & (_ & T2) & (T3 & _)).
  apply holdsNoTag_cases in Hs2 as (_ & _ & (U3 & _)).
  apply holdsNoTag_cases in Hr as (_ & _ & (_ & R3)).
  split; [|split].
  - apply between_first; solve [assumption | reflexivity].
  - apply between_second; solve [assumption | reflexivity].
  - apply between_third; solve [assumption | reflexivity].
Qed.

End AnswerFacts2.

(** ** The code fence around an answer *)

Section FenceFacts.

Lemma stripPrefix_app p s : stripPrefix p (p ++ s) = Some s.
Proof.
  induction p as [|c p IH]; simpl; [reflexivity|]. now rewrite N.eqb_refl.
Qed.

(** A literal matches where the input starts with it. *)
Lemma lit_spec cs tail x k :
  matcher (fold_right Seq tail (map chr cs)) x k
  = match stripPrefix cs (after x) with
    | Some _ => matcher tail (advance (length cs) x) k
    | None => None
    end.
Proof.
  revert x. induction cs as [|c cs IH]; intros x; [reflexivity|].
  cbn [map fold_right matcher chr stripPrefix length advance].
  destruct (after x) as [|d rest]; [reflexivity|].
  destruct (c =? d)%N; [|reflexivity].
  rewrite IH. reflexivity.
Qed.

Lemma lit_seq s tail x k :
  matcher (Seq (lit s) tail) x k
  = match stripPrefix (js s) (after x) with
    | Some _ => matcher tail (advance (length (js s)) x) k
    | None => None
    end.
Proof.
  rewrite Seq_unfold. unfold lit, cat. rewrite lit_spec.
  destruct (stripPrefix (js s) (after x)); reflexivity.
Qed.

Lemma after_advance_app a s x :
  after x = a ++ s -> after (advance (length a) x) = s.
Proof.
  intros E. rewrite after_advance, E.
  replace (length a) with (length a + 0) by lia. now rewrite skipn_app_length.
Qed.

(** A greedy [p*] in front of a character that is not in [p] takes the
    whole run when what follows it succeeds there. *)
Lemma star_run (p : jschar -> bool) (k : mstate -> option mstate) z :
  forall lang x s,
    after x = lang ++ s ->
    forallb p lang = true ->
    match s with c :: _ => p c = false | [] => True end ->
    k (advance (length lang) x) = Some z ->
    matcher (star (Cls p)) x k = Some z.
Proof.
  intros lang x s. unfold star. cbn [matcher].
  assert (Hfuel : length (after x) < 0 + length (after x) + 1) by lia.
  revert Hfuel. generalize (0 + length (after x) + 1) as fuel. intros fuel.
  revert lang x. induction fuel as [|fuel IH]; intros lang x Hfuel E Hlang Hs Hk; [lia|].
  cbn [Nat.eqb negb Nat.pred option_map andb].
  destruct lang as [|c lang].
  - simpl in E, Hk. rewrite E.
    destruct s as [|d s']; [exact Hk|]. rewrite Hs. exact Hk.
  - simpl in E, Hlang. apply andb_true_iff in Hlang as [Hc Hlang].
    rewrite E, Hc. cbn [pos].
    replace (Nat.eqb (S (pos x)) (pos x)) with false
      by (symmetry; apply Nat.eqb_neq; lia).
    rewrite (IH lang _); [reflexivity| | | | |].
    + rewrite E in Hfuel. simpl in *. lia.
    + reflexivity.
    + exact Hlang.
    + exact Hs.
    + simpl in Hk. rewrite E in Hk. exact Hk.
Qed.

End FenceFacts.

Section FenceFacts2.

Lemma stripPrefix_some p :
  forall s l, stripPrefix p s = Some l -> s = p ++ l.
Proof.
  induction p as [|c p IH]; intros s l H; simpl in H.
  - now injection H as ->.
  - destruct s as [|d s]; [discriminate|].
    destruct (c =? d)%N eqn:E; [|discriminate].
    apply N.eqb_eq in E. subst d. simpl. f_equal. now apply IH.
Qed.

(** What follows the captured group of the fence pattern accepts exactly
    a line break and the closing fence at the end of the text. *)
Lemma fence_close x :
  matcher (cat [chr NL; lit "```"; Eol false]) x Some
  = if jseq (after x) (NL :: js "```") then Some (advance 4 x) else None.
Proof.
  unfold cat. cbn [fold_right].
  change (Seq (chr NL) (Seq (lit "```") (Seq (Eol false) Eps)))
    with (fold_right Seq (Seq (lit "```") (Seq (Eol false) Eps)) (map chr [NL])).
  rewrite lit_spec.
  destruct (jseq (after x) (NL :: js "```")) eqn:J.
  - apply jseq_eq in J. rewrite J. cbn [stripPrefix]. rewrite N.eqb_refl.
    rewrite lit_seq, after_advance, J. cbn [length skipn].
    rewrite Seq_unfold. cbn [matcher]. rewrite advance_add, after_advance, J.
    reflexivity.
  - destruct (stripPrefix [NL] (after x)) as [s1|] eqn:E1; [|reflexivity].
    apply stripPrefix_some in E1.
    rewrite lit_seq, (@after_advance_app [NL] s1 x E1).
    destruct (stripPrefix (js "```") s1) as [s2|] eqn:E2; [|reflexivity].
    apply stripPrefix_some in E2.
    rewrite Seq_unfold. cbn [matcher]. rewrite advance_add, after_advance, E1, E2.
    cbn [length Nat.add app skipn].
    destruct s2 as [|c s2]; [|reflexivity].
    exfalso. rewrite E1, E2 in J. rewrite jseq_refl in J. discriminate.
Qed.

End FenceFacts2.

Section FenceFacts3.

Lemma Bol_start multiline x k : before x = [] -> matcher (Bol multiline) x k = k x.
Proof. intros E. simpl. now rewrite E. Qed.

Lemma fence_close_index body :
  firstIndex (fun s => jseq s (NL :: js "```")) (body ++ NL :: js "```")
  = Some (length body).
Proof.
  induction body as [|c body IH].
  - reflexivity.
  - cbn [app firstIndex length].
    destruct (jseq (c :: body ++ NL :: js "```") (NL :: js "```")) eqn:J.
    + apply jseq_eq in J. apply (f_equal (@length jschar)) in J.
      simpl in J. rewrite length_app in J. simpl in J. lia.
    + now rewrite IH.
Qed.

(** The fence pattern on a fenced text captures what the fence holds. *)
Lemma fence_matcher lang body :
  forallb (fun c => isWordChar c || (c =? 45)%N) lang = true ->
  exists y,
    matcher codeFenceRegex
            {| before := []; after := js "```" ++ lang ++ [NL] ++ body ++ [NL] ++ js "```";
               pos := 0; caps := [] |} Some = Some y
    /\ getCap 1 (caps y) = Some body.
Proof.
  intros Hlang.
  set (x0 := {| before := []; after := js "```" ++ lang ++ [NL] ++ body ++ [NL] ++ js "```";
                pos := 0; caps := [] |}).
  assert (A0 : after x0 = js "```" ++ lang ++ [NL] ++ body ++ [NL] ++ js "```")
    by reflexivity.
  assert (B0 : before x0 = []) by reflexivity.
  clearbody x0.
  unfold codeFenceRegex, cat. cbn [fold_right].
  rewrite Seq_unfold, (Bol_start _ _ _ B0).
  rewrite lit_seq, A0, stripPrefix_app.
  set (x1 := advance (length (js "```")) x0).
  assert (A1 : after x1 = lang ++ [NL] ++ body ++ [NL] ++ js "```")
    by (apply after_advance_app; exact A0).
  clearbody x1.
  rewrite Seq_unfold.
  set (x2 := advance (length lang) x1).
  assert (A2 : after x2 = [NL] ++ body ++ [NL] ++ js "```")
    by (apply after_advance_app; exact A1).
  set (x3 := advance 1 x2).
  assert (A3 : after x3 = body ++ [NL] ++ js "```")
    by (apply (@after_advance_app [NL]); exact A2).
  eexists. split.
  - apply star_run with (lang := lang) (s := [NL] ++ body ++ [NL] ++ js "```");
      [exact A1|exact Hlang|reflexivity|].
    fold x2.
    change (Seq (chr NL) ?r) with (fold_right Seq r (map chr [NL])).
    rewrite lit_spec, A2. cbn [stripPrefix app]. rewrite N.eqb_refl.
    cbn [length]. fold x3.
    rewrite Seq_unfold, Grp_unfold.
    rewrite (@lazy_any_spec (fun s => jseq s (NL :: js "```"))
               (fun y => advance 4 (setCap 1 (firstn (pos y - pos x3) (after x3)) y))).
    + rewrite A3. change ([NL] ++ js "```") with (NL :: js "```").
      rewrite fence_close_index. reflexivity.
    + intros y'.
      change (Seq (chr NL) (Seq (lit "```") (Seq (Eol false) Eps)))
        with (cat [chr NL; lit "```"; Eol false]).
      rewrite fence_close. reflexivity.
  - cbn [option_map]. rewrite caps_advance. cbn [setCap caps getCap Nat.eqb].
    rewrite pos_advance, A3, length_app, Nat.min_l by lia.
    change (NL :: js "```") with ([NL] ++ js "```").
    replace (pos x3 + length body - pos x3) with (length body) by lia.
    now rewrite firstn_app_length.
Qed.

End FenceFacts3.

Section FenceFacts4.

Lemma Bol_inside r c bef p aft cs k :
  matcher (Seq (Bol false) r)
          {| before := c :: bef; after := aft; pos := p; caps := cs |} k = None.
Proof. reflexivity. Qed.

Lemma search_inside r :
  forall aft c bef p, search (Seq (Bol false) r) (c :: bef) p aft = None.
Proof.
  induction aft as [|d rest IH]; intros c bef p; cbn [search]; rewrite Bol_inside;
    [reflexivity|apply IH].
Qed.

(** A pattern anchored at the start is tried at the start only. *)
Lemma exec_anchored r text :
  exec (Seq (Bol false) r) text
  = match matcher r {| before := []; after := text; pos := 0; caps := [] |} Some with
    | Some y => Some ({| before := []; after := text; pos := 0; caps := [] |}, y)
    | None => None
    end.
Proof.
  unfold exec. destruct text as [|c rest]; cbn [search]; rewrite Seq_unfold;
    rewrite Bol_start by reflexivity;
    (destruct (matcher r _ Some); [reflexivity|]); [reflexivity|apply search_inside].
Qed.

Lemma stripSingleCodeFence_plain raw :
  stripPrefix (js "```") (trim raw) = None -> stripSingleCodeFence raw = trim raw.
Proof.
  intros H. unfold stripSingleCodeFence, codeFenceRegex, cat. cbn [fold_right].
  rewrite exec_anchored, lit_seq. cbn [after]. now rewrite H.
Qed.

Lemma stripSingleCodeFence_fenced raw lang body :
  forallb (fun c => isWordChar c || (c =? 45)%N) lang = true ->
  trim raw = js "```" ++ lang ++ [NL] ++ body ++ [NL] ++ js "```" ->
  stripSingleCodeFence raw = trim body.
Proof.
  intros Hlang E. destruct (@fence_matcher lang body Hlang) as (y & Hy & Hcap).
  unfold stripSingleCodeFence. rewrite E.
  unfold codeFenceRegex, cat in *. cbn [fold_right] in *.
  rewrite exec_anchored. rewrite Seq_unfold, Bol_start in Hy by reflexivity.
  rewrite Hy. unfold group. cbn [snd]. now rewrite Hcap.
Qed.

End FenceFacts4.

(** ** The recent turns keep what the budget affords *)

Section AffordableTail.
Local Open Scope Z_scope.

Variable roughTextTokenizerWith : jsstring -> jsstring -> Z.
Variable jsonStringify : JsVal -> jsstring.

(** While the messages still to come fit the budget, the loop does not
    stop among them. *)
Lemma budgetLoop_tail modelHint budgetTokens len revTail revOlder :
  Forall (fun m => 0 <= messageTokens roughTextTokenizerWith jsonStringify modelHint m)
         revTail ->
  forall start used,
    revTail <> [] ->
    used + messagesTokens (messageTokens roughTextTokenizerWith jsonStringify modelHint)
                          revTail <= budgetTokens ->
    (budgetLoop roughTextTokenizerWith jsonStringify modelHint budgetTokens len
                (revTail ++ revOlder) start used <= length revOlder)%nat.
Proof.
  induction 1 as [|msg earlier Hmsg Hpos IH]; intros start used Hne Hfit;
    [congruence|].
  cbn [app budgetLoop]. cbn [messagesTokens fold_right] in Hfit.
  fold (messagesTokens (messageTokens roughTextTokenizerWith jsonStringify modelHint)
                       earlier) in Hfit.
  assert (Hrest : 0 <= messagesTokens
                         (messageTokens roughTextTokenizerWith jsonStringify modelHint)
                         earlier).
  { clear -Hpos. unfold messagesTokens.
    induction Hpos as [|m r Hm _ IHr]; cbn [fold_right]; lia. }
  destruct (Z.ltb_spec budgetTokens
              (used + messageTokens roughTextTokenizerWith jsonStringify modelHint msg));
    [lia|].
  cbn [andb]. destruct earlier as [|m2 r].
  - cbn [app].
    destruct (budgetLoop_range roughTextTokenizerWith jsonStringify modelHint budgetTokens
                len revOlder (length revOlder)
                (used + messageTokens roughTextTokenizerWith jsonStringify modelHint msg))
      as [E|L]; [rewrite E|]; lia.
  - apply IH; [discriminate|lia].
Qed.

Lemma selectRecent_tail older tail budgetTokens modelHint :
  Forall (fun m => 0 <= messageTokens roughTextTokenizerWith jsonStringify modelHint m)
         tail ->
  messagesTokens (messageTokens roughTextTokenizerWith jsonStringify modelHint) tail
    <= budgetTokens ->
  exists more,
    selectRecentTurnsByTokenBudget roughTextTokenizerWith jsonStringify
      (older ++ tail) budgetTokens modelHint = more ++ tail.
Proof.
  intros Hpos Hfit.
  destruct tail as [|t0 ts] eqn:Et.
  { eexists. now rewrite !app_nil_r. }
  rewrite <- Et in *.
  assert (Hne : tail <> []) by (rewrite Et; discriminate).
  unfold selectRecentTurnsByTokenBudget.
  destruct (older ++ tail) as [|m0 ms] eqn:Em.
  { apply app_eq_nil in Em as [_ Em]. congruence. }
  rewrite <- Em. cbv zeta.
  set (start0 := budgetLoop _ _ _ _ _ _ _ _).
  assert (H0 : (start0 <= length older)%nat).
  { unfold start0. rewrite rev_app_distr, <- (length_rev older).
    apply budgetLoop_tail.
    - apply Forall_rev. exact Hpos.
    - intros E. apply Hne. apply (f_equal (@rev JsVal)) in E.
      now rewrite rev_involutive in E.
    - rewrite messagesTokens_rev. lia. }
  pose proof (turnBoundaryLoop_le (older ++ tail) start0) as Hle.
  set (start := turnBoundaryLoop (older ++ tail) start0) in *.
  exists (skipn start older). rewrite skipn_app.
  replace (start - length older)%nat with 0%nat by lia. reflexivity.
Qed.

End AffordableTail.

(** ** Replacing every run of a class *)

Section ReplaceClass.

Variable q : jschar -> bool.
Variable m : mstate -> option mstate.
Variable repl : jsstring.
Variable text : jsstring.

Hypothesis m_forward : forward 1 m.
Hypothesis m_total :
  forall x, m x = None -> match after x with c :: _ => q c = false | [] => True end.

(** The search passes over characters outside the class only. *)
Lemma searchBy_gap :
  forall aft bef p,
    match searchBy m bef p aft with
    | None => Forall (fun c => q c = false) aft
    | Some (x, y) =>
        exists gap, aft = gap ++ after x
                    /\ Forall (fun c => q c = false) gap
                    /\ pos x = p + length gap
    end.
Proof.
  induction aft as [|c rest IH]; intros bef p; cbn [searchBy].
  - destruct (m _) as [y|] eqn:E; [|constructor].
    exists []. split; [reflexivity|]. split; [constructor|simpl; lia].
  - destruct (m _) as [y|] eqn:E.
    + exists []. split; [reflexivity|]. split; [constructor|simpl; lia].
    + apply m_total in E. cbn [after] in E.
      specialize (IH (c :: bef) (S p)).
      destruct (searchBy m (c :: bef) (S p) rest) as [[x y]|].
      * destruct IH as (gap & Ea & Hgap & Hpos). exists (c :: gap).
        split; [simpl; now rewrite Ea|]. split; [now constructor|simpl; lia].
      * now constructor.
Qed.

(** After the replacement, a character of the class comes from the
    replacement text. *)
Lemma splice_class :
  forall fuel bef p aft,
    placed text {| before := bef; after := aft; pos := p; caps := [] |} ->
    length aft < fuel ->
    Forall (fun c => q c = false \/ In c repl)
           (spliceMatches (fun _ => repl) p text (matchAllFromBy m fuel bef p aft)).
Proof.
  induction fuel as [|fuel IH]; intros bef p aft Hp Hfuel; [lia|].
  cbn [matchAllFromBy]. pose proof (searchBy_gap aft bef p) as Hgap.
  pose proof (placed_after Hp) as Ha. cbn [after pos] in Ha.
  destruct (searchBy m bef p aft) as [[x y]|] eqn:E.
  - destruct Hgap as (gap & Ea & Hgap & Hpos).
    destruct (searchBy_placed m_forward Hp E) as (Hx & Hy & H1 & H2).
    replace (Nat.eqb (pos y) (pos x)) with false by (symmetry; apply Nat.eqb_neq; lia).
    cbn [spliceMatches fst snd]. unfold substring. rewrite <- Ha, Hpos.
    replace (p + length gap - p) with (length gap) by lia.
    rewrite Ea, firstn_app_length.
    apply Forall_app. split; [eapply Forall_impl; [|exact Hgap]; now left|].
    apply Forall_app. split; [apply Forall_forall; now right|].
    apply IH.
    + destruct Hy as [T P]. split; assumption.
    + rewrite (placed_after Hy), length_skipn.
      rewrite Ha, length_skipn in Hfuel. pose proof (placed_le Hy). lia.
  - cbn [spliceMatches]. rewrite <- Ha.
    eapply Forall_impl; [|exact Hgap]. now left.
Qed.

Lemma replaceAllBy_class :
  Forall (fun c => q c = false \/ In c repl) (replaceAllBy m (fun _ => repl) text).
Proof.
  unfold replaceAllBy. apply splice_class; [|lia]. split; reflexivity.
Qed.

End ReplaceClass.

Section PreviewFacts.

(** [p+] matches wherever a character of [p] stands. *)
Lemma plus_total (q : jschar -> bool) x :
  matcher (plus (Cls q)) x Some = None ->
  match after x with c :: _ => q c = false | [] => True end.
Proof.
  intros H. destruct (after x) as [|c rest] eqn:E; [exact I|].
  destruct (q c) eqn:Q; [exfalso|reflexivity].
  unfold plus in H. cbn [matcher] in H. rewrite E in H.
  cbn [length Nat.add Nat.eqb negb] in H. rewrite E, Q in H.
  cbn [Nat.eqb andb Nat.pred option_map negb] in H.
  match type of H with orElse ?a _ = None => destruct a; discriminate end.
Qed.

Lemma replace_spaces text :
  Forall (fun c => isJsSpace c = true -> c = 32%N)
         (replaceAll (plus ws) (fun _ => js " ") text).
Proof.
  rewrite replaceAll_By.
  eapply Forall_impl;
    [|apply (@replaceAllBy_class isJsSpace (fun x => matcher (plus ws) x Some) (js " ") text)].
  - intros c [H|[H|[]]] Hc; [congruence|now symmetry].
  - apply (matcher_forward (plus ws)).
  - intros x. apply plus_total.
Qed.

Lemma trimPreview_spec text maxChars :
  length (trimPreview text maxChars) <= S maxChars
  /\ Forall (fun c => isJsSpace c = true -> c = 32%N) (trimPreview text maxChars)
  /\ match trimPreview text maxChars with
     | c :: _ => isJsSpace c = false
     | [] => True
     end.
Proof.
  unfold trimPreview. cbv zeta.
  pose proof (trim_trimmed (replaceAll (plus ws) (fun _ => js " ") text)) as [Hhead _].
  assert (Hall : Forall (fun c => isJsSpace c = true -> c = 32%N)
                        (trim (replaceAll (plus ws) (fun _ => js " ") text))).
  { pose proof (proj1 (Forall_forall _ _) (replace_spaces text)) as Hin.
    apply Forall_forall. intros c Hc. apply Hin. now apply trim_incl. }
  generalize dependent (trim (replaceAll (plus ws) (fun _ => js " ") text)).
  intros normalized Hhead Hall.
  destruct (Nat.leb_spec (length normalized) maxChars) as [Hle|Hgt].
  - split; [lia|]. split; [exact Hall|exact Hhead].
  - unfold sliceTo. split; [|split].
    + rewrite length_app, length_firstn. simpl. lia.
    + apply Forall_app. split.
      * pose proof (proj1 (Forall_forall _ _) Hall) as Hin.
        apply Forall_forall. intros c Hc. apply Hin. now apply firstn_incl in Hc.
      * constructor; [|constructor]. intros Hc. vm_compute in Hc. discriminate.
    + destruct normalized as [|c rest]; [simpl in Hgt; lia|].
      destruct maxChars as [|n]; [reflexivity|exact Hhead].
Qed.

End PreviewFacts.

(** ** Further properties of the configuration, the store and the runs *)

(** X1.  Whatever value a configuration file holds, every numeric setting
    of the normalized configuration is at least 1, and the auto-observe
    threshold is at least 0. *)
Theorem config_values_within_bounds :
  forall raw : JsVal, configOk (normalizeOmConfig raw).
Proof. exact normalize_configOk. Qed.


(** X3.  [loadOmConfig] lets the first existing candidate decide alone: a
    project file that exists hides the global file also when it cannot be
    read or parsed, in which case the defaults are used, not the global
    file; the global file is read only when there is no project file; and
    whatever the two files hold, the configuration loaded is within the
    bounds. *)
Theorem config_file_precedence :
  forall (projectFile globalFile otherGlobalFile : ConfigFile) (raw : JsVal),
    configOk (fst (loadOmConfig projectFile globalFile))
    /\ loadOmConfig FileUnreadable globalFile = (DEFAULT_OM_CONFIG, Some ProjectConfigPath)
    /\ loadOmConfig (FileJson raw) globalFile
       = loadOmConfig (FileJson raw) otherGlobalFile
    /\ loadOmConfig FileAbsent (FileJson raw) = (normalizeOmConfig raw, Some GlobalConfigPath)
    /\ loadOmConfig FileAbsent FileUnreadable = (DEFAULT_OM_CONFIG, Some GlobalConfigPath)
    /\ loadOmConfig FileAbsent FileAbsent = (DEFAULT_OM_CONFIG, None).
Proof.
  intros projectFile globalFile otherGlobalFile raw.
  split; [apply loadOmConfig_configOk|].
  split; [reflexivity|]. split; [reflexivity|]. split; [reflexivity|].
  split; reflexivity.
Qed.

(** X4.  Every state the extension reaches is restored by a reload from its
    snapshot, from the store row or from the last state entry of the
    session branch alike, with the two run flags cleared and nothing else
    changed. *)
Theorem snapshot_restores_state :
  forall (roughTextTokenizer : jsstring -> Z) (STORAGE_SCOPE : StorageScope)
         (randomIdAt nowAt : nat -> jsstring) (s : System) (branch : list JsVal),
    reachable roughTextTokenizer STORAGE_SCOPE s ->
    loadState STORAGE_SCOPE randomIdAt nowAt (Some (stateToJson (sys_state s))) branch
    = clearFlags (sys_state s)
    /\ loadState STORAGE_SCOPE randomIdAt nowAt None (branch ++ [stateToJson (sys_state s)])
       = clearFlags (sys_state s).
Proof.
  intros tok scope randomIdAt nowAt s branch Hreach.
  pose proof (reachable_reflections_bounded Hreach) as Hlen.
  destruct (reachable_systemOk Hreach) as [Hbuf _].
  rewrite (@loadState_snapshot scope randomIdAt nowAt (sys_state s) branch Hlen).
  rewrite (@loadState_branch scope randomIdAt nowAt (sys_state s) branch Hlen).
  rewrite (recompute_bufferOk Hbuf). split; reflexivity.
Qed.

(** An instance of [snapshot_restores_state]: the state with one pending
    segment. *)
Lemma snapshot_restores_state_witness :
  loadState ScopeThread (fun _ => js "seg_9") (fun _ => js "t9")
            (Some (stateToJson (oneSegmentState (js "turn 1") 10))) []
  = clearFlags (oneSegmentState (js "turn 1") 10).
Proof.
  assert (R : reachable sampleTokenizer ScopeThread
                {| sys_state := pushPendingSegment (sys_state (initialSystem ScopeThread))
                                  None None (js "turn 1") 10 (js "seg_1") (js "t0");
                   sys_config := sys_config (initialSystem ScopeThread);
                   observing := observing (initialSystem ScopeThread);
                   observingReflect := observingReflect (initialSystem ScopeThread);
                   observingResume := observingResume (initialSystem ScopeThread);
                   reflecting := reflecting (initialSystem ScopeThread);
                   snapshots := snapshots (initialSystem ScopeThread) |}).
  { apply reach_run with (s := initialSystem ScopeThread); [apply reach_init|].
    apply step_push. }
  pose proof (@snapshot_restores_state sampleTokenizer ScopeThread
                (fun _ => js "seg_9") (fun _ => js "t9") _ [] R) as H.
  exact (proj1 H).
Defined.



(** X6.  The run counters never decrease: along every interleaving of
    appends, snapshots, configuration changes and runs on a document,
    [observationRuns] and [reflectionRuns] only grow. *)
Theorem run_counters_never_decrease :
  forall (roughTextTokenizer : jsstring -> Z) (STORAGE_SCOPE : StorageScope)
         (s s' : System),
    runs_to roughTextTokenizer STORAGE_SCOPE s s' ->
    (observationRuns (sys_state s) <= observationRuns (sys_state s')
     /\ reflectionRuns (sys_state s) <= reflectionRuns (sys_state s'))%Z.
Proof. intros tok scope s s'. apply runs_to_counters. Qed.

(** X7.  A run never erases the current task or the suggested response:
    once set, each stays set along every interleaving of appends,
    snapshots, configuration changes and runs on a document (a run whose
    output has no such section keeps the old value). *)
Theorem task_and_response_survive_runs :
  forall (roughTextTokenizer : jsstring -> Z) (STORAGE_SCOPE : StorageScope)
         (s s' : System),
    runs_to roughTextTokenizer STORAGE_SCOPE s s' ->
    (forall t, currentTask (sys_state s) = Some t ->
               exists t', currentTask (sys_state s') = Some t')
    /\ (forall r, suggestedResponse (sys_state s) = Some r ->
                  exists r', suggestedResponse (sys_state s') = Some r').
Proof.
  intros tok scope s s' Hruns.
  destruct (runs_to_task_kept Hruns) as [H1 H2]. split.
  - intros t E. destruct (currentTask (sys_state s')) as [t'|]; [now exists t'|].
    exfalso. apply H1; [congruence|reflexivity].
  - intros r E. destruct (suggestedResponse (sys_state s')) as [r'|]; [now exists r'|].
    exfalso. apply H2; [congruence|reflexivity].
Qed.

(** A complete Observer run on the sample document. *)
Lemma sample_run :
  runs_to sampleTokenizer ScopeThread (idleSystem taskState)
          (idleSystem observedTaskState).
Proof.
  pose (task := {| transcript := js "turn 1"; inputTokens := 10;
                   triggerAutoReflect := true |}).
  pose (running := {| sys_state := set_isBufferingObservation true taskState;
                      sys_config := DEFAULT_OM_CONFIG;
                      observing := [task]; observingReflect := [];
                      observingResume := []; reflecting := []; snapshots := [] |}).
  assert (Hbegin : observeNow_begin (sys_state (idleSystem taskState)) true
                   = Started (set_isBufferingObservation true taskState) task)
    by (vm_compute; reflexivity).
  assert (Hfinish : observeNow_finish sampleTokenizer (sys_config running)
                      (sys_state running) task (cliBackend observedOutput) (js "t2")
                    = ObserveDone observedTaskState (Returned true))
    by (vm_compute; reflexivity).
  apply runs_step with (s' := running).
  - apply runs_step with (s' := idleSystem taskState); [apply runs_refl|].
    exact (step_observe_begin sampleTokenizer ScopeThread (idleSystem taskState) true Hbegin).
  - exact (@step_observe_done sampleTokenizer ScopeThread running [] task []
             (cliBackend observedOutput) (js "t2") observedTaskState (Returned true)
             eq_refl Hfinish).
Qed.

(** An instance of [run_counters_never_decrease]: the sample run raises
    [observationRuns] from 0 to 1. *)
Lemma run_counters_witness :
  (observationRuns (sys_state (idleSystem taskState))
   <= observationRuns (sys_state (idleSystem observedTaskState)))%Z.
Proof.
  exact (proj1 (@run_counters_never_decrease sampleTokenizer ScopeThread _ _ sample_run)).
Defined.

(** An instance of [task_and_response_survive_runs]: the sample run, whose
    answer names no task, keeps the task. *)
Lemma task_survives_witness :
  exists t', currentTask (sys_state (idleSystem observedTaskState)) = Some t'.
Proof.
  exact (proj1 (@task_and_response_survive_runs sampleTokenizer ScopeThread _ _ sample_run)
               (js "fix the build") eq_refl).
Defined.


(** X9.  How a Reflector run ends under a configuration the program can
    hold.  Either the call failed (it threw, or its output had no
    observations) and nothing but the flag has changed; or it returns
    [true], and then the document is not blank, has at most
    [maxObservationItems] lines, its cached token count is the estimate of
    the new text, [reflectionRuns] has grown by exactly 1,
    [observationRuns] and the pending buffer are as before, and the
    history has a new first entry with the time of the run and the token
    counts before and after, cut to 15 entries. *)
Theorem reflector_run_outcomes :
  forall (roughTextTokenizer : jsstring -> Z) (STORAGE_SCOPE : StorageScope)
         (raw : JsVal) (state : OmState) (task : ReflectTask) (result : CallResult)
         (now : jsstring),
    let omConfig := normalizeOmConfig raw in
    let final := reflectNow_finish roughTextTokenizer STORAGE_SCOPE omConfig state task
                                   result now in
    (fst final = set_isBufferingReflection false state
     /\ (snd final = Returned false \/ snd final = Threw))
    \/ (snd final = Returned true
        /\ isBufferingReflection (fst final) = false
        /\ truthy (trim (observations (fst final))) = true
        /\ (Z.of_nat (length (observationLines (observations (fst final))))
            <= maxObservationItems omConfig)%Z
        /\ observationTokens (fst final) = roughTextTokenizer (observations (fst final))
        /\ reflectionRuns (fst final) = (reflectionRuns state + 1)%Z
        /\ observationRuns (fst final) = observationRuns state
        /\ pendingSegments (fst final) = pendingSegments state
        /\ exists snapshot,
            reflections (fst final) = firstn 15 (snapshot :: reflections state)
            /\ getField snapshot "at" = VStr now
            /\ getField snapshot "beforeTokens" = VNum (beforeTokens task)
            /\ getField snapshot "afterTokens" = VNum (observationTokens (fst final))).
Proof.
  intros tok scope raw state task result now omConfig final.
  pose proof (normalize_cap raw) as Hcap. fold omConfig in Hcap.
  unfold final. rewrite reflectNow_finish_try.
  destruct (reflectNow_try_cases tok scope omConfig state task result now)
    as [(o & E & Ho)|(parsed & Hfull & E)]; rewrite E.
  - left. split; [reflexivity|]. destruct o as [[|]|]; auto. congruence.
  - right.
    destruct (reflectedState_fields tok scope omConfig state task parsed now)
      as (F1 & F2 & F3 & F4 & F5 & snapshot & F6 & F7 & F8 & F9).
    apply truthy_trim in Hfull.
    destruct (@merge_nonBlank omConfig (js "") (parsed_observations parsed) Hcap Hfull)
      as [Hnb Hlen].
    rewrite <- F1 in Hnb, Hlen. rewrite <- F1 in F2, F9. rewrite <- F2 in F9.
    clear E F1.
    generalize dependent (reflectedState tok scope omConfig state task parsed now).
    intros done F2 F3 F4 F5 F6 F9 Hnb Hlen.
    split; [reflexivity|]. split; [reflexivity|].
    split; [apply truthy_trim; exact Hnb|].
    split; [exact Hlen|].
    split; [exact F2|].
    split; [exact F4|]. split; [exact F3|]. split; [exact F5|].
    exists snapshot. split; [exact F6|]. split; [exact F7|]. split; [exact F8|exact F9].
Qed.

(** ** Further properties of the selection and of the context hook *)

(** X10.  The core memory is a run of the most recent observation lines, in
    document order: the lines of the document are some older lines followed
    by exactly the core, and the core is empty only when the document has
    no line. *)
Theorem core_is_most_recent_lines :
  forall (roughTextTokenizer : jsstring -> Z) (toLowerCase : jsstring -> jsstring)
         (isLetterOrNumber : N -> bool) (omConfig : OmConfig) (state : OmState)
         (recentMessages : list JsVal),
    let allLines := observationLines (observations state) in
    let core := fst (buildCoreAndRelevantObservations roughTextTokenizer toLowerCase
                       isLetterOrNumber omConfig state recentMessages) in
    exists older,
      allLines = older ++ core
      /\ (allLines = [] \/ exists l rest, core = l :: rest).
Proof.
  intros tok lower isLN omConfig state msgs allLines core.
  destruct (core_suffix tok lower isLN omConfig state msgs) as [[older Hs] Hne].
  fold allLines in Hs, Hne. fold core in Hs, Hne.
  exists older. split; [exact Hs|].
  destruct allLines as [|l0 ls]; [now left|]. right.
  destruct core as [|l rest]; [exfalso; apply Hne; [discriminate|reflexivity]|].
  now exists l, rest.
Qed.


(** X12.  The ranking behind the relevant observations: every ranked entry
    is a line of the document at its index, its score is the number of
    query keywords the lower-cased line contains, lines without a hit are
    left out when the query has keywords, no line is ranked twice, and the
    entries are ordered by higher score first and, among equal scores, by
    the later line first. *)
Theorem ranking_by_hits_then_recency :
  forall (toLowerCase : jsstring -> jsstring) (keys allLines : list jsstring),
    let ranked := rankLines toLowerCase keys allLines in
    (forall r, In r ranked ->
               nth_error allLines (index r) = Some (line r)
               /\ score r = keywordHits toLowerCase keys (line r)
               /\ (keys <> [] -> (1 <= score r)%Z))
    /\ NoDup (map index ranked)
    /\ StronglySorted rankedBefore ranked.
Proof. intros lower keys allLines. apply rankLines_spec. Qed.

(** X13.  The keywords of a text hold no duplicate, no stop word and no
    word shorter than three characters. *)
Theorem keywords_filtered_and_unique :
  forall (toLowerCase : jsstring -> jsstring) (isLetterOrNumber : N -> bool)
         (text : jsstring),
    NoDup (keywordSet toLowerCase isLetterOrNumber text)
    /\ forall k, In k (keywordSet toLowerCase isLetterOrNumber text) ->
                 (3 <= length k)%nat /\ ~ In k STOPWORDS.
Proof. intros lower isLN text. exact (@keywordSet_spec lower isLN text). Qed.

(** X14.  The recent turns kept for the model are a tail of the
    conversation: the messages are some older ones followed by exactly the
    kept ones; the last message is always kept; and the kept part either is
    the whole conversation or begins at a turn boundary (a user, custom,
    summary or shell message), never in the middle of a turn. *)
Theorem recent_turns_start_at_boundary :
  forall (roughTextTokenizerWith : jsstring -> jsstring -> Z)
         (jsonStringify : JsVal -> jsstring) (messages : list JsVal)
         (budgetTokens : Z) (modelHint : jsstring),
    let recent := selectRecentTurnsByTokenBudget roughTextTokenizerWith jsonStringify
                    messages budgetTokens modelHint in
    (exists older, messages = older ++ recent)
    /\ (messages = [] \/ exists older m, messages = older ++ [m] /\ In m recent)
    /\ (recent = messages
        \/ exists m rest, recent = m :: rest /\ isTurnBoundary m = true).
Proof.
  intros tokWith stringify messages budget hint recent.
  destruct (selectRecent_spec tokWith stringify messages budget hint)
    as ([older Hs] & Hne & Hstart).
  fold recent in Hs, Hne, Hstart.
  split; [now exists older|]. split; [|exact Hstart].
  destruct messages as [|m0 ms] eqn:Em; [now left|]. right.
  assert (Hr : recent <> []) by (apply Hne; discriminate).
  destruct (exists_last Hr) as (front & m & Er).
  exists (older ++ front), m. split.
  - rewrite Hs, Er. now rewrite app_assoc.
  - rewrite Er. apply in_or_app. right. now left.
Qed.

(** X15.  The recent turns keep what the budget affords: whenever the last
    messages of the conversation have non-negative estimates that add up to
    at most the budget, all of them are kept, whatever comes before them;
    and a conversation that fits the budget as a whole is kept whole. *)
Theorem recent_turns_keep_affordable_tail :
  forall (roughTextTokenizerWith : jsstring -> jsstring -> Z)
         (jsonStringify : JsVal -> jsstring) (older tail : list JsVal)
         (budgetTokens : Z) (modelHint : jsstring),
    Forall (fun m => (0 <= messageTokens roughTextTokenizerWith jsonStringify
                                         modelHint m)%Z) tail ->
    (messagesTokens (messageTokens roughTextTokenizerWith jsonStringify modelHint)
                    tail <= budgetTokens)%Z ->
    (exists more,
        selectRecentTurnsByTokenBudget roughTextTokenizerWith jsonStringify
          (older ++ tail) budgetTokens modelHint = more ++ tail)
    /\ selectRecentTurnsByTokenBudget roughTextTokenizerWith jsonStringify
         tail budgetTokens modelHint = tail.
Proof.
  intros tokWith stringify older tail budget hint Hpos Hfit. split.
  - now apply selectRecent_tail.
  - now apply selectRecent_fits.
Qed.

(** An instance of [recent_turns_keep_affordable_tail]: the last two of
    three messages fit a budget of 3. *)
Lemma recent_turns_keep_witness :
  exists more,
    selectRecentTurnsByTokenBudget (fun _ text => sampleTokenizer text) (fun _ => js "{}")
      ([ VObj [(js "role", VStr (js "user")); (js "content", VStr (js "a long question"))] ]
       ++ [ VObj [(js "role", VStr (js "user")); (js "content", VStr (js "hi"))];
            VObj [(js "role", VStr (js "assistant")); (js "content", VStr (js "hello"))] ])
      3 (js "openai/gpt-4o-mini")
    = more ++ [ VObj [(js "role", VStr (js "user")); (js "content", VStr (js "hi"))];
                VObj [(js "role", VStr (js "assistant"));
                      (js "content", VStr (js "hello"))] ].
Proof.
  apply (@recent_turns_keep_affordable_tail
           (fun _ text => sampleTokenizer text) (fun _ => js "{}")).
  - constructor; [vm_compute; discriminate|].
    constructor; [vm_compute; discriminate|constructor].
  - vm_compute. discriminate.
Defined.


(** ** Further properties of the rendering *)

(** X17.  A date is called [today] exactly when it lies less than one day
    back: at the current instant or less than 24 hours before it.  Any later
    instant, up to 24 hours ahead, is called [tomorrow]. *)
Theorem today_means_within_the_last_day :
  forall (date currentDate : Z),
    (formatRelativeTime date currentDate = js "today"
     <-> (0 <= currentDate - date < msPerDay)%Z)
    /\ ((0 <? date - currentDate)%Z && (date - currentDate <=? msPerDay)%Z = true ->
        formatRelativeTime date currentDate = js "tomorrow").
Proof.
  intros date currentDate. split; [apply formatRelativeTime_today|].
  intros H. apply andb_true_iff in H as [H1 H2].
  apply Z.ltb_lt in H1. apply Z.leb_le in H2.
  apply formatRelativeTime_tomorrow. lia.
Qed.

(** X18.  A gap marker between two date headers is produced exactly when
    the second date is at least two days after the first. *)
Theorem gap_marker_from_two_days :
  forall (prevDate currDate : Z),
    formatGapBetweenDates prevDate currDate = None
    <-> (currDate - prevDate < 2 * msPerDay)%Z.
Proof. exact formatGapBetweenDates_none. Qed.

(** X19.  The temporal annotation only adds what the host's date parser
    makes of the dates in the text: with a parser that accepts none of
    them, the text is returned unchanged, whatever inline annotations and
    date headers it holds. *)
Theorem annotation_needs_parsable_dates :
  forall (dateParse : jsstring -> option Z) (text : jsstring) (currentDate : Z),
    (forall s, dateParse s = None) ->
    addRelativeTimeToObservations dateParse text currentDate = text.
Proof. intros dateParse text currentDate. apply annotate_unparsed. Qed.

(** An instance of [annotation_needs_parsable_dates]: a header and an
    inline annotation under a parser that rejects every date. *)
Lemma annotation_needs_parsable_dates_witness :
  addRelativeTimeToObservations (fun _ => None)
    (js "Date: Feb 12, 2026" ++ [NL] ++ js "* will ship (estimated Feb 20, 2026)") 0
  = js "Date: Feb 12, 2026" ++ [NL] ++ js "* will ship (estimated Feb 20, 2026)".
Proof.
  apply (@annotation_needs_parsable_dates (fun _ => None)). reflexivity.
Defined.

(** X20.  A text that holds no opening parenthesis and no [Date:] is
    returned unchanged by the temporal annotation, whatever the clock and
    the host's date parser. *)
Theorem annotation_leaves_undated_text :
  forall (dateParse : jsstring -> option Z) (text : jsstring) (currentDate : Z),
    undated text ->
    addRelativeTimeToObservations dateParse text currentDate = text.
Proof. intros dateParse text currentDate. apply annotate_undated. Qed.

(** An instance of [annotation_leaves_undated_text]. *)
Lemma annotation_leaves_undated_text_witness :
  addRelativeTimeToObservations utcDateParse (js "* user prefers tabs") 1770944400000
  = js "* user prefers tabs".
Proof.
  apply (@annotation_leaves_undated_text utcDateParse).
  split; vm_compute; reflexivity.
Defined.

(** X21.  The token-saving pass never returns a text longer than the one
    it is given. *)
Theorem optimize_never_lengthens :
  forall observations : jsstring,
    (length (optimizeObservationsForContext observations) <= length observations)%nat.
Proof. exact optimize_length. Qed.

(** X22.  The token-saving pass leaves a plain text as it is: a text
    without medium or low priority emoji, without bracket, without a run of
    two blanks or three line breaks and without white space at its ends is
    returned unchanged; in particular the high priority emoji and single
    blank lines are kept. *)
Theorem optimize_leaves_plain_text :
  forall text : jsstring,
    plainObservations text -> optimizeObservationsForContext text = text.
Proof. exact optimize_plain. Qed.

(** An instance of [optimize_leaves_plain_text]: two observation lines,
    the first with the high priority emoji (D83D DD34). *)
Lemma optimize_leaves_plain_text_witness :
  optimizeObservationsForContext
    (js "* " ++ [55357; 56628]%N ++ js " (14:30) user prefers tabs" ++ [NL; NL]
       ++ js "* build uses make")
  = js "* " ++ [55357; 56628]%N ++ js " (14:30) user prefers tabs" ++ [NL; NL]
      ++ js "* build uses make".
Proof.
  apply optimize_leaves_plain_text.
  split; [vm_compute; reflexivity|]. split; [vm_compute; reflexivity|].
  split; [vm_compute; reflexivity|]. split; [vm_compute; reflexivity|].
  split; [vm_compute; reflexivity|]. split; vm_compute; reflexivity.
Defined.

(** X23.  In the injection mode [all], observations that are plain text --
    on which neither the token-saving pass nor the temporal annotation has
    anything to do -- reach the model verbatim, between the marker, the
    prompt and the instructions, followed by the task and response blocks
    that are set; and a blank document gives the marker and those blocks
    only, without an observations block. *)
Theorem memory_message_keeps_plain_text :
  forall (dateParse : jsstring -> option Z) (state : OmState) (currentDate : Z),
    (plainObservations (observations state) ->
     undated (observations state) ->
     observations state <> [] ->
     formatObservationalMemoryMessage dateParse state currentDate
     = join [NL]
         (pushOptionalBlock
            (pushOptionalBlock
               [OM_MARKER; js ""; OBSERVATION_CONTEXT_PROMPT; js ""; js "<observations>";
                observations state; js "</observations>"; js "";
                OBSERVATION_CONTEXT_INSTRUCTIONS; js ""]
               "<current-task>" "</current-task>" (currentTask state))
            "<suggested-response>" "</suggested-response>" (suggestedResponse state)))
    /\ (truthy (trim (observations state)) = false ->
        formatObservationalMemoryMessage dateParse state currentDate
        = join [NL]
            (pushOptionalBlock
               (pushOptionalBlock [OM_MARKER; js ""]
                  "<current-task>" "</current-task>" (currentTask state))
               "<suggested-response>" "</suggested-response>"
               (suggestedResponse state))).
Proof.
  intros dateParse state currentDate. split.
  - apply message_plain.
  - apply message_blank.
Qed.

(** An instance of [memory_message_keeps_plain_text]: one observation and
    a current task. *)
Lemma memory_message_keeps_plain_text_witness :
  formatObservationalMemoryMessage utcDateParse
    (set_currentTask (Some (js "fix the build"))
       (set_observations (js "* user prefers tabs") (createInitialState ScopeThread)))
    1770944400000
  = join [NL]
      [OM_MARKER; js ""; OBSERVATION_CONTEXT_PROMPT; js ""; js "<observations>";
       js "* user prefers tabs"; js "</observations>"; js "";
       OBSERVATION_CONTEXT_INSTRUCTIONS; js "";
       js "<current-task>"; js "fix the build"; js "</current-task>"; js ""].
Proof.
  apply (proj1 (@memory_message_keeps_plain_text utcDateParse
                  (set_currentTask (Some (js "fix the build"))
                     (set_observations (js "* user prefers tabs")
                                       (createInitialState ScopeThread)))
                  1770944400000)).
  - split; [vm_compute; reflexivity|]. split; [vm_compute; reflexivity|].
    split; [vm_compute; reflexivity|]. split; [vm_compute; reflexivity|].
    split; [vm_compute; reflexivity|]. split; vm_compute; reflexivity.
  - split; vm_compute; reflexivity.
  - discriminate.
Defined.

(** X24.  Scope keys keep documents apart.  A resource key and a thread
    key are never equal; under the resource scope the key depends on the
    working directory alone, and different directories give different
    keys; under the thread scope different session files give different
    keys, and a missing or empty session file and session id fall back to
    the working directory. *)
Theorem scope_keys_keep_documents_apart :
  forall (cwd cwd' : jsstring) (sessionFile sessionFile' sessionId sessionId'
                               : option jsstring) (file file' : jsstring),
    resolveScopeKey ScopeResource cwd sessionFile sessionId
    <> resolveScopeKey ScopeThread cwd' sessionFile' sessionId'
    /\ resolveScopeKey ScopeResource cwd sessionFile sessionId
       = resolveScopeKey ScopeResource cwd sessionFile' sessionId'
    /\ (resolveScopeKey ScopeResource cwd sessionFile sessionId
        = resolveScopeKey ScopeResource cwd' sessionFile sessionId -> cwd = cwd')
    /\ (file <> [] -> file' <> [] ->
        resolveScopeKey ScopeThread cwd (Some file) sessionId
        = resolveScopeKey ScopeThread cwd' (Some file') sessionId' ->
        file = file')
    /\ resolveScopeKey ScopeThread cwd None None = js "thread:" ++ cwd
    /\ resolveScopeKey ScopeThread cwd (Some (js "")) (Some (js "")) = js "thread:" ++ cwd.
Proof.
  intros cwd cwd' sessionFile sessionFile' sessionId sessionId' file file'.
  split; [|split; [|split; [|split; [|split]]]].
  - destruct (thread_key_prefix cwd' sessionFile' sessionId') as [name ->].
    unfold resolveScopeKey. intros H. vm_compute in H. discriminate.
  - reflexivity.
  - unfold resolveScopeKey. intros H. now apply app_inv_head in H.
  - intros Hf Hf'. unfold resolveScopeKey.
    rewrite (nonEmpty_some Hf), (nonEmpty_some Hf'). intros H.
    now apply app_inv_head in H.
  - reflexivity.
  - reflexivity.
Qed.

(** ** Further properties of the budgets and of the parser *)

(** X25.  The selection uses its budgets: the core stops in front of an
    older line only when that line would take it over
    [coreMemoryMaxTokens], and the relevant observations stop in front of
    the next candidate only when it would take them over
    [relevantObservationMaxTokens]. *)
Theorem selection_fills_budgets :
  forall (roughTextTokenizer : jsstring -> Z) (toLowerCase : jsstring -> jsstring)
         (isLetterOrNumber : N -> bool) (omConfig : OmConfig) (state : OmState)
         (recentMessages : list JsVal),
    let allLines := observationLines (observations state) in
    let selected := buildCoreAndRelevantObservations roughTextTokenizer toLowerCase
                      isLetterOrNumber omConfig state recentMessages in
    let core := fst selected in
    let relevant := snd selected in
    (exists older,
        allLines = older ++ core
        /\ (older = []
            \/ exists older' l,
                older = older' ++ [l]
                /\ (coreMemoryMaxTokens omConfig
                    < tokenSum roughTextTokenizer core + roughTextTokenizer l)%Z))
    /\ (exists others,
           relevantCandidates toLowerCase isLetterOrNumber omConfig core allLines
                              recentMessages = relevant ++ others
           /\ (others = []
               \/ exists l others',
                   others = l :: others'
                   /\ (relevantObservationMaxTokens omConfig
                       < tokenSum roughTextTokenizer relevant + roughTextTokenizer l)%Z)).
Proof.
  intros tok lower isLN omConfig state msgs. cbv zeta.
  unfold buildCoreAndRelevantObservations.
  destruct (observationLines (observations state)) as [|l0 ls] eqn:El.
  - cbn [fst snd]. split.
    + exists []. split; [reflexivity|now left].
    + exists []. split; [|now left].
      unfold relevantCandidates, rankLines.
      destruct (0 <? length (queryKeys lower isLN msgs))%nat; reflexivity.
  - cbv zeta. cbn [fst snd]. split.
    + destruct (trimLinesToTokenBudget_stop tok (rev (l0 :: ls))
                  (coreMemoryMaxTokens omConfig)) as (dropped & Hd & Hmax).
      exists (rev dropped). split.
      * apply (f_equal (@rev jsstring)) in Hd.
        rewrite rev_involutive, rev_app_distr in Hd. exact Hd.
      * destruct Hmax as [->|(l & rest & -> & Hlt)]; [now left|].
        right. exists (rev rest), l. split; [reflexivity|].
        now rewrite tokenSum_rev.
    + apply trimLinesToTokenBudget_stop.
Qed.

(** X26.  An answer without markup is rejected: a text that holds neither
    [<] nor [#] -- with or without a code fence around it -- parses to no
    section at all, so an Observer run that receives it returns [false]
    with nothing but its flag changed, and so does a Reflector run. *)
Theorem unmarked_answer_is_rejected :
  forall raw : jsstring,
    unmarked raw ->
    parseOmSections raw
    = {| parsed_observations := js "";
         parsed_currentTask := None;
         parsed_suggestedResponse := None |}
    /\ (forall (roughTextTokenizer : jsstring -> Z) (omConfig : OmConfig)
               (state : OmState) (task : ObserveTask) (backend : Backend)
               (now : jsstring),
           observerChannels backend = ChannelText raw ->
           observeNow_finish roughTextTokenizer omConfig state task backend now
           = ObserveDone (set_isBufferingObservation false state) (Returned false))
    /\ (forall (roughTextTokenizer : jsstring -> Z) (STORAGE_SCOPE : StorageScope)
               (omConfig : OmConfig) (state : OmState) (task : ReflectTask)
               (backend : Backend) (now : jsstring),
           reflectorChannels backend = ChannelText raw ->
           reflectNow_finish roughTextTokenizer STORAGE_SCOPE omConfig state task
                             (runReflectorCall backend) now
           = (set_isBufferingReflection false state, Returned false)).
Proof.
  intros raw Hraw. pose proof (parse_unmarked Hraw) as E.
  split; [exact E|]. split.
  - intros tok omConfig state task backend now Hout.
    apply observeNow_finish_empty with (out := raw); [exact Hout|].
    rewrite E. reflexivity.
  - intros tok scope omConfig state task backend now Hout.
    unfold reflectNow_finish, reflectNow_try, runReflectorCall.
    rewrite Hout, E. reflexivity.
Qed.

(** An instance of [unmarked_answer_is_rejected]: a sentence of prose. *)
Lemma unmarked_answer_witness :
  parseOmSections (js "The user prefers tabs over spaces.")
  = {| parsed_observations := js "";
       parsed_currentTask := None;
       parsed_suggestedResponse := None |}.
Proof.
  apply (proj1 (@unmarked_answer_is_rejected (js "The user prefers tabs over spaces.")
                  (conj eq_refl eq_refl))).
Defined.

(** X27.  What [extractXmlTag] takes for each of the three section tags:
    the text between the first opening tag and the first closing tag after
    it, letter case of the tags apart, trimmed; and the empty string when
    there is no opening tag or no closing tag after the first one. *)
Theorem xml_section_is_first_block :
  forall (text : jsstring) (tag : string),
    In tag sectionTags ->
    extractXmlTag text tag
    = trim (orDefault (between_i (openingTag tag) (closingTag tag) text) (js "")).
Proof. intros text tag _. apply extractXmlTag_between. Qed.

(** An instance of [xml_section_is_first_block]: a block with capital
    letters in its opening tag, after some prose. *)
Lemma xml_section_witness :
  extractXmlTag (js "Here: <Observations> * a </observations> <observations>b</observations>")
                "observations"
  = trim (orDefault
            (between_i (openingTag "observations") (closingTag "observations")
               (js "Here: <Observations> * a </observations> <observations>b</observations>"))
            (js "")).
Proof.
  apply (@xml_section_is_first_block
           (js "Here: <Observations> * a </observations> <observations>b</observations>")
           "observations").
  left. reflexivity.
Defined.

(** X28.  An answer in the format the prompts ask for is read back section
    by section.  When the answer, its code fence removed, is made of an
    observations block, a current-task block and a suggested-response block
    in this order, with any text around and between them, and none of these
    texts holds a section tag, then every section that is not blank is
    parsed to its content, trimmed. *)
Theorem tagged_answer_parses :
  forall (raw pre o s1 t s2 r post : jsstring),
    stripSingleCodeFence raw
    = pre ++ openingTag "observations" ++ o ++ closingTag "observations"
          ++ s1 ++ openingTag "current-task" ++ t ++ closingTag "current-task"
          ++ s2 ++ openingTag "suggested-response" ++ r
          ++ closingTag "suggested-response" ++ post ->
    holdsNoTag pre -> holdsNoTag o -> holdsNoTag s1 -> holdsNoTag t ->
    holdsNoTag s2 -> holdsNoTag r ->
    (truthy (trim o) = true ->
     parsed_observations (parseOmSections raw) = trim o)
    /\ (truthy (trim t) = true ->
        parsed_currentTask (parseOmSections raw) = Some (trim t))
    /\ (truthy (trim r) = true ->
        parsed_suggestedResponse (parseOmSections raw) = Some (trim r)).
Proof.
  intros raw pre o s1 t s2 r post Hraw Hpre Ho Hs1 Ht Hs2 Hr.
  destruct (@between_answer pre o s1 t s2 r post Hpre Ho Hs1 Ht Hs2 Hr)
    as (Bo & Bt & Br).
  cbv zeta in Bo, Bt, Br. rewrite <- Hraw in Bo, Bt, Br.
  unfold parseOmSections. cbv zeta.
  generalize dependent (stripSingleCodeFence raw). intros text _ Bo Bt Br.
  rewrite !extractXmlTag_between, Bo, Bt, Br. cbn [orDefault].
  cbn [parsed_observations parsed_currentTask parsed_suggestedResponse].
  split; [|split]; intros Hfull; rewrite Hfull, trim_idem;
    [reflexivity| |]; unfold nonEmpty; now rewrite Hfull.
Qed.

(** An instance of [tagged_answer_parses]: a fenced answer with the three
    blocks. *)
Lemma tagged_answer_witness :
  parsed_observations
    (parseOmSections
       (js "```xml" ++ [NL] ++ js "<observations>" ++ [NL] ++ js "* user prefers tabs"
          ++ [NL] ++ js "</observations>" ++ [NL; NL] ++ js "<current-task>"
          ++ js "fix the build" ++ js "</current-task>" ++ [NL; NL]
          ++ js "<suggested-response>" ++ js "ask for the log"
          ++ js "</suggested-response>" ++ [NL] ++ js "```"))
  = js "* user prefers tabs".
Proof.
  refine (proj1 (@tagged_answer_parses _ (js "") ([NL] ++ js "* user prefers tabs" ++ [NL])
                   [NL; NL] (js "fix the build") [NL; NL] (js "ask for the log") (js "")
                   _ _ _ _ _ _ _) _).
  - vm_compute. reflexivity.
  - repeat constructor.
  - repeat constructor.
  - repeat constructor.
  - repeat constructor.
  - repeat constructor.
  - repeat constructor.
  - vm_compute. reflexivity.
Defined.

(** X29.  [stripSingleCodeFence] removes one code fence and nothing else.
    A text that, trimmed, does not start with three backquotes is only
    trimmed; a text that, trimmed, is an opening fence with a language tag
    of letters, digits, [_] and [-], a line break, a body, a line break and
    a closing fence becomes the body, trimmed, whatever the body holds. *)
Theorem code_fence_is_removed :
  forall raw : jsstring,
    (stripPrefix (js "```") (trim raw) = None ->
     stripSingleCodeFence raw = trim raw)
    /\ (forall lang body : jsstring,
           forallb (fun c => isWordChar c || (c =? 45)%N) lang = true ->
           trim raw = js "```" ++ lang ++ [NL] ++ body ++ [NL] ++ js "```" ->
           stripSingleCodeFence raw = trim body).
Proof.
  intros raw. split.
  - apply stripSingleCodeFence_plain.
  - intros lang body. apply stripSingleCodeFence_fenced.
Qed.

(** An instance of [code_fence_is_removed]: a fenced body that itself
    holds a fence line. *)
Lemma code_fence_witness :
  stripSingleCodeFence
    ([NL] ++ js "```xml" ++ [NL] ++ js "a" ++ [NL] ++ js "```" ++ [NL] ++ js "b" ++ [NL]
       ++ js "```" ++ [NL])
  = js "a" ++ [NL] ++ js "```" ++ [NL] ++ js "b".
Proof.
  apply (proj2 (code_fence_is_removed
                  ([NL] ++ js "```xml" ++ [NL] ++ js "a" ++ [NL] ++ js "```" ++ [NL]
                     ++ js "b" ++ [NL] ++ js "```" ++ [NL]))
               (js "xml") (js "a" ++ [NL] ++ js "```" ++ [NL] ++ js "b")).
  - reflexivity.
  - reflexivity.
Defined.

(** X30.  A preview is one short line: [trimPreview] returns at most
    [maxChars] characters and an ellipsis, every white-space character in
    it is a plain blank -- so it holds no line break and no tab -- and it
    does not start with a blank.  In particular the preview stored with
    each reflection has at most 321 characters and no line break. *)
Theorem preview_is_one_short_line :
  forall (text : jsstring) (maxChars : nat),
    let preview := trimPreview text maxChars in
    length preview <= S maxChars
    /\ Forall (fun c => isJsSpace c = true -> c = 32%N) preview
    /\ match preview with c :: _ => isJsSpace c = false | [] => True end
    /\ forall (task : ReflectTask) (state : OmState) (now : jsstring),
        exists p,
          getField (reflectionSnapshot task state now) "preview" = VStr p
          /\ length p <= 321 /\ ~ In NL p.
Proof.
  intros text maxChars preview.
  destruct (trimPreview_spec text maxChars) as (H1 & H2 & H3).
  split; [exact H1|]. split; [exact H2|]. split; [exact H3|].
  intros task state now. eexists. split; [reflexivity|].
  match goal with |- length (trimPreview ?t ?n) <= _ /\ _ =>
    destruct (trimPreview_spec t n) as (L1 & L2 & _) end.
  split; [exact L1|]. intros Hin.
  pose proof (proj1 (Forall_forall _ _) L2 NL Hin eq_refl) as E. discriminate.
Qed.
